(** * ContentWell: publish dispatcher, connect flows, CSV import, save routine

    A shallow embedding of the parts of the ContentWell front-end and of its
    two small API servers that the specification makes testable claims about,
    together with the proofs (or refutations) of those claims.

    Conventions.
    - A JavaScript string is the list of its UTF-16 code units ([jstring]);
      [.length] is [length].  String literals are written [js "..."].
    - A value that may be [undefined]/[null] in the source is an [option].
    - Every external collaborator (database, provider REST API, storage
      bucket, AI endpoint, clock) is an explicit input of the model; the calls
      a handler makes are recorded, in order, in the trace it returns. *)

From Stdlib Require Import ZArith NArith List String Ascii Bool Lia DecimalString.
From stdpp Require Import base option list gmap.
Import ListNotations.

Local Open Scope string_scope.
Local Open Scope list_scope.
Local Open Scope nat_scope.
Set Warnings "-register-all".

(** ** JavaScript strings *)

Module JsString.

Definition jstring := list N.

Fixpoint js (s : string) : jstring :=
  match s with
  | EmptyString => []
  | String a s' => N_of_ascii a :: js s'
  end.

Arguments js : simpl never.

(** [jsq] is [js] with every apostrophe turned into a double quote, so that
    JSON text can be written down readably. *)
Definition jsq (s : string) : jstring :=
  (fun c => if N.eqb c 39 then 34%N else c) <$> js s.

(** Truthiness of a possibly-undefined string: [undefined], [null] and the
    empty string are falsy. *)
Definition truthy (o : option jstring) : bool :=
  match o with
  | Some (_ :: _) => true
  | _ => false
  end.

(** [a || b] on possibly-undefined strings. *)
Definition or_else (a b : option jstring) : option jstring :=
  if truthy a then a else b.

(** ECMAScript WhiteSpace and LineTerminator code units, as used by
    [String.prototype.trim] and by [\s] in regular expressions. *)
Definition is_space (c : N) : bool :=
  existsb (N.eqb c)
    [9; 10; 11; 12; 13; 32; 160; 5760; 8192; 8193; 8194; 8195; 8196; 8197;
     8198; 8199; 8200; 8201; 8202; 8232; 8233; 8239; 8287; 12288; 65279]%N.

Fixpoint trimStart (s : jstring) : jstring :=
  match s with
  | c :: s' => if is_space c then trimStart s' else s
  | [] => []
  end.

Definition trimEnd (s : jstring) : jstring := rev (trimStart (rev s)).

Definition trim (s : jstring) : jstring := trimEnd (trimStart s).

(** [s.substring(0, n)]. *)
Definition substring0 (n : nat) (s : jstring) : jstring := take n s.

(** [s.split(sep)] for a one-code-unit separator: never returns the empty
    array. *)
Fixpoint split (sep : N) (s : jstring) : list jstring :=
  match s with
  | [] => [[]]
  | c :: s' =>
      if N.eqb c sep then [] :: split sep s'
      else match split sep s' with
           | w :: ws => (c :: w) :: ws
           | [] => [[c]]
           end
  end.

Fixpoint join (sep : jstring) (l : list jstring) : jstring :=
  match l with
  | [] => []
  | [w] => w
  | w :: ws => w ++ sep ++ join sep ws
  end.

Definition lower (c : N) : N :=
  if (65 <=? c)%N && (c <=? 90)%N then (c + 32)%N else c.

(** Does [pat] match at the head of [s]?  [ci] is the [i] flag. *)
Fixpoint starts_with (ci : bool) (pat s : jstring) : bool :=
  match pat, s with
  | [], _ => true
  | p :: pat', c :: s' =>
      (if ci then N.eqb (lower p) (lower c) else N.eqb p c)
      && starts_with ci pat' s'
  | _ :: _, [] => false
  end.

(** [s.replace(/pat/g, rep)] for a literal, non-empty pattern: matches are
    found left to right and do not overlap.  [skip] counts the code units of
    the current match still to be dropped. *)
Fixpoint replace_from (ci : bool) (pat rep : jstring) (skip : nat)
    (s : jstring) : jstring :=
  match s with
  | [] => []
  | c :: s' =>
      match skip with
      | S k => replace_from ci pat rep k s'
      | O =>
          if starts_with ci pat s
          then rep ++ replace_from ci pat rep (length pat - 1) s'
          else c :: replace_from ci pat rep 0 s'
      end
  end.

Definition replaceAll (ci : bool) (pat rep s : jstring) : jstring :=
  replace_from ci pat rep 0 s.

End JsString.

Import JsString.

(** ** JSON values and [JSON.parse] *)

Module Json.

(** A JavaScript value as far as JSON and the handlers need it.  A number is
    kept as the exact decimal [m * 10^e] it was written as (rounding to a
    double is not modelled).  An object is the list of its own properties in
    insertion order. *)
Inductive jsval : Type :=
| JUndefined
| JNull
| JBool (b : bool)
| JNum (m e : Z)
| JStr (s : jstring)
| JArr (l : list jsval)
| JObj (l : list (jstring * jsval)).

Definition jeq (a b : jstring) : bool := bool_decide (a = b).

Fixpoint obj_set (k : jstring) (v : jsval) (o : list (jstring * jsval))
    : list (jstring * jsval) :=
  match o with
  | [] => [(k, v)]
  | (k', v') :: o' =>
      if jeq k k' then (k, v) :: o' else (k', v') :: obj_set k v o'
  end.

Fixpoint obj_get (k : jstring) (o : list (jstring * jsval)) : option jsval :=
  match o with
  | [] => None
  | (k', v) :: o' => if jeq k k' then Some v else obj_get k o'
  end.

(** [v.k] and [v[k]]: reading a property of [undefined] or [null] throws a
    TypeError ([None]); a missing property reads as [undefined].  The
    built-in properties of primitives and arrays are not modelled: none of
    the keys the handlers read is one of them. *)
Definition prop (v : jsval) (k : string) : option jsval :=
  match v with
  | JUndefined | JNull => None
  | JObj o => Some (default JUndefined (obj_get (js k) o))
  | _ => Some JUndefined
  end.

(** [v?.k]. *)
Definition prop_opt (v : jsval) (k : string) : jsval :=
  default JUndefined (prop v k).

Definition truthy_val (v : jsval) : bool :=
  match v with
  | JUndefined | JNull => false
  | JBool b => b
  | JNum m _ => negb (Z.eqb m 0)
  | JStr s => negb (bool_decide (s = []))
  | JArr _ | JObj _ => true
  end.

(** *** Lexer *)

Inductive token :=
| TLBrace | TRBrace | TLBrack | TRBrack | TColon | TComma
| TStr (s : jstring) | TNum (m e : Z) | TLit (v : jsval).

Definition is_digit (c : N) : bool := (48 <=? c)%N && (c <=? 57)%N.

Definition digit_val (c : N) : Z := Z.of_N (c - 48).

Definition hex_val (c : N) : option N :=
  if is_digit c then Some (c - 48)%N
  else if (97 <=? c)%N && (c <=? 102)%N then Some (c - 87)%N
  else if (65 <=? c)%N && (c <=? 70)%N then Some (c - 55)%N
  else None.

Fixpoint span_digits (s : jstring) : jstring * jstring :=
  match s with
  | c :: s' =>
      if is_digit c then let '(d, r) := span_digits s' in (c :: d, r)
      else ([], s)
  | [] => ([], [])
  end.

Definition digits_val (d : jstring) : Z :=
  fold_left (fun acc c => (10 * acc + digit_val c)%Z) d 0%Z.

(** The JSON number grammar: an optional minus sign; an integer part that
    is either the single digit 0 or a non-zero digit followed by digits; an
    optional fraction (a dot and at least one digit); an optional exponent
    (e or E, an optional sign, at least one digit). *)
Definition parse_exponent (s : jstring) : option Z :=
  match s with
  | [] => Some 0%Z
  | c :: s' =>
      if N.eqb c 101 || N.eqb c 69 then
        let '(neg, s'') :=
          match s' with
          | 45%N :: t => (true, t)
          | 43%N :: t => (false, t)
          | _ => (false, s')
          end in
        match span_digits s'' with
        | ((_ :: _) as d, []) =>
            Some (if neg then (- digits_val d)%Z else digits_val d)
        | _ => None
        end
      else None
  end.

Definition parse_fraction (s : jstring) : option (jstring * jstring) :=
  match s with
  | 46%N :: s' =>
      match span_digits s' with
      | ((_ :: _) as d, r) => Some (d, r)
      | _ => None
      end
  | _ => Some ([], s)
  end.

Definition parse_number (s : jstring) : option (Z * Z) :=
  let '(neg, s1) := match s with 45%N :: t => (true, t) | _ => (false, s) end in
  match span_digits s1 with
  | ([], _) => None
  | (48%N :: _ :: _, _) => None
  | (i, s2) =>
      '(f, s3) ← parse_fraction s2;
      x ← parse_exponent s3;
      let m := digits_val (i ++ f) in
      Some (if neg then (- m)%Z else m, (x - Z.of_nat (length f))%Z)
  end.

Definition is_num_char (c : N) : bool :=
  is_digit c || existsb (N.eqb c) [43; 45; 46; 101; 69]%N.

Inductive lex_mode :=
| LStart
| LStr (acc : jstring)
| LEsc (acc : jstring)
| LHex (acc : jstring) (left : nat) (v : N)
| LNum (acc : jstring)
| LWord (rest : jstring) (v : jsval).

Definition is_json_ws (c : N) : bool :=
  existsb (N.eqb c) [32; 9; 10; 13]%N.

(** One code unit read between tokens. *)
Definition lex_start (c : N) (toks : list token)
    : option (lex_mode * list token) :=
  if is_json_ws c then Some (LStart, toks)
  else if N.eqb c 123 then Some (LStart, TLBrace :: toks)
  else if N.eqb c 125 then Some (LStart, TRBrace :: toks)
  else if N.eqb c 91 then Some (LStart, TLBrack :: toks)
  else if N.eqb c 93 then Some (LStart, TRBrack :: toks)
  else if N.eqb c 58 then Some (LStart, TColon :: toks)
  else if N.eqb c 44 then Some (LStart, TComma :: toks)
  else if N.eqb c 34 then Some (LStr [], toks)
  else if N.eqb c 116 then Some (LWord (js "rue") (JBool true), toks)
  else if N.eqb c 102 then Some (LWord (js "alse") (JBool false), toks)
  else if N.eqb c 110 then Some (LWord (js "ull") JNull, toks)
  else if is_digit c || N.eqb c 45 then Some (LNum [c], toks)
  else None.

Definition escape_val (c : N) : option N :=
  if N.eqb c 34 then Some 34%N
  else if N.eqb c 92 then Some 92%N
  else if N.eqb c 47 then Some 47%N
  else if N.eqb c 98 then Some 8%N
  else if N.eqb c 102 then Some 12%N
  else if N.eqb c 110 then Some 10%N
  else if N.eqb c 114 then Some 13%N
  else if N.eqb c 116 then Some 9%N
  else None.

Definition lex_step (c : N) (m : lex_mode) (toks : list token)
    : option (lex_mode * list token) :=
  match m with
  | LStart => lex_start c toks
  | LStr acc =>
      if N.eqb c 34 then Some (LStart, TStr (rev acc) :: toks)
      else if N.eqb c 92 then Some (LEsc acc, toks)
      else if (c <? 32)%N then None
      else Some (LStr (c :: acc), toks)
  | LEsc acc =>
      if N.eqb c 117 then Some (LHex acc 4 0%N, toks)
      else e ← escape_val c; Some (LStr (e :: acc), toks)
  | LHex acc k v =>
      h ← hex_val c;
      let v' := (16 * v + h)%N in
      match k with
      | 1 => Some (LStr (v' :: acc), toks)
      | _ => Some (LHex acc (pred k) v', toks)
      end
  | LNum acc =>
      if is_num_char c then Some (LNum (c :: acc), toks)
      else
        '(n, e) ← parse_number (rev acc);
        lex_start c (TNum n e :: toks)
  | LWord rest v =>
      match rest with
      | [r] => if N.eqb c r then Some (LStart, TLit v :: toks) else None
      | r :: rest' => if N.eqb c r then Some (LWord rest' v, toks) else None
      | [] => None
      end
  end.

Fixpoint lex_from (s : jstring) (m : lex_mode) (toks : list token)
    : option (list token) :=
  match s with
  | c :: s' => '(m', toks') ← lex_step c m toks; lex_from s' m' toks'
  | [] =>
      match m with
      | LStart => Some (rev toks)
      | LNum acc => '(n, e) ← parse_number (rev acc); Some (rev (TNum n e :: toks))
      | _ => None
      end
  end.

Definition lex (s : jstring) : option (list token) := lex_from s LStart [].

(** *** Parser: a pushdown machine over the tokens *)

Inductive frame :=
| FArr (rev_elems : list jsval)
| FObj (members : list (jstring * jsval))
| FObjKey (members : list (jstring * jsval)) (key : jstring).

Inductive pstate :=
| PValue      (* a value must follow *)
| PArrStart   (* after an opening bracket: a value or the closing bracket *)
| PObjStart   (* after an opening brace: a key or the closing brace *)
| PKey        (* after a comma inside an object *)
| PColon      (* after a key *)
| PAfter      (* after a value inside a container *)
| PDone (v : jsval).

(** A value [v] has just been completed below the frames [st]. *)
Definition complete (v : jsval) (st : list frame)
    : option (pstate * list frame) :=
  match st with
  | [] => Some (PDone v, [])
  | FArr els :: st' => Some (PAfter, FArr (v :: els) :: st')
  | FObjKey ms k :: st' => Some (PAfter, FObj (obj_set k v ms) :: st')
  | FObj _ :: _ => None
  end.

Definition open_value (t : token) (st : list frame)
    : option (pstate * list frame) :=
  match t with
  | TStr s => complete (JStr s) st
  | TNum m e => complete (JNum m e) st
  | TLit v => complete v st
  | TLBrack => Some (PArrStart, FArr [] :: st)
  | TLBrace => Some (PObjStart, FObj [] :: st)
  | _ => None
  end.

Definition parse_step (t : token) (p : pstate) (st : list frame)
    : option (pstate * list frame) :=
  match p, t, st with
  | PArrStart, TRBrack, FArr _ :: st' => complete (JArr []) st'
  | (PValue | PArrStart), _, _ => open_value t st
  | PObjStart, TRBrace, FObj ms :: st' => complete (JObj ms) st'
  | (PObjStart | PKey), TStr k, FObj ms :: st' =>
      Some (PColon, FObjKey ms k :: st')
  | PColon, TColon, _ => Some (PValue, st)
  | PAfter, TComma, FArr _ :: _ => Some (PValue, st)
  | PAfter, TComma, FObj _ :: _ => Some (PKey, st)
  | PAfter, TRBrack, FArr els :: st' => complete (JArr (rev els)) st'
  | PAfter, TRBrace, FObj ms :: st' => complete (JObj ms) st'
  | _, _, _ => None
  end.

Fixpoint parse_from (ts : list token) (p : pstate) (st : list frame)
    : option jsval :=
  match ts with
  | t :: ts' => '(p', st') ← parse_step t p st; parse_from ts' p' st'
  | [] => match p with PDone v => Some v | _ => None end
  end.

(** [JSON.parse(s)]; [None] stands for the SyntaxError it throws. *)
Definition JSON_parse (s : jstring) : option jsval :=
  ts ← lex s; parse_from ts PValue [].

End Json.

Import Json.

(** ** Handlers as programs over an explicit world

    An [async] function of the source is a [prog]: given the world (what every
    external service would answer) it yields the calls it made, in order, and
    either a value or the exception it threw. *)

Module Eff.

Inductive outcome (A : Type) :=
| Ret (a : A)
| Throw (msg : jstring).
Arguments Ret {A} a.
Arguments Throw {A} msg.

Section Prog.
Context {W E : Type}.

Definition prog (A : Type) : Type := W -> list E * outcome A.

Definition ret {A} (a : A) : prog A := fun _ => ([], Ret a).

Definition throw {A} (msg : jstring) : prog A := fun _ => ([], Throw msg).

Definition bind {A B} (m : prog A) (k : A -> prog B) : prog B :=
  fun w =>
    match m w with
    | (t, Ret a) => let '(t', r) := k a w in (t ++ t', r)
    | (t, Throw e) => (t, Throw e)
    end.

(** [try { m } catch (e) { h e }]. *)
Definition try_catch {A} (m : prog A) (h : jstring -> prog A) : prog A :=
  fun w =>
    match m w with
    | (t, Ret a) => (t, Ret a)
    | (t, Throw e) => let '(t', r) := h e w in (t ++ t', r)
    end.

(** Performs the external call [e] and reads its answer off the world. *)
Definition call {A} (e : E) (answer : W -> A) : prog A :=
  fun w => ([e], Ret (answer w)).

Definition ask {A} (f : W -> A) : prog A := fun w => ([], Ret (f w)).

(** A value that is [None] when evaluating it throws. *)
Definition of_option {A} (msg : string) (o : option A) : prog A :=
  match o with
  | Some a => ret a
  | None => throw (js msg)
  end.
End Prog.

Arguments bind : simpl never.
Arguments try_catch : simpl never.
Arguments ret : simpl never.
Arguments throw : simpl never.
Arguments call : simpl never.
Arguments ask : simpl never.
Arguments of_option : simpl never.

Notation "'let*' x ':=' m 'in' k" := (bind m (fun x => k))
  (at level 10, x name, m at level 100, k at level 200).

End Eff.

Import Eff.

(** ** HTTP and the credential table as the publish handlers see them *)

Module Net.

Inductive payload :=
| NoBody
| JsonBody (v : jsval)       (* [JSON.stringify(v)] *)
| BytesBody (b : jstring).

Record request := {
  url : jstring;
  method : jstring;
  bearer : option jstring;   (* [Authorization: Bearer ...] *)
  body : payload
}.

Record response := { status : Z; text : jstring }.

(** [response.ok] *)
Definition ok (r : response) : bool :=
  (200 <=? status r)%Z && (status r <=? 299)%Z.

(** [fetch] either rejects (network failure) or resolves to a response. *)
Inductive fetched := Rejected (msg : jstring) | Resolved (r : response).

(** A row of [social_credentials] as [select('*')] returns it.  [expires_at]
    is in milliseconds since the epoch; [None] is SQL NULL. *)
Record credentials := {
  access_token : jstring;
  expires_at : option Z;
  account_id : option jstring;
  account_name : option jstring
}.

Record world := {
  env : string -> option jstring;                     (* [process.env] *)
  now : Z;                                            (* [Date.now()] *)
  (** [.from('social_credentials').select('*').eq(..).eq(..).single()];
      [None] when the query reports an error or no row. *)
  select_single : jstring -> jstring -> option credentials;
  fetch_answer : request -> fetched
}.

Inductive event :=
| DbSelect (user_id platform : jstring)
| Fetch (r : request).

Definition fetch (r : request) : @prog world event response :=
  let* a := call (Fetch r) (fun w => fetch_answer w r) in
  match a with
  | Rejected msg => throw msg
  | Resolved resp => ret resp
  end.

(** [await response.json()] *)
Definition json (r : response) : @prog world event jsval :=
  of_option "Unexpected token in JSON" (JSON_parse (text r)).

Definition single (user_id platform : jstring)
    : @prog world event (option credentials) :=
  call (DbSelect user_id platform) (fun w => select_single w user_id platform).

(** What the handler sends back: [res.status(s).json(v)]. *)
Record reply := { code : Z; sent : jsval }.

(** Body of a request as the handlers destructure it. *)
Record post_body := {
  userId : option jstring;
  text_ : option jstring;
  imageUrl : option jstring
}.

Record incoming := { verb : string; fields : post_body }.

(** A string interpolated into a template literal. *)
Definition interp (o : option jstring) : jstring := default (js "null") o.

Definition num (n : nat) : jsval := JNum (Z.of_nat n) 0.

Definition obj (l : list (string * jsval)) : jsval :=
  JObj (map (fun '(k, v) => (js k, v)) l).

(** A reply that reports an error to the caller: a 4xx or 5xx status and
    an [error] message. *)
Definition is_error (r : reply) : Prop :=
  (400 <= code r)%Z /\ exists msg, prop (sent r) "error" = Some (JStr msg).

End Net.

Import Net.

(** [createClient(url, key)] of the database SDK refuses a missing URL or
    key. *)
Definition createClient (supabaseUrl supabaseKey : option jstring)
    : @prog world event unit :=
  if negb (truthy supabaseUrl) then throw (js "supabaseUrl is required.")
  else if negb (truthy supabaseKey) then throw (js "supabaseKey is required.")
  else ret tt.

(** ** Publishing to X (Twitter) *)

Module Twitter.

Definition TWITTER_CHAR_LIMIT : nat := 280.
Definition URL_LENGTH : nat := 23.
Definition availableChars : nat := TWITTER_CHAR_LIMIT - URL_LENGTH - 1.

(** The text part of the tweet when an image link is appended: cut to
    [availableChars - 3] code units plus an ellipsis when it is too long. *)
Definition truncated (text : jstring) : jstring :=
  if availableChars <? length text
  then substring0 (availableChars - 3) text ++ js "..."
  else text.

(** The final value of the variable [tweetText]. *)
Definition tweetText (text : jstring) (imageUrl : option jstring) : jstring :=
  if truthy imageUrl
  then truncated text ++ js " " ++ default [] imageUrl
  else text.

Definition tweets_url : string := "https://api.twitter.com/2/tweets".

(** The content-creation call: [POST /2/tweets] with the tweet text. *)
Definition tweet_call (tok text : jstring) : request :=
  {| url := js tweets_url; method := js "POST"; bearer := Some tok;
     body := JsonBody (obj [("text", JStr text)]) |}.

(** From "Prepare Tweet" to the end of the [try] block; the same text in the
    serverless handler and in the Express route (the latter also logs the
    rate-limit headers). *)
Definition post_tweet (c : credentials) (text : jstring)
    (imageUrl : option jstring) : @prog world event reply :=
  let* response := fetch (tweet_call (access_token c) (tweetText text imageUrl)) in
  let* data := json response in
  if negb (ok response) then
    if (status response =? 403)%Z then
      ret {| code := 403;
             sent := obj [("error", JStr (js "Permission Denied. Please disconnect & reconnect X (Twitter) to update permissions."));
                          ("details", data)] |}
    else
      let* detail := of_option "Cannot read properties of null" (prop data "detail") in
      ret {| code := status response;
             sent := obj [("error", if truthy_val detail then detail
                                    else JStr (js "Failed to post tweet"));
                          ("details", data)] |}
  else
    (* console.log('[Twitter] Success:', data.data?.id) *)
    let* _ := of_option "Cannot read properties of null" (prop data "data") in
    ret {| code := 200; sent := obj [("success", JBool true); ("data", data)] |}.

Definition not_connected : reply :=
  {| code := 404;
     sent := obj [("error", JStr (js "Twitter account not connected. Please connect X in settings."))] |}.

Definition missing_fields : reply :=
  {| code := 400;
     sent := obj [("error", JStr (js "Missing required fields: userId and text"))] |}.

Definition server_error (msg : jstring) : @prog world event reply :=
  ret {| code := 500;
         sent := obj [("error", JStr (js "Internal Server Error"));
                      ("details", JStr msg)] |}.

(** The serverless handler (api/twitter/post). *)
Definition handler (req : incoming) : @prog world event reply :=
  if negb (String.eqb (verb req) "POST") then
    ret {| code := 405; sent := obj [("error", JStr (js "Method not allowed"))] |}
  else
    try_catch
      (let b := fields req in
       if negb (truthy (userId b)) || negb (truthy (text_ b)) then
         ret missing_fields
       else
         let* supabaseUrl :=
           ask (fun w => or_else (env w "SUPABASE_URL") (env w "VITE_SUPABASE_URL")) in
         let* supabaseKey :=
           ask (fun w => or_else (env w "SUPABASE_SERVICE_ROLE_KEY")
                           (or_else (env w "SUPABASE_KEY")
                                    (env w "VITE_SUPABASE_ANON_KEY"))) in
         if negb (truthy supabaseUrl) || negb (truthy supabaseKey) then
           throw (js "Server configuration error: Missing Supabase credentials")
         else
           let* _ := createClient supabaseUrl supabaseKey in
           let* credentials := single (default [] (userId b)) (js "x") in
           match credentials with
           | None => ret not_connected
           | Some c => post_tweet c (default [] (text_ b)) (imageUrl b)
           end)
      server_error.

(** The Express route [POST /api/twitter/post]. *)
Definition server_post (b : post_body) : @prog world event reply :=
  try_catch
    (if negb (truthy (userId b)) || negb (truthy (text_ b)) then
       ret missing_fields
     else
       let* supabaseUrl := ask (fun w => env w "SUPABASE_URL") in
       let* supabaseKey := ask (fun w => env w "SUPABASE_KEY") in
       let* _ := createClient supabaseUrl supabaseKey in
       let* credentials := single (default [] (userId b)) (js "x") in
       match credentials with
       | None => ret not_connected
       | Some c => post_tweet c (default [] (text_ b)) (imageUrl b)
       end)
    server_error.

End Twitter.

(** ** Publishing to LinkedIn *)

Module LinkedIn.

Definition register_url : string :=
  "https://api.linkedin.com/v2/assets?action=registerUpload".
Definition ugcPosts_url : string := "https://api.linkedin.com/v2/ugcPosts".
Definition upload_key : string :=
  "com.linkedin.digitalmedia.uploading.MediaUploadHttpRequest".

Definition person (id : option jstring) : jsval :=
  JStr (js "urn:li:person:" ++ interp id).

Definition registerUploadRequest (owner : option jstring) : jsval :=
  obj [("registerUploadRequest",
        obj [("recipes", JArr [JStr (js "urn:li:digitalmediaRecipe:feedshare-image")]);
             ("owner", person owner);
             ("serviceRelationships",
              JArr [obj [("relationshipType", JStr (js "OWNER"));
                         ("identifier", JStr (js "urn:li:userGeneratedContent"))]])])].

(** [new Date(credentials.expires_at) < new Date()]: the stored timestamp in
    milliseconds, SQL NULL being read as the epoch. *)
Definition expired (c : credentials) (now : Z) : bool :=
  (default 0 (expires_at c) <? now)%Z.

Definition missing_fields : reply :=
  {| code := 400;
     sent := obj [("error", JStr (js "Missing required fields: userId and text are required"))] |}.

Definition too_long (text : jstring) : reply :=
  {| code := 400;
     sent := obj [("error", JStr (js "Text exceeds LinkedIn limit of 3000 characters"));
                  ("currentLength", num (length text))] |}.

Definition not_connected : reply :=
  {| code := 404;
     sent := obj [("error", JStr (js "LinkedIn account not connected"));
                  ("message", JStr (js "Please connect your LinkedIn account first"))] |}.

Definition token_expired : reply :=
  {| code := 401;
     sent := obj [("error", JStr (js "LinkedIn token expired"));
                  ("message", JStr (js "Please reconnect your LinkedIn account"));
                  ("requiresReauth", JBool true)] |}.

Definition post_failed (msg : jstring) : @prog world event reply :=
  ret {| code := 500;
         sent := obj [("error", JStr (js "Failed to post to LinkedIn"));
                      ("details", JStr msg)] |}.

(** [registerData.value.uploadMechanism[upload_key].uploadUrl] and
    [registerData.value.asset]. *)
Definition upload_target (registerData : jsval) : option (jsval * jsval) :=
  value ← prop registerData "value";
  mech ← prop value "uploadMechanism";
  req ← prop mech upload_key;
  uploadUrl ← prop req "uploadUrl";
  asset ← prop value "asset";
  Some (uploadUrl, asset).

(** [fetch(u, ...)] where [u] came out of a JSON document: anything but a
    string cannot be parsed as a URL. *)
Definition fetch_at (u : jsval) (m : string) (tok : jstring) (b : payload)
    : @prog world event response :=
  match u with
  | JStr s => fetch {| url := s; method := js m; bearer := Some tok; body := b |}
  | _ => throw (js "Failed to parse URL")
  end.

Definition get (u : jstring) : @prog world event response :=
  fetch {| url := u; method := js "GET"; bearer := None; body := NoBody |}.

(** The body of the content-creation call.  A [media] that is [undefined]
    is dropped by [JSON.stringify], as if the key were absent. *)
Definition postPayload (author : option jstring) (text : jstring)
    (category : string) (media : jsval) : jsval :=
  obj [("author", person author);
       ("lifecycleState", JStr (js "PUBLISHED"));
       ("specificContent",
        obj [("com.linkedin.ugc.ShareContent",
              obj [("shareCommentary", obj [("text", JStr text)]);
                   ("shareMediaCategory", JStr (js category));
                   ("media", media)])]);
       ("visibility",
        obj [("com.linkedin.ugc.MemberNetworkVisibility", JStr (js "PUBLIC"))])].

Definition media_of (asset : jsval) (description title : string) : jsval :=
  JArr [obj [("status", JStr (js "READY"));
             ("description", obj [("text", JStr (js description))]);
             ("media", asset);
             ("title", obj [("text", JStr (js title))])]].

(** The content-creation call: [POST /v2/ugcPosts]. *)
Definition post_call (tok : jstring) (payload : jsval) : request :=
  {| url := js ugcPosts_url; method := js "POST";
     bearer := Some tok; body := JsonBody payload |}.

(** "Post to LinkedIn" and what follows, identical in both handlers. *)
Definition create_post (tok : jstring) (payload : jsval)
    : @prog world event reply :=
  let* postResponse := fetch (post_call tok payload) in
  if negb (ok postResponse) then
    let errorData := text postResponse in
    let fallback := JStr (js "Failed to post to LinkedIn") in
    let errorMessage :=
      match JSON_parse errorData ≫= (fun v => prop v "message") with
      | Some m => if truthy_val m then m else fallback
      | None => fallback
      end in
    ret {| code := status postResponse;
           sent := obj [("error", errorMessage); ("details", JStr errorData)] |}
  else
    let* responseData := json postResponse in
    let* id := of_option "Cannot read properties of null" (prop responseData "id") in
    ret {| code := 200;
           sent := obj [("success", JBool true);
                        ("message", JStr (js "Successfully posted to LinkedIn"));
                        ("postId", id); ("data", responseData)] |}.

Definition register_call (tok : jstring) (owner : option jstring) : request :=
  {| url := js register_url; method := js "POST"; bearer := Some tok;
     body := JsonBody (registerUploadRequest owner) |}.

(** *** The serverless handler (api/linkedin/post.ts) *)

(** The [try] block of the image upload: yields the registered asset. *)
Definition upload_image (tok : jstring) (profileId : option jstring)
    (imageUrl : jstring) : @prog world event jsval :=
  let* registerResponse := fetch (register_call tok profileId) in
  if negb (ok registerResponse) then throw (js "Failed to register image upload")
  else
    let* registerData := json registerResponse in
    let* target := of_option "Cannot read properties of undefined"
                     (upload_target registerData) in
    let '(uploadUrl, asset) := target in
    let* imageResponse := get imageUrl in
    if negb (ok imageResponse) then throw (js "Failed to fetch image from URL")
    else
      let* uploadResponse :=
        fetch_at uploadUrl "POST" tok (BytesBody (text imageResponse)) in
      if negb (ok uploadResponse) then throw (js "Failed to upload image")
      else ret asset.

(** The image stage with its [catch]: the share category and media the post
    will carry. *)
Definition image_stage (tok : jstring) (profileId : option jstring)
    (imageUrl : option jstring) : @prog world event (string * jsval) :=
  if truthy imageUrl then
    try_catch
      (let* asset := upload_image tok profileId (default [] imageUrl) in
       ret ("IMAGE", media_of asset "Image" "Image"))
      (fun _ => ret ("NONE", JUndefined))
  else ret ("NONE", JUndefined).

Definition handler (req : incoming) : @prog world event reply :=
  if negb (String.eqb (verb req) "POST") then
    ret {| code := 405; sent := obj [("error", JStr (js "Method not allowed"))] |}
  else
    try_catch
      (let b := fields req in
       if negb (truthy (userId b)) || negb (truthy (text_ b)) then
         ret missing_fields
       else
         let text := default [] (text_ b) in
         if 3000 <? length text then ret (too_long text)
         else
           let* supabaseUrl := ask (fun w => env w "VITE_SUPABASE_URL") in
           let* supabaseKey := ask (fun w => env w "SUPABASE_SERVICE_ROLE_KEY") in
           let* _ := createClient supabaseUrl supabaseKey in
           let* credentials := single (default [] (userId b)) (js "linkedin") in
           match credentials with
           | None => ret not_connected
           | Some c =>
               let* now := ask now in
               if expired c now then ret token_expired
               else
                 let profileId := account_id c in
                 if negb (truthy profileId) then
                   ret {| code := 500;
                          sent := obj [("error", JStr (js "LinkedIn profile ID not found. Please reconnect account."))] |}
                 else
                   let* share := image_stage (access_token c) profileId (imageUrl b) in
                   create_post (access_token c)
                     (postPayload profileId text (fst share) (snd share))
           end)
      post_failed.

(** *** The Express route [POST /api/linkedin/post] (server/linkedin-api.js) *)

(** The [try] block of "Step 1: Upload Image": yields [mediaAsset].  The
    downloaded image is not checked for [ok]. *)
Definition server_upload_image (tok : jstring) (accountId : option jstring)
    (imageUrl : jstring) : @prog world event jsval :=
  let* registerResponse := fetch (register_call tok accountId) in
  if negb (ok registerResponse) then throw (js "Failed to register upload")
  else
    let* registerData := json registerResponse in
    let* target := of_option "Cannot read properties of undefined"
                     (upload_target registerData) in
    let '(uploadUrl, mediaAsset) := target in
    let* imageResponse := get imageUrl in
    let* uploadResponse :=
      fetch_at uploadUrl "PUT" tok (BytesBody (text imageResponse)) in
    if negb (ok uploadResponse) then throw (js "Failed to upload image binary")
    else ret mediaAsset.

(** The [catch] of the image upload starts with
    [text = `${text}\n\nImage: ${imageUrl}`], and [text] is bound by
    [const { userId, text, imageUrl } = req.body]: the assignment throws a
    TypeError out of the [catch] block, before [mediaAsset = null]. *)
Definition server_image_fallback (e : jstring) : @prog world event jsval :=
  throw (js "Assignment to constant variable.").

Definition server_image_stage (tok : jstring) (accountId : option jstring)
    (imageUrl : option jstring) : @prog world event jsval :=
  if truthy imageUrl then
    try_catch (server_upload_image tok accountId (default [] imageUrl))
              server_image_fallback
  else ret JNull.

Definition server_post (b : post_body) : @prog world event reply :=
  try_catch
    (if negb (truthy (userId b)) || negb (truthy (text_ b)) then
       ret missing_fields
     else
       let text := default [] (text_ b) in
       if 3000 <? length text then ret (too_long text)
       else
         let* supabaseUrl := ask (fun w => env w "SUPABASE_URL") in
         let* supabaseKey := ask (fun w => env w "SUPABASE_KEY") in
         let* _ := createClient supabaseUrl supabaseKey in
         let* credentials := single (default [] (userId b)) (js "linkedin") in
         match credentials with
         | None => ret not_connected
         | Some c =>
             let* now := ask now in
             if expired c now then ret token_expired
             else
               let accountId := account_id c in
               let* mediaAsset := server_image_stage (access_token c) accountId (imageUrl b) in
               create_post (access_token c)
                 (postPayload accountId text
                    (if truthy_val mediaAsset then "IMAGE" else "NONE")
                    (if truthy_val mediaAsset
                     then media_of mediaAsset "Shared via ContentWell" "Shared Image"
                     else JUndefined))
         end)
    post_failed.

End LinkedIn.

(** *** Sample requests and worlds for the publish handlers *)

Module Samples.

Definition stale_credentials : credentials :=
  {| access_token := js "stale-token"; expires_at := Some 1600000000000%Z;
     account_id := Some (js "member-1"); account_name := Some (js "Ann") |}.

Definition valid_credentials : credentials :=
  {| access_token := js "token"; expires_at := Some 1800000000000%Z;
     account_id := Some (js "member-1"); account_name := Some (js "Ann") |}.

(** Every stored credential expired long ago; the provider answers 401 to
    whatever it is sent. *)
Definition expired_world : world :=
  {| env := fun _ => Some (js "configured");
     now := 1700000000000%Z;
     select_single := fun _ _ => Some stale_credentials;
     fetch_answer := fun _ =>
       Resolved {| status := 401;
                   text := jsq "{'title':'Unauthorized','detail':'Unauthorized','status':401}" |} |}.

(** The provider refuses the upload registration and accepts posts. *)
Definition register_refused_world : world :=
  {| env := fun _ => Some (js "configured");
     now := 1700000000000%Z;
     select_single := fun _ _ => Some valid_credentials;
     fetch_answer := fun r =>
       if bool_decide (url r = js LinkedIn.register_url)
       then Resolved {| status := 500; text := js "Internal Server Error" |}
       else Resolved {| status := 201; text := jsq "{'id':'urn:li:share:1'}" |} |}.

Definition hello : post_body :=
  {| userId := Some (js "u1"); text_ := Some (js "hello"); imageUrl := None |}.

Definition with_image : post_body :=
  {| userId := Some (js "u1"); text_ := Some (js "hello");
     imageUrl := Some (js "https://cdn.example.com/a.png") |}.

Definition too_long_body : post_body :=
  {| userId := Some (js "u1"); text_ := Some (repeat 120%N 3001);
     imageUrl := None |}.

Definition POST (b : post_body) : incoming := {| verb := "POST"; fields := b |}.

(** The public URL of a stored image, 91 code units long. *)
Definition long_image_url : jstring :=
  js "https://project.supabase.co/storage/v1/object/public/generated_images/campaign_1/item_0.png".

End Samples.

(** ** The credential table and the connect flows that write it *)

Module Credentials.

(** A row of [public.social_credentials] (the generated [id] is left out).
    Timestamps are milliseconds since the epoch. *)
Record row := {
  user_id : jstring;
  platform : jstring;
  access_token : jstring;
  refresh_token : option jstring;
  token_type : option jstring;
  expires_at : option Z;
  scopes : option (list jstring);
  account_id : option jstring;
  account_name : option jstring;
  metadata : option jsval;
  created_at : Z;
  updated_at : Z
}.

(** The object handed to [.upsert(...)].  A column is [None] when the
    object does not carry it ([undefined] is dropped on the wire); a
    nullable column that is carried holds [Some None] for [null]. *)
Record payload := {
  p_user_id : option jstring;
  p_platform : option jstring;
  p_access_token : option jstring;
  p_refresh_token : option (option jstring);
  p_token_type : option (option jstring);
  p_expires_at : option (option Z);
  p_scopes : option (option (list jstring));
  p_account_id : option (option jstring);
  p_account_name : option (option jstring);
  p_metadata : option (option jsval);
  p_updated_at : option Z
}.

Record db := { users : list jstring; table : list row }.

(** Postgres error codes the flows can meet. *)
Inductive db_error :=
| not_null_violation      (* 23502 *)
| foreign_key_violation   (* 23503 *)
| check_violation         (* 23514 *)
| invalid_input.          (* 22P02: a value that is not of the column type *)

Definition allowed_platforms : list jstring :=
  map js ["facebook"; "instagram"; "linkedin"; "x"; "google_drive"].

Definition key (r : row) : jstring * jstring := (user_id r, platform r).

Definition has_key (k : jstring * jstring) (r : row) : bool :=
  bool_decide (key r = k).

(** The row an INSERT of the payload proposes: carried columns, column
    defaults elsewhere. *)
Definition proposed (now : Z) (u pf tok : jstring) (p : payload) : row :=
  {| user_id := u; platform := pf; access_token := tok;
     refresh_token := default None (p_refresh_token p);
     token_type := default (Some (js "bearer")) (p_token_type p);
     expires_at := default None (p_expires_at p);
     scopes := default None (p_scopes p);
     account_id := default None (p_account_id p);
     account_name := default None (p_account_name p);
     metadata := default None (p_metadata p);
     created_at := now;
     updated_at := default now (p_updated_at p) |}.

(** [DO UPDATE SET col = EXCLUDED.col] for the carried columns, followed by
    the BEFORE UPDATE trigger that stamps [updated_at]. *)
Definition merged (now : Z) (tok : jstring) (p : payload) (old : row) : row :=
  {| user_id := user_id old; platform := platform old; access_token := tok;
     refresh_token := default (refresh_token old) (p_refresh_token p);
     token_type := default (token_type old) (p_token_type p);
     expires_at := default (expires_at old) (p_expires_at p);
     scopes := default (scopes old) (p_scopes p);
     account_id := default (account_id old) (p_account_id p);
     account_name := default (account_name old) (p_account_name p);
     metadata := default (metadata old) (p_metadata p);
     created_at := created_at old;
     updated_at := now |}.

Fixpoint update_where (k : jstring * jstring) (f : row -> row)
    (t : list row) : list row :=
  match t with
  | [] => []
  | r :: t' => (if has_key k r then f r else r) :: update_where k f t'
  end.

(** [.upsert(p, { onConflict: 'user_id,platform' })] at database time
    [now]: the constraints of the proposed row are checked first, then the
    row with the same key is updated in place, or the proposed row is
    inserted. *)
Definition upsert (now : Z) (p : payload) (d : db) : db_error + db :=
  match p_user_id p, p_platform p, p_access_token p with
  | Some u, Some pf, Some tok =>
      if negb (existsb (jeq pf) allowed_platforms) then inl check_violation
      else if existsb (has_key (u, pf)) (table d) then
        inr {| users := users d;
               table := update_where (u, pf) (merged now tok p) (table d) |}
      else if negb (existsb (jeq u) (users d)) then inl foreign_key_violation
      else inr {| users := users d;
                  table := table d ++ [proposed now u pf tok p] |}
  | _, _, _ => inl not_null_violation
  end.

(** [.delete().eq('user_id', u).eq('platform', pf)] *)
Definition delete (u pf : jstring) (d : db) : db :=
  {| users := users d;
     table := filter (fun r => key r <> (u, pf)) (table d) |}.

(** The invariant: at most one row per (user, platform). *)
Definition unique (d : db) : Prop := NoDup (map key (table d)).

Definition rows_of (k : jstring * jstring) (d : db) : list row :=
  filter (fun r => key r = k) (table d).

(** Every column the write carries is what the row now holds. *)
Definition carried {A} (sent : option A) (stored : A) : Prop :=
  match sent with Some v => stored = v | None => True end.

Definition reflects (p : payload) (r : row) : Prop :=
  carried (p_user_id p) (user_id r) /\
  carried (p_platform p) (platform r) /\
  carried (p_access_token p) (access_token r) /\
  carried (p_refresh_token p) (refresh_token r) /\
  carried (p_token_type p) (token_type r) /\
  carried (p_expires_at p) (expires_at r) /\
  carried (p_scopes p) (scopes r) /\
  carried (p_account_id p) (account_id r) /\
  carried (p_account_name p) (account_name r) /\
  carried (p_metadata p) (metadata r).

(** *** The connect flows *)

Record SocialPlatform := {
  id : string;
  dbPlatform : string;
  provider : string;
  platform_scopes : string
}.

Definition platforms : list SocialPlatform :=
  [ {| id := "gdrive"; dbPlatform := "google_drive"; provider := "google";
       platform_scopes := "https://www.googleapis.com/auth/drive.file" |};
    {| id := "facebook"; dbPlatform := "facebook"; provider := "facebook";
       platform_scopes := "pages_show_list,pages_manage_posts,pages_read_engagement" |};
    {| id := "instagram"; dbPlatform := "instagram"; provider := "facebook";
       platform_scopes := "instagram_basic,instagram_content_publish,pages_show_list" |};
    {| id := "twitter"; dbPlatform := "x"; provider := "twitter";
       platform_scopes := "tweet.read,tweet.write,users.read" |};
    {| id := "linkedin"; dbPlatform := "linkedin"; provider := "linkedin";
       platform_scopes := "w_member_social,r_liteprofile" |} ].

(** [new Date(Date.now() + expires_in * 1000)] when [expires_in] is truthy,
    else [null]. *)
Definition expiry (now : Z) (expires_in : option Z) : option Z :=
  match expires_in with
  | Some s => if (s =? 0)%Z then None else Some (now + s * 1000)%Z
  | None => None
  end.

(** What the flows report. *)
Inductive report :=
| Connected
| Aborted (why : string)
| DatabaseError (e : db_error).

(** The upsert and the flows' reaction to its result: on a database error
    nothing is written and nothing is retried.  [db_now] is the database
    clock. *)
Definition store (db_now : Z) (p : payload) (d : db) : report * db :=
  match upsert db_now p d with
  | inl e => (DatabaseError e, d)
  | inr d' => (Connected, d')
  end.

(** The OAuth session the callback relay hands over.  [app_provider] is
    [session.user.app_metadata.provider]: [None] when reading it throws,
    [Some None] when it is [undefined]. *)
Record session := {
  provider_token : option jstring;
  provider_refresh_token : option jstring;
  expires_in : option Z;
  app_provider : option (option jstring)
}.

(** [platforms.find(p => p.id === intended) ||
     platforms.find(p => p.provider === prov)] *)
Definition find_platform (intended prov : option jstring)
    : option SocialPlatform :=
  match find (fun p => bool_decide (Some (js (id p)) = intended)) platforms with
  | Some p => Some p
  | None => find (fun p => bool_decide (Some (js (provider p)) = prov)) platforms
  end.

(** [handleAuthCallback] of the connections screen: [user] is the signed-in
    user's id, [intended] the [connecting_platform] entry of localStorage,
    [now] the browser clock. *)
Definition handleAuthCallback (user : option jstring)
    (intended : option jstring) (now db_now : Z) (s : session) (d : db)
    : report * db :=
  match user with
  | None => (Aborted "No active user session found", d)
  | Some uid =>
      if negb (truthy (provider_token s)) then (Aborted "no provider_token", d)
      else
        match app_provider s with
        | None => (Aborted "Cannot read properties of undefined", d)
        | Some prov =>
            match find_platform intended prov with
            | None => (Aborted "Could not identify platform", d)
            | Some cfg =>
                store db_now
                  {| p_user_id := Some uid;
                     p_platform := Some (js (dbPlatform cfg));
                     p_access_token := provider_token s;
                     p_refresh_token :=
                       Some (if truthy (provider_refresh_token s)
                             then provider_refresh_token s else None);
                     p_token_type := Some (Some (js "bearer"));
                     p_expires_at := Some (expiry now (expires_in s));
                     p_scopes := Some (Some (split 44 (js (platform_scopes cfg))));
                     p_account_id := None; p_account_name := None;
                     p_metadata := None;
                     p_updated_at := Some now |}
                  d
            end
        end
  end.

(** The token response of the PKCE exchange. *)
Record twitter_data := {
  td_access_token : option jstring;
  td_refresh_token : option jstring;
  td_token_type : option jstring;
  td_expires_in : option Z;
  td_scope : option jstring
}.

Definition handleTwitterCallback (user : option jstring) (now db_now : Z)
    (data : twitter_data) (d : db) : report * db :=
  match user with
  | None => (Aborted "No active user session. Please log in again.", d)
  | Some uid =>
      store db_now
        {| p_user_id := Some uid;
           p_platform := Some (js "x");
           p_access_token := td_access_token data;
           p_refresh_token :=
             Some (if truthy (td_refresh_token data)
                   then td_refresh_token data else None);
           p_token_type :=
             Some (if truthy (td_token_type data)
                   then td_token_type data else Some (js "bearer"));
           p_expires_at := Some (expiry now (td_expires_in data));
           p_scopes :=
             Some (Some (if truthy (td_scope data)
                         then split 32 (default [] (td_scope data)) else []));
           p_account_id := None; p_account_name := None;
           p_metadata := None;
           p_updated_at := Some now |}
        d
  end.

(** *** The Express route [GET /api/linkedin/callback] *)

Record callback_query := {
  q_code : option jstring;
  q_state : option jstring;
  q_error : option jstring
}.

(** The provider's two answers, already decoded: [None] stands for a
    rejected [fetch] or a body that [json()] or the destructuring cannot
    read; otherwise the status and, for a 2xx answer, the fields used. *)
Record token_data := {
  tk_access_token : option jstring;
  tk_expires_in : option Z;
  tk_scope : option jstring
}.

Record profile_data := {
  sub : option jstring;
  name : option jstring;
  email : option jstring;
  picture : option jstring
}.

Record callback_world := {
  cb_env : string -> option jstring;
  (** [Buffer.from(state, 'base64').toString()] *)
  cb_decode : jstring -> jstring;
  cb_token : option (Z * option token_data);
  cb_profile : option (Z * option profile_data);
  cb_now : Z;
  cb_db_now : Z
}.

Definition is_2xx (s : Z) : bool := (200 <=? s)%Z && (s <=? 299)%Z.

Definition opt_str (o : option jstring) : jsval :=
  match o with Some s => JStr s | None => JUndefined end.

Definition linkedin_payload (w : callback_world) (userId : jstring)
    (t : token_data) (expires_in : Z) (linkedinId : jstring)
    (pd : profile_data) : payload :=
  {| p_user_id := Some userId;
     p_platform := Some (js "linkedin");
     p_access_token := tk_access_token t;
     p_refresh_token := None;
     p_token_type := Some (Some (js "bearer"));
     p_expires_at := Some (Some (cb_now w + expires_in * 1000)%Z);
     p_scopes :=
       Some (Some (if truthy (tk_scope t)
                   then split 32 (default [] (tk_scope t)) else []));
     p_account_id := Some (Some linkedinId);
     p_account_name := Some <$> name pd;
     p_metadata :=
       Some (Some (obj [("email", opt_str (email pd));
                        ("picture", opt_str (picture pd));
                        ("linkedinId", JStr linkedinId)]));
     p_updated_at := Some (cb_now w) |}.

Definition linkedin_callback (w : callback_world) (q : callback_query)
    (d : db) : report * db :=
  if truthy (q_error q) then (Aborted "linkedin_auth_failed", d)
  else if negb (truthy (q_code q)) || negb (truthy (q_state q)) then
    (Aborted "Missing code or state parameter", d)
  else
    match JSON_parse (cb_decode w (default [] (q_state q))) with
    | None => (Aborted "Invalid state parameter", d)
    | Some stateData =>
        match prop stateData "userId" with
        | None => (Aborted "unexpected_error", d)
        | Some uid =>
            if negb (truthy_val uid) then
              (Aborted "Invalid state: missing userId", d)
            else if negb (truthy (cb_env w "LINKEDIN_CLIENT_ID"))
                    || negb (truthy (cb_env w "LINKEDIN_CLIENT_SECRET")) then
              (Aborted "LinkedIn OAuth not configured", d)
            else
              match cb_token w with
              | None => (Aborted "unexpected_error", d)
              | Some (ts, tok) =>
                  if negb (is_2xx ts) then (Aborted "token_exchange_failed", d)
                  else
                    match tok, cb_profile w with
                    | None, _ | _, None => (Aborted "unexpected_error", d)
                    | Some t, Some (ps, prof) =>
                        if negb (is_2xx ps) then
                          (Aborted "profile_fetch_failed", d)
                        else
                          match prof with
                          | None => (Aborted "unexpected_error", d)
                          | Some pd =>
                              if negb (truthy (sub pd)) then
                                (Aborted "profile_id_missing", d)
                              else
                                match tk_expires_in t with
                                | None =>
                                    (* Invalid Date: toISOString throws *)
                                    (Aborted "unexpected_error", d)
                                | Some secs =>
                                    if negb (truthy (cb_env w "SUPABASE_URL"))
                                       || negb (truthy (cb_env w "SUPABASE_KEY"))
                                    then (Aborted "database_config_error", d)
                                    else
                                      match uid with
                                      | JStr userId =>
                                          store (cb_db_now w)
                                            (linkedin_payload w userId t secs
                                               (default [] (sub pd)) pd)
                                            d
                                      | _ =>
                                          (* not a uuid: the insert is refused *)
                                          (DatabaseError invalid_input, d)
                                      end
                                end
                          end
                    end
              end
        end
    end.

(** *** A sample database and two writes of the same key *)

Definition sample_db : db := {| users := [js "u1"]; table := [] |}.

Definition first_write : session :=
  {| provider_token := Some (js "token-1"); provider_refresh_token := None;
     expires_in := Some 3600%Z; app_provider := Some (Some (js "facebook")) |}.

Definition second_write : session :=
  {| provider_token := Some (js "token-2");
     provider_refresh_token := Some (js "refresh-2");
     expires_in := Some 7200%Z; app_provider := Some (Some (js "facebook")) |}.

Definition sample_payload (s : session) (now : Z) : payload :=
  {| p_user_id := Some (js "u1");
     p_platform := Some (js "facebook");
     p_access_token := provider_token s;
     p_refresh_token :=
       Some (if truthy (provider_refresh_token s)
             then provider_refresh_token s else None);
     p_token_type := Some (Some (js "bearer"));
     p_expires_at := Some (expiry now (expires_in s));
     p_scopes := Some (Some (split 44 (js "pages_show_list,pages_manage_posts,pages_read_engagement")));
     p_account_id := None; p_account_name := None;
     p_metadata := None;
     p_updated_at := Some now |}.

(** What the LinkedIn callback route stores for member-1. *)
Definition linkedin_write : payload :=
  {| p_user_id := Some (js "u1");
     p_platform := Some (js "linkedin");
     p_access_token := Some (js "token-1");
     p_refresh_token := None;
     p_token_type := Some (Some (js "bearer"));
     p_expires_at := Some (Some 5184000000%Z);
     p_scopes := Some (Some [js "openid"; js "profile"; js "email"; js "w_member_social"]);
     p_account_id := Some (Some (js "member-1"));
     p_account_name := Some (Some (js "Ann"));
     p_metadata := Some (Some (obj [("linkedinId", JStr (js "member-1"))]));
     p_updated_at := Some 1000%Z |}.

(** The row left by connecting Facebook twice. *)
Definition reconnected_row : row :=
  {| user_id := js "u1"; platform := js "facebook";
     access_token := js "token-2";
     refresh_token := Some (js "refresh-2");
     token_type := Some (js "bearer");
     expires_at := Some 7202000%Z;
     scopes := Some [js "pages_show_list"; js "pages_manage_posts";
                     js "pages_read_engagement"];
     account_id := None; account_name := None; metadata := None;
     created_at := 1000; updated_at := 2001 |}.

End Credentials.

(** ** CSV import (utils/csvHelper) *)

Module Csv.

Inductive field := firstName | lastName | email | company | title.

Definition REQUIRED_FIELDS : list field :=
  [firstName; lastName; email; company; title].

(** [mapping[field]] *)
Definition ColumnMapping := field -> option jstring.

(** A plain object ([{}]) used as a dictionary: its own properties in
    insertion order.  Writing a primitive to the key [__proto__] of such an
    object is silently ignored. *)
Definition dict (A : Type) := list (jstring * A).

Fixpoint own_set {A} (k : jstring) (v : A) (d : dict A) : dict A :=
  match d with
  | [] => [(k, v)]
  | (k', v') :: d' =>
      if jeq k k' then (k, v) :: d' else (k', v') :: own_set k v d'
  end.

Definition dict_set {A} (k : jstring) (v : A) (d : dict A) : dict A :=
  if jeq k (js "__proto__") then d else own_set k v d.

Fixpoint own {A} (k : jstring) (d : dict A) : option A :=
  match d with
  | [] => None
  | (k', v) :: d' => if jeq k k' then Some v else own k d'
  end.

(** [d.hasOwnProperty(k)]: the method is looked up on the object itself
    first, so a column called [hasOwnProperty] shadows it with a number and
    the call throws a TypeError ([None]). *)
Definition hasOwnProperty {A} (d : dict A) (k : jstring) : option bool :=
  match own (js "hasOwnProperty") d with
  | Some _ => None
  | None => Some (bool_decide (is_Some (own k d)))
  end.

Record ParsedContact := {
  c_firstName : jstring;
  c_lastName : jstring;
  c_email : jstring;
  c_company : jstring;
  c_title : jstring;
  raw_data : dict jstring
}.

Inductive result :=
| Parsed (contacts : list ParsedContact) (invalidRows : nat)
| CouldNotIdentify (missingColumns : list field)   (* the thrown Error *)
| NotAFunction.                                    (* the TypeError *)

(** [fileContent.trim().replace(/\r\n/g, '\n').replace(/\r/g, '\n').split('\n')] *)
Definition lines (fileContent : jstring) : list jstring :=
  split 10 (replaceAll false [13%N] [10%N]
              (replaceAll false [13%N; 10%N] [10%N] (trim fileContent))).

Definition cells (line : jstring) : list jstring := map trim (split 44 line).

Definition sanitizeRows (ls : list jstring) : list (list jstring) :=
  map cells ls.

(** [value.split(/\s+/)] *)
Fixpoint split_ws (s : jstring) : list jstring :=
  match s with
  | [] => [[]]
  | c :: s' =>
      if is_space c then
        match s' with
        | c' :: _ => if is_space c' then split_ws s' else [] :: split_ws s'
        | [] => [] :: split_ws s'
        end
      else match split_ws s' with
           | w :: ws => (c :: w) :: ws
           | [] => [[c]]
           end
  end.

Definition splitFullName (value : jstring) : jstring * jstring :=
  match split_ws (trim value) with
  | [] => ([], [])
  | [p] => (p, [])
  | p :: ps => (p, join (js " ") ps)
  end.

Fixpoint index_headers (hs : list jstring) (i : nat) (d : dict nat) : dict nat :=
  match hs with
  | [] => d
  | h :: hs' => index_headers hs' (S i) (dict_set h i d)
  end.

(** [REQUIRED_FIELDS.filter(field => ...)] *)
Fixpoint missingColumns (mapping : ColumnMapping) (headerIndexMap : dict nat)
    (fs : list field) : option (list field) :=
  match fs with
  | [] => Some []
  | f :: fs' =>
      let headerName := mapping f in
      let known : option bool :=
        if truthy headerName
        then hasOwnProperty headerIndexMap (default [] headerName)
        else Some false in
      match known, missingColumns mapping headerIndexMap fs' with
      | Some true, Some rest => Some rest
      | Some false, Some rest => Some (f :: rest)
      | _, _ => None
      end
  end.

(** [values[i]?.trim() ?? ''] *)
Definition cell (values : list jstring) (i : nat) : jstring :=
  match values !! i with
  | Some v => trim v
  | None => []
  end.

Definition getValue (headerIndexMap : dict nat) (values : list jstring)
    (headerName : option jstring) : jstring :=
  if truthy headerName then
    match own (default [] headerName) headerIndexMap with
    | Some index => cell values index
    | None => []
    end
  else [].

Fixpoint rawData (hs : list jstring) (i : nat) (values : list jstring)
    (d : dict jstring) : dict jstring :=
  match hs with
  | [] => d
  | h :: hs' => rawData hs' (S i) values (dict_set h (cell values i) d)
  end.

Definition combinedNameHeader (mapping : ColumnMapping) : option jstring :=
  if truthy (mapping firstName) && truthy (mapping lastName)
     && bool_decide (mapping firstName = mapping lastName)
  then mapping firstName else None.

(** The five values read off one data row. *)
Definition values_of (mapping : ColumnMapping) (headerIndexMap : dict nat)
    (values : list jstring) (f : field) : jstring :=
  let get := getValue headerIndexMap values in
  match f with
  | firstName =>
      if truthy (combinedNameHeader mapping)
      then fst (splitFullName (get (mapping firstName)))
      else get (mapping firstName)
  | lastName =>
      if truthy (combinedNameHeader mapping)
      then let l := snd (splitFullName (get (mapping firstName))) in
           if truthy (Some l) then l else get (mapping lastName)
      else get (mapping lastName)
  | _ => get (mapping f)
  end.

Definition is_empty (s : jstring) : bool := bool_decide (s = []).

(** The body of [dataRows.forEach]. *)
Definition row_step (mapping : ColumnMapping) (rawHeaders : list jstring)
    (headerIndexMap : dict nat) (acc : list ParsedContact * nat)
    (values : list jstring) : list ParsedContact * nat :=
  let v := values_of mapping headerIndexMap values in
  if is_empty (v firstName) || is_empty (v lastName) || is_empty (v email)
     || is_empty (v company) || is_empty (v title)
  then (fst acc, S (snd acc))
  else (fst acc ++ [{| c_firstName := v firstName; c_lastName := v lastName;
                       c_email := v email; c_company := v company;
                       c_title := v title;
                       raw_data := rawData rawHeaders 0 values [] |}],
        snd acc).

Definition rawHeaders (fileContent : jstring) : list jstring :=
  match lines fileContent with
  | l :: _ => cells l
  | [] => []
  end.

Definition dataRows (fileContent : jstring) : list (list jstring) :=
  sanitizeRows (drop 1 (lines fileContent)).

Definition parseCsvWithMapping (fileContent : jstring) (mapping : ColumnMapping)
    : result :=
  if length (lines fileContent) <? 2 then Parsed [] 0
  else
    let headerIndexMap := index_headers (rawHeaders fileContent) 0 [] in
    match missingColumns mapping headerIndexMap REQUIRED_FIELDS with
    | None => NotAFunction
    | Some ((_ :: _) as missing) => CouldNotIdentify missing
    | Some [] =>
        let '(contacts, invalidRows) :=
          fold_left (row_step mapping (rawHeaders fileContent) headerIndexMap)
                    (dataRows fileContent) ([], 0) in
        Parsed contacts invalidRows
    end.

(** *** What the claims about the import speak of *)

(** The cell of the column mapped to some required field is empty or
    absent in this row. *)
Definition missing_any (mapping : ColumnMapping) (headerIndexMap : dict nat)
    (values : list jstring) : bool :=
  existsb (fun f => is_empty (getValue headerIndexMap values (mapping f)))
          REQUIRED_FIELDS.

(** The contact pushed for a row. *)
Definition contact_of (mapping : ColumnMapping) (headers : list jstring)
    (headerIndexMap : dict nat) (values : list jstring) : ParsedContact :=
  let v := values_of mapping headerIndexMap values in
  {| c_firstName := v firstName; c_lastName := v lastName; c_email := v email;
     c_company := v company; c_title := v title;
     raw_data := rawData headers 0 values [] |}.

Definition sample_mapping : ColumnMapping :=
  fun f => match f with
           | firstName | lastName => Some (js "Name")
           | email => Some (js "Email")
           | company => Some (js "Company")
           | title => Some (js "Title")
           end.

(** Three data rows: a full one, one without a company, one without a
    name. *)
Definition sample_csv : jstring :=
  js "Name,Email,Company,Title" ++ [13; 10]%N
     ++ js "Ann Mary Lee, ann@x.io ,ACME,CEO" ++ [10]%N
     ++ js "Bob Ray,bob@x.io,,CTO" ++ [10]%N
     ++ js ",cy@x.io,ACME,CFO" ++ [10]%N.

End Csv.

(** ** Saving generated content (review screen and edit screen) *)

Module SaveContent.

(** [delete o[k]] *)
Fixpoint obj_delete (k : jstring) (o : list (jstring * jsval))
    : list (jstring * jsval) :=
  match o with
  | [] => []
  | (k', v) :: o' =>
      if jeq k k' then obj_delete k o' else (k', v) :: obj_delete k o'
  end.

(** [v.k = x] in a module (strict mode): only an object takes the write. *)
Definition set_prop (v : jsval) (k : string) (x : jsval) : option jsval :=
  match v with
  | JObj o => Some (JObj (obj_set (js k) x o))
  | _ => None
  end.

Definition delete_prop (v : jsval) (k : string) : jsval :=
  match v with
  | JObj o => JObj (obj_delete (js k) o)
  | _ => v
  end.

(** An item of [generatedItems] / [results]. *)
Record item := {
  id : jstring;
  type : jsval;
  subtype : jsval;
  generated_text : jsval;
  metadata : jsval
}.

(** A row handed to [insert] on [generated_content]. *)
Record row := {
  campaign_id : jstring;
  user_id : option jstring;
  content_type : jsval;
  row_subtype : jsval;
  row_text : jsval;
  row_metadata : jsval;
  generated_image_path : option jstring
}.

Record world := {
  now : Z;                                        (* [Date.now()] *)
  atob : jstring -> option jstring;               (* [None]: it throws *)
  (** [storage.from('generated_images').upload(path, bytes, ...)]: the
      error it reports, if any. *)
  upload : jstring -> jstring -> option jstring;
  getPublicUrl : jstring -> jstring;
  insert_error : list row -> option jstring;
  update_error : jstring -> jsval -> jsval -> option jstring
}.

Inductive event :=
| Upload (path bytes : jstring)
| Insert (rows : list row)
| Update (id : jstring) (generated_text metadata : jsval).

Definition is_word (c : N) : bool :=
  is_digit c || ((65 <=? c)%N && (c <=? 90)%N)
  || ((97 <=? c)%N && (c <=? 122)%N) || N.eqb c 95.

Fixpoint skip_word (s : jstring) : jstring :=
  match s with
  | c :: s' => if is_word c then skip_word s' else s
  | [] => []
  end.

(** [base64.replace(/^data:image\/\w+;base64,/, '')] *)
Definition strip_data_url (base64 : jstring) : jstring :=
  let p := js "data:image/" in
  if starts_with false p base64 then
    let r := drop (length p) base64 in
    let r' := skip_word r in
    if (length r' <? length r) && starts_with false (js ";base64,") r'
    then drop (length (js ";base64,")) r'
    else base64
  else base64.

Definition uploadBase64Image (base64 path : jstring)
    : @prog world event jstring :=
  let* binary := ask (fun w => atob w (strip_data_url base64)) in
  let* bytes := of_option "The string to be decoded is not correctly encoded." binary in
  let* error := call (Upload path bytes) (fun w => upload w path bytes) in
  match error with
  | Some e => throw e
  | None => ask (fun w => getPublicUrl w path)
  end.

Definition dec (z : Z) : jstring :=
  js (DecimalString.NilZero.string_of_int (Z.to_int z)).

(** The upload-and-rewrite step shared by both save routines: the metadata
    that will be written. *)
Definition finalize (md : jsval) (uploadPath : jstring)
    : @prog world event jsval :=
  match prop_opt md "temp_base64_image" with
  | JStr base64 =>
      let* publicUrl := uploadBase64Image base64 uploadPath in
      let* md' := of_option "Cannot create property on a primitive"
                    (set_prop md "generated_image_url" (JStr publicUrl)) in
      ret (delete_prop md' "temp_base64_image")
  | _ => throw (js "base64.replace is not a function")
  end.

Definition carries_temp_image (md : jsval) : bool :=
  truthy_val (prop_opt md "temp_base64_image").

(** What a successful upload-and-rewrite did (the trace [t]) and produced
    (the metadata [md']). *)
Definition finalized (w : world) (md : jsval) (path : jstring)
    (t : list event) (md' : jsval) : Prop :=
  exists base64 bytes,
    prop_opt md "temp_base64_image" = JStr base64 /\
    atob w (strip_data_url base64) = Some bytes /\
    upload w path bytes = None /\
    t = [Upload path bytes] /\
    prop md' "generated_image_url" = Some (JStr (getPublicUrl w path)) /\
    prop md' "temp_base64_image" = Some JUndefined.

Definition only_uploads (t : list event) : Prop :=
  Forall (fun e => exists p b, e = Upload p b) t.

(** *** The review screen: [approveAndSaveAll] *)

(** [`campaign_${campaign.id}/item_${i}_${Date.now()}.png`] *)
Definition review_path (w : world) (campaign : jstring) (i : nat) : jstring :=
  js "campaign_" ++ campaign ++ js "/item_" ++ dec (Z.of_nat i)
     ++ js "_" ++ dec (now w) ++ js ".png".

(** The body of the [for] loop, at index [i]. *)
Definition final_item (campaign : jstring) (user : option jstring)
    (i : nat) (it : item) : @prog world event row :=
  (* let finalImageUrl = item.metadata.generated_image_url *)
  let* _ := of_option "Cannot read properties of undefined"
              (prop (metadata it) "generated_image_url") in
  let* saved :=
    if carries_temp_image (metadata it) then
      let* uploadPath := ask (fun w => review_path w campaign i) in
      let* md := finalize (metadata it) uploadPath in
      ret (md, Some uploadPath)
    else ret (metadata it, None) in
  ret {| campaign_id := campaign; user_id := user;
         content_type := type it; row_subtype := subtype it;
         row_text := generated_text it; row_metadata := fst saved;
         generated_image_path := snd saved |}.

Fixpoint final_items (campaign : jstring) (user : option jstring)
    (i : nat) (items : list item) : @prog world event (list row) :=
  match items with
  | [] => ret []
  | it :: items' =>
      let* r := final_item campaign user i it in
      let* rs := final_items campaign user (S i) items' in
      ret (r :: rs)
  end.

(** [true]: "Successfully saved!"; [false]: "Failed to save." *)
Definition approveAndSaveAll (campaign : jstring) (user : option jstring)
    (generatedItems : list item) : @prog world event bool :=
  try_catch
    (let* finalItems := final_items campaign user 0 generatedItems in
     let* error := call (Insert finalItems) (fun w => insert_error w finalItems) in
     match error with
     | Some e => throw e
     | None => ret true
     end)
    (fun _ => ret false).

(** *** The edit screen: [handleSaveChanges] *)

(** [`campaign_${campaignId}/item_${item.id}_${Date.now()}.png`] *)
Definition edit_path (w : world) (campaignId : jstring) (it : item) : jstring :=
  js "campaign_" ++ campaignId ++ js "/item_" ++ id it
     ++ js "_" ++ dec (now w) ++ js ".png".

Definition save_item (campaignId : jstring) (it : item)
    : @prog world event unit :=
  let* temp := of_option "Cannot read properties of undefined"
                 (prop (metadata it) "temp_base64_image") in
  let* md :=
    if truthy_val temp then
      let* uploadPath := ask (fun w => edit_path w campaignId it) in
      finalize (metadata it) uploadPath
    else ret (metadata it) in
  let* error :=
    call (Update (id it) (generated_text it) md)
         (fun w => update_error w (id it) (generated_text it) md) in
  match error with
  | Some e => throw e
  | None => ret tt
  end.

Fixpoint save_items (campaignId : jstring) (results : list item)
    : @prog world event unit :=
  match results with
  | [] => ret tt
  | it :: results' =>
      let* _ := save_item campaignId it in
      save_items campaignId results'
  end.

Definition handleSaveChanges (campaignId : jstring) (results : list item)
    : @prog world event bool :=
  try_catch
    (let* _ := save_items campaignId results in ret true)
    (fun _ => ret false).

(** What an [update] sent for item [it] carries, [t] being the trace it
    appears in. *)
Definition update_of (w : world) (campaignId : jstring) (it : item)
    (t : list event) (e : event) : Prop :=
  exists md,
    e = Update (id it) (generated_text it) md /\
    if carries_temp_image (metadata it)
    then exists t', finalized w (metadata it) (edit_path w campaignId it) t' md
                    /\ t' ⊆ t
    else md = metadata it.

(** *** A sample save *)

(** A storage service that accepts every upload; [atob] stands for the
    browser's decoder (here it hands the text back). *)
Definition sample_world : world :=
  {| now := 1700000000000%Z;
     atob := fun s => Some s;
     upload := fun _ _ => None;
     getPublicUrl := fun path => js "https://cdn.example.com/" ++ path;
     insert_error := fun _ => None;
     update_error := fun _ _ _ => None |}.

Definition sample_items : list item :=
  [ {| id := js "7"; type := JStr (js "blog"); subtype := JNull;
       generated_text := JStr (js "Hello");
       metadata := obj [("title", JStr (js "T"));
                        ("temp_base64_image", JStr (js "data:image/png;base64,iVBORw0KGgo="))] |};
    {| id := js "8"; type := JStr (js "social"); subtype := JStr (js "post");
       generated_text := JStr (js "Hi");
       metadata := obj [("title", JStr (js "U"))] |} ].

Definition sample_rows : list row :=
  [ {| campaign_id := js "c1"; user_id := Some (js "u1");
       content_type := JStr (js "blog"); row_subtype := JNull;
       row_text := JStr (js "Hello");
       row_metadata :=
         obj [("title", JStr (js "T"));
              ("generated_image_url",
               JStr (js "https://cdn.example.com/campaign_c1/item_0_1700000000000.png"))];
       generated_image_path := Some (js "campaign_c1/item_0_1700000000000.png") |};
    {| campaign_id := js "c1"; user_id := Some (js "u1");
       content_type := JStr (js "social"); row_subtype := JStr (js "post");
       row_text := JStr (js "Hi");
       row_metadata := obj [("title", JStr (js "U"))];
       generated_image_path := None |} ].

End SaveContent.

(** ** The content-generation driver (services/gemini_content_service) *)

Module Gemini.

Record world := {
  (** the module-level [geminiClient], when an earlier call created it *)
  geminiClient : bool;
  (** [import.meta.env] and [process.env] *)
  meta_env : string -> option jstring;
  process_env : string -> option jstring;
  (** [ai.models.generateContent({ model, contents })]: [None] when the
      promise rejects, else [response.text] (possibly [undefined]). *)
  generateContent : jstring -> jstring -> option (option jstring)
}.

Inductive event :=
| Generate (model prompt : jstring)
| Download (content : jstring).

Definition getGeminiApiKey : @prog world event jstring :=
  let* key :=
    ask (fun w => or_else (meta_env w "VITE_GEMINI_API_KEY")
                 (or_else (meta_env w "GEMINI_API_KEY")
                 (or_else (process_env w "GEMINI_API_KEY")
                          (process_env w "API_KEY")))) in
  if negb (truthy key) || bool_decide (key = Some (js "undefined"))
  then throw (js "Missing GEMINI API key.")
  else ret (default [] key).

Definition getGeminiClient : @prog world event unit :=
  let* cached := ask geminiClient in
  if cached then ret tt else let* _ := getGeminiApiKey in ret tt.

(** [rawText.replace(/```json/gi, '').replace(/```/g, '').trim()] *)
Definition cleaned (rawText : jstring) : jstring :=
  trim (replaceAll false (js "```") []
          (replaceAll true (js "```json") [] rawText)).

Definition textFileContent (prompt cleaned : jstring) : jstring :=
  js "===== INPUT PROMPT =====" ++ [10; 10]%N ++ prompt ++ [10; 10]%N
     ++ js "===== OUTPUT FROM GEMINI =====" ++ [10; 10]%N ++ cleaned ++ [10]%N.

Definition model : jstring := js "gemini-2.5-pro".

(** [response.text || ''] *)
Definition rawText (text : option jstring) : jstring :=
  if truthy text then default [] text else [].

(** [generateAllGeminiContent(campaign)], from the point where the prompt
    text has been built from the campaign (pure string formatting, which
    does not throw on a campaign row). *)
Definition generateAllGeminiContent (prompt : jstring)
    : @prog world event jsval :=
  let* _ := getGeminiClient in
  let* answer := call (Generate model prompt)
                      (fun w => generateContent w model prompt) in
  let* text := of_option "generateContent rejected" answer in
  let* parsed := of_option "Unexpected token in JSON"
                   (JSON_parse (cleaned (rawText text))) in
  let* _ := call (Download (textFileContent prompt (cleaned (rawText text))))
                 (fun _ => tt) in
  ret parsed.

(** The prompts sent to the AI endpoint. *)
Definition generate_calls (t : list event) : list jstring :=
  omap (fun e => match e with Generate _ p => Some p | _ => None end) t.

(** *** Sample answers *)

(** A JSON document wrapped in a Markdown code fence. *)
Definition fenced : jstring :=
  js "```json" ++ [10%N] ++ jsq "{'content':[]}" ++ [10%N] ++ js "```".

Definition fenced_world : world :=
  {| geminiClient := false;
     meta_env := fun k => if String.eqb k "VITE_GEMINI_API_KEY"
                          then Some (js "key") else None;
     process_env := fun _ => None;
     generateContent := fun _ _ => Some (Some fenced) |}.

(** No client yet and no API key anywhere. *)
Definition no_key_world : world :=
  {| geminiClient := false;
     meta_env := fun _ => None;
     process_env := fun _ => None;
     generateContent := fun _ _ => Some (Some (jsq "{'content':[]}")) |}.

End Gemini.

(** ** The localStorage fallback of the callback relay *)

Module OAuthRelay.

(** [parseInt(s)]: leading white space, an optional sign, an optional
    [0x] prefix, then the longest run of digits; [None] is [NaN]. *)
Fixpoint span_hex (s : jstring) : list N * jstring :=
  match s with
  | c :: s' =>
      match hex_val c with
      | Some h => let '(d, r) := span_hex s' in (h :: d, r)
      | None => ([], s)
      end
  | [] => ([], [])
  end.

Definition parseInt (s : jstring) : option Z :=
  let s := trimStart s in
  let '(neg, s) :=
    match s with
    | 45%N :: t => (true, t)
    | 43%N :: t => (false, t)
    | _ => (false, s)
    end in
  let magnitude :=
    match s with
    | 48%N :: (120%N | 88%N) :: t =>
        match span_hex t with
        | ([], _) => None
        | (d, _) => Some (fold_left (fun acc h => (16 * acc + Z.of_N h)%Z) d 0%Z)
        end
    | _ =>
        match span_digits s with
        | ([], _) => None
        | (d, _) => Some (digits_val d)
        end
    end in
  (fun m => if neg then (- m)%Z else m) <$> magnitude.

Definition storage := gmap jstring jstring.

Definition getItem (st : gmap jstring jstring) (k : string) : option jstring :=
  st !! js k.

Definition removeItem (k : string) (st : gmap jstring jstring)
    : gmap jstring jstring :=
  base.delete (js k) st.

Definition clear_flags (st : gmap jstring jstring) : gmap jstring jstring :=
  removeItem "oauth_timestamp" (removeItem "oauth_session" (removeItem "oauth_success" st)).

(** An OAuth result is waiting in the fallback channel. *)
Definition found (st : gmap jstring jstring) : bool :=
  bool_decide (getItem st "oauth_success" = Some (js "true"))
  && truthy (getItem st "oauth_session").

(** [parseInt(oauthTimestamp || '0')] *)
Definition stored_timestamp (st : gmap jstring jstring) : option Z :=
  parseInt (default (js "0") (or_else (getItem st "oauth_timestamp") (Some (js "0")))).

(** [now - timestamp < 30000], false when the timestamp is [NaN]. *)
Definition fresh (now : Z) (st : gmap jstring jstring) : bool :=
  match stored_timestamp st with
  | Some timestamp => (now - timestamp <? 30000)%Z
  | None => false
  end.

(** One run of [checkLocalStorageAuth], started at time [now] on the
    storage [st].  The function is [async]: it reads the three flags, and
    when the result is fresh it awaits [handleAuthCallback(session)] before
    it removes them.  [handleAuthCallback session st] stands for that awaited
    call (which catches its own errors): it gives the storage as it is when
    the call returns, that is, with what the callback did to it (a
    successful one removes [connecting_platform]) and with what else ran
    while the call was pending.  Until then the flags are still in place,
    so a run started in the meantime (on mount, on [visibilitychange] or by
    the two-second timer) reads the same [st].  The result: the sessions
    this run hands to [handleAuthCallback], and the storage when it
    ends. *)
Definition checkLocalStorageAuth (now : Z)
    (handleAuthCallback : jsval -> gmap jstring jstring -> gmap jstring jstring)
    (st : gmap jstring jstring) : list jsval * gmap jstring jstring :=
  if found st then
    if fresh now st then
      match JSON_parse (default [] (getItem st "oauth_session")) with
      | Some session => ([session], clear_flags (handleAuthCallback session st))
      | None => ([], clear_flags st)
      end
    else ([], clear_flags st)
  else ([], st).

(** A callback that succeeds at once: it removes [connecting_platform]
    (the upsert it awaits does not touch the storage). *)
Definition connecting (session : jsval) (st : gmap jstring jstring)
    : gmap jstring jstring :=
  removeItem "connecting_platform" st.

(** A storage holding an OAuth result written at [timestamp]. *)
Definition sample_storage (timestamp : string) : gmap jstring jstring :=
  <[js "oauth_timestamp" := js timestamp]>
    (<[js "oauth_session" := jsq "{'provider_token':'t'}"]>
       (<[js "oauth_success" := js "true"]> ∅)).

End OAuthRelay.

(** ** SHA-256 ([crypto.subtle.digest('SHA-256', data)], FIPS 180-4) *)

Module Sha256.
Local Open Scope N_scope.

Definition w32 (x : N) : N := x mod 4294967296.
Definition add32 (a b : N) : N := w32 (a + b).
Definition rotr (n x : N) : N :=
  N.lor (N.shiftr x n) (w32 (N.shiftl x (32 - n))).
Definition shr (n x : N) : N := N.shiftr x n.
Definition not32 (x : N) : N := 4294967295 - x.

Definition Ch (x y z : N) : N := N.lxor (N.land x y) (N.land (not32 x) z).
Definition Maj (x y z : N) : N :=
  N.lxor (N.lxor (N.land x y) (N.land x z)) (N.land y z).
Definition Sigma0 (x : N) : N := N.lxor (N.lxor (rotr 2 x) (rotr 13 x)) (rotr 22 x).
Definition Sigma1 (x : N) : N := N.lxor (N.lxor (rotr 6 x) (rotr 11 x)) (rotr 25 x).
Definition sigma0 (x : N) : N := N.lxor (N.lxor (rotr 7 x) (rotr 18 x)) (shr 3 x).
Definition sigma1 (x : N) : N := N.lxor (N.lxor (rotr 17 x) (rotr 19 x)) (shr 10 x).

(** The constants are derived as the standard defines them: the first 32
    bits of the fractional parts of the cube roots (for [K]) and of the square
    roots (for [H0]) of the first primes. *)
Definition is_prime (n : nat) : bool :=
  forallb (fun d => negb (n mod d =? 0)%nat) (seq 2 (n - 2)).

Definition primes : list N :=
  map N.of_nat (List.filter is_prime (seq 2 310)).

(** The integer cube root, one bit at a time from bit [b - 1] down. *)
Fixpoint cbrt_bits (b : nat) (n r : N) : N :=
  match b with
  | O => r
  | S b' =>
      let c := r + 2 ^ N.of_nat b' in
      cbrt_bits b' n (if c * c * c <=? n then c else r)
  end.

Definition K : list N :=
  map (fun p => w32 (cbrt_bits 36 (p * 2 ^ 96) 0)) primes.

Definition H0 : list N :=
  map (fun p => w32 (N.sqrt (p * 2 ^ 64))) (take 8 primes).

(** Padding: the bit 1, zeros up to 56 mod 64 bytes, the bit length on 64
    bits. *)
Definition be (bytes : nat) (x : N) : list N :=
  map (fun i => (N.shiftr x (8 * N.of_nat i)) mod 256) (rev (seq 0 bytes)).

Definition pad (msg : list N) : list N :=
  let l := length msg in
  msg ++ [128] ++ repeat 0 ((119 - l mod 64) mod 64)%nat
      ++ be 8 (8 * N.of_nat l).

Fixpoint word_of (bytes : list N) (acc : N) : N :=
  match bytes with
  | [] => acc
  | b :: bs => word_of bs (256 * acc + b)
  end.

Fixpoint words (n : nat) (bytes : list N) : list N :=
  match n with
  | O => []
  | S n' => word_of (take 4 bytes) 0 :: words n' (drop 4 bytes)
  end.

(** The message schedule, newest word first. *)
Fixpoint schedule (n : nat) (ws : list N) : list N :=
  match n with
  | O => ws
  | S n' =>
      let w := add32 (add32 (sigma1 (nth 1 ws 0)) (nth 6 ws 0))
                     (add32 (sigma0 (nth 14 ws 0)) (nth 15 ws 0)) in
      schedule n' (w :: ws)
  end.

Definition round (s : list N) (kw : N * N) : list N :=
  match s with
  | [a; b; c; d; e; f; g; h] =>
      let t1 := add32 (add32 (add32 h (Sigma1 e)) (add32 (Ch e f g) kw.1)) kw.2 in
      let t2 := add32 (Sigma0 a) (Maj a b c) in
      [add32 t1 t2; a; b; c; add32 d t1; e; f; g]
  | _ => s
  end.

Definition compress (h : list N) (block : list N) : list N :=
  let ws := rev (schedule 48 (rev (words 16 block))) in
  let s := fold_left round (combine K ws) h in
  map (fun p => add32 p.1 p.2) (combine h s).

Fixpoint blocks (n : nat) (h : list N) (bytes : list N) : list N :=
  match n with
  | O => h
  | S n' => blocks n' (compress h (take 64 bytes)) (drop 64 bytes)
  end.

Definition sha256 (msg : list N) : list N :=
  let p := pad msg in
  concat (map (be 4) (blocks (length p / 64) H0 p)).
End Sha256.

(** ** Password hashing (services/authService) *)

Module AuthService.

(** [new TextEncoder().encode(s)]: UTF-8, a lone surrogate becoming
    U+FFFD. *)
Definition utf8 (cp : N) : list N :=
  if (cp <? 128)%N then [cp]
  else if (cp <? 2048)%N then [192 + cp / 64; 128 + cp mod 64]%N
  else if (cp <? 65536)%N then
    [224 + cp / 4096; 128 + (cp / 64) mod 64; 128 + cp mod 64]%N
  else [240 + cp / 262144; 128 + (cp / 4096) mod 64;
        128 + (cp / 64) mod 64; 128 + cp mod 64]%N.

Definition is_high (c : N) : bool := (55296 <=? c)%N && (c <=? 56319)%N.
Definition is_low (c : N) : bool := (56320 <=? c)%N && (c <=? 57343)%N.

(** [high] is a high surrogate read just before and not yet written. *)
Fixpoint encode_from (high : option N) (s : jstring) : list N :=
  match s with
  | [] => match high with Some _ => utf8 65533 | None => [] end
  | c :: s' =>
      match high with
      | Some h =>
          if is_low c then
            utf8 (65536 + (h - 55296) * 1024 + (c - 56320)) ++ encode_from None s'
          else if is_high c then utf8 65533 ++ encode_from (Some c) s'
          else utf8 65533 ++ utf8 c ++ encode_from None s'
      | None =>
          if is_high c then encode_from (Some c) s'
          else if is_low c then utf8 65533 ++ encode_from None s'
          else utf8 c ++ encode_from None s'
      end
  end.

Definition encode (s : jstring) : list N := encode_from None s.

Definition hex_digit (n : N) : N := if (n <? 10)%N then (48 + n)%N else (87 + n)%N.

(** [b.toString(16).padStart(2, '0')] for a byte. *)
Definition hex_byte (b : N) : jstring := [hex_digit (b / 16); hex_digit (b mod 16)].

(** [Array.from(bytes).map(b => ...).join('')] *)
Definition hex (bytes : list N) : jstring := concat (map hex_byte bytes).

Definition sha256 : list N -> list N := Sha256.sha256.

Definition finalHashHex (password saltHex : jstring) : jstring :=
  let hashHex := hex (sha256 (encode password)) in
  hex (sha256 (encode (hashHex ++ saltHex))).

(** [hashPassword], the 16 bytes of [crypto.getRandomValues] being the
    argument [salt]. *)
Definition hashPassword (salt : list N) (password : jstring) : jstring :=
  let saltHex := hex salt in
  saltHex ++ js ":" ++ finalHashHex password saltHex.

Definition verifyPassword (password storedHash : jstring) : bool :=
  match split 58 storedHash with
  | saltHex :: storedHashHex :: _ =>
      if negb (truthy (Some saltHex)) || negb (truthy (Some storedHashHex))
      then false
      else bool_decide (finalHashHex password saltHex = storedHashHex)
  | _ => false
  end.

(** A non-empty string of hexadecimal digits. *)
Definition hex_string (s : jstring) : bool :=
  negb (bool_decide (s = [])) && forallb (fun c => bool_decide (is_Some (hex_val c))) s.

(** A stored hash of the documented format, "salt:hash" with both parts hex
    strings: two non-empty runs of hexadecimal digits with one colon
    between them. *)
Definition salt_colon_hash (storedHash : jstring) : bool :=
  match split 58 storedHash with
  | [saltHex; hashHex] => hex_string saltHex && hex_string hashHex
  | _ => false
  end.

(** What [verifyPassword] asks of the shape of a stored hash before it
    compares anything: some text before the first colon, and some text
    after it. *)
Definition salt_and_hash_present (storedHash : jstring) : Prop :=
  exists salt hash, salt <> [] /\ hash <> [] /\ storedHash = salt ++ js ":" ++ hash.

End AuthService.

(** ** Publishing against the credential table

    The publish handlers read what the connect flows wrote: here the
    credential lookups of a world are answered from the table. *)

Module Connected.
Import Credentials.

Definition configured (w : world) : Prop :=
  Forall (fun k => truthy (env w k) = true)
    ["SUPABASE_URL"; "SUPABASE_KEY"; "VITE_SUPABASE_URL"; "SUPABASE_SERVICE_ROLE_KEY"].

(** The columns of a stored row that the publish handlers read. *)
Definition credentials_of (r : row) : credentials :=
  {| Net.access_token := access_token r;
     Net.expires_at := expires_at r;
     Net.account_id := account_id r;
     Net.account_name := account_name r |}.

(** [.select('*').eq('user_id', u).eq('platform', pf).single()] over the
    table: [single()] reports an error unless exactly one row matches. *)
Definition select_from (d : db) (u pf : jstring) : option credentials :=
  match rows_of (u, pf) d with
  | [r] => Some (credentials_of r)
  | _ => None
  end.

(** The world [w] with the credential lookups answered from the table. *)
Definition serve (d : db) (w : world) : world :=
  {| env := env w; now := now w;
     select_single := select_from d;
     fetch_answer := fetch_answer w |}.

(** *** Disconnecting *)

Definition disconnected : reply :=
  {| code := 200;
     sent := obj [("success", JBool true);
                  ("message", JStr (js "LinkedIn account disconnected successfully"))] |}.

Definition disconnect_failed (details : jstring) : reply :=
  {| code := 500;
     sent := obj [("error", JStr (js "Failed to disconnect LinkedIn account"));
                  ("details", JStr details)] |}.

Definition missing_userId : reply :=
  {| code := 400; sent := obj [("error", JStr (js "Missing required field: userId"))] |}.

(** The body shared by the two disconnect endpoints, [url] and [key] being
    what they hand to [createClient], [deleteError] the message of the error
    the delete reports, if any. *)
Definition disconnect_body (url key userId deleteError : option jstring) (d : db)
    : reply * db :=
  match userId with
  | Some ((_ :: _) as uid) =>
      if negb (truthy url) then (disconnect_failed (js "supabaseUrl is required."), d)
      else if negb (truthy key) then (disconnect_failed (js "supabaseKey is required."), d)
      else match deleteError with
           | Some msg => (disconnect_failed msg, d)
           | None => (disconnected, delete uid (js "linkedin") d)
           end
  | _ => (missing_userId, d)
  end.

(** The Express route [POST /api/linkedin/disconnect]. *)
Definition server_disconnect (env : string -> option jstring)
    (userId deleteError : option jstring) (d : db) : reply * db :=
  disconnect_body (env "SUPABASE_URL") (env "SUPABASE_KEY") userId deleteError d.

(** The serverless handler (api/linkedin/disconnect.ts). *)
Definition disconnect_handler (env : string -> option jstring) (verb : string)
    (userId deleteError : option jstring) (d : db) : reply * db :=
  if negb (String.eqb verb "POST") then
    ({| code := 405; sent := obj [("error", JStr (js "Method not allowed"))] |}, d)
  else
    disconnect_body (env "VITE_SUPABASE_URL") (env "SUPABASE_SERVICE_ROLE_KEY")
      userId deleteError d.

(** [handleDisconnect] of the connections screen: [confirmed] is the answer
    to the [confirm] dialog, [user] the signed-in user's id. *)
Definition handleDisconnect (confirmed : bool) (user : option jstring)
    (deleteError : option jstring) (cfg : SocialPlatform) (d : db) : db :=
  if negb confirmed then d
  else match user, deleteError with
       | Some uid, None => delete uid (js (dbPlatform cfg)) d
       | _, _ => d
       end.

(** [checkConnections]: the new value of [connectedPlatforms]. *)
Definition checkConnections (user : option jstring) (selectError : bool)
    (d : db) (connectedPlatforms : list jstring) : list jstring :=
  match user with
  | Some uid =>
      if selectError then connectedPlatforms
      else map platform (filter (fun r => user_id r = uid) (table d))
  | None => connectedPlatforms
  end.

(** [connectedPlatforms.includes(platform.dbPlatform)] *)
Definition isConnected (connectedPlatforms : list jstring) (cfg : SocialPlatform)
    : bool :=
  bool_decide (js (dbPlatform cfg) ∈ connectedPlatforms).

(** *** Sample worlds and flows *)

(** Nobody has a credential on file. *)
Definition nobody_world : world :=
  {| env := fun _ => Some (js "configured");
     now := 1700000000000%Z;
     select_single := fun _ _ => None;
     fetch_answer := fun _ => Rejected (js "fetch failed") |}.

(** The provider accepts whatever it is sent. *)
Definition accepting_world : world :=
  {| env := fun _ => Some (js "configured");
     now := 1700000000000%Z;
     select_single := fun _ _ => Some Samples.valid_credentials;
     fetch_answer := fun _ =>
       Resolved {| status := 201;
                   text := jsq "{'id':'urn:li:share:1','data':{'id':'1'}}" |} |}.

Definition accepted_answer : jsval :=
  obj [("id", JStr (js "urn:li:share:1")); ("data", obj [("id", JStr (js "1"))])].

(** The provider refuses the post. *)
Definition refusing_world : world :=
  {| env := fun _ => Some (js "configured");
     now := 1700000000000%Z;
     select_single := fun _ _ => Some Samples.valid_credentials;
     fetch_answer := fun _ =>
       Resolved {| status := 422; text := jsq "{'message':'Duplicate post'}" |} |}.

(** A run of the LinkedIn callback route for user [u1]: the state is the
    base64 text of the JSON document that names the user. *)
Definition sample_state : jstring := js "eyJ1c2VySWQiOiJ1MSJ9".

Definition sample_callback : callback_world :=
  {| cb_env := fun _ => Some (js "configured");
     cb_decode := fun s => if bool_decide (s = sample_state)
                           then jsq "{'userId':'u1'}" else [];
     cb_token := Some (200%Z, Some {| tk_access_token := Some (js "token-1");
                                      tk_expires_in := Some 5184000%Z;
                                      tk_scope := Some (js "openid profile w_member_social") |});
     cb_profile := Some (200%Z, Some {| sub := Some (js "member-1");
                                        name := Some (js "Ann");
                                        email := None; picture := None |});
     cb_now := 1700000000000%Z;
     cb_db_now := 1700000000001%Z |}.

Definition sample_query : callback_query :=
  {| q_code := Some (js "code"); q_state := Some sample_state; q_error := None |}.

Definition sample_twitter_data : twitter_data :=
  {| td_access_token := Some (js "x-token"); td_refresh_token := None;
     td_token_type := None; td_expires_in := Some 7200%Z;
     td_scope := Some (js "tweet.read tweet.write") |}.

(** A LinkedIn session as the generic popup flow hands it over. *)
Definition popup_session : session :=
  {| provider_token := Some (js "popup-token"); provider_refresh_token := None;
     expires_in := Some 3600%Z; app_provider := Some (Some (js "linkedin")) |}.

Definition linkedin_platform : SocialPlatform :=
  {| id := "linkedin"; dbPlatform := "linkedin"; provider := "linkedin";
     platform_scopes := "w_member_social,r_liteprofile" |}.

End Connected.

(** ** The CSV preview and the upload screen (utils/csvHelper,
    components/ContactUpload) *)

Module CsvTools.
Import Csv.

(** [l.slice(1, e)] for an integer [e]: a negative end counts from the end
    of the array. *)
Definition slice1 {A} (l : list A) (e : Z) : list A :=
  let len := Z.of_nat (length l) in
  let final := if (e <? 0)%Z then Z.max (len + e) 0 else Z.min e len in
  take (Z.to_nat (final - 1)) (drop 1 l).

(** [getCsvPreview(fileContent, rowCount)]: the headers and the rows. *)
Definition getCsvPreview (fileContent : jstring) (rowCount : Z)
    : list jstring * list (list jstring) :=
  match lines fileContent with
  | [] => ([], [])
  | l :: _ => (cells l, map cells (slice1 (lines fileContent) (rowCount + 1)))
  end.

(** The required field [f] is mapped to a header the column check of
    [parseCsvWithMapping] can find: the mapping names a header of the file
    other than [__proto__]. *)
Definition covered (mapping : ColumnMapping) (headers : list jstring) (f : field)
    : bool :=
  truthy (mapping f)
  && bool_decide (default [] (mapping f) ∈ headers)
  && negb (jeq (default [] (mapping f)) (js "__proto__")).


(** *** The upload screen (components/ContactUpload) *)

(** [s.includes(sub)] *)
Fixpoint includes (s sub : jstring) : bool :=
  starts_with false sub s
  || match s with
     | [] => false
     | _ :: s' => includes s' sub
     end.

Section Upload.
(** [String.prototype.toLowerCase], which follows the Unicode case
    mappings. *)
Variable toLowerCase : jstring -> jstring.

(** [value.trim().toLowerCase().replace(/[\s_-]+/g, '')] *)
Definition normalise (value : jstring) : jstring :=
  List.filter (fun c => negb (is_space c || N.eqb c 95 || N.eqb c 45))
              (toLowerCase (trim value)).

(** The three [find]s of [normaliseMapping], joined by [||]: an exact match
    of the normalised names first, then containment either way. *)
Definition matchedHeader (headers : list jstring) (normalizedAiHeader : jstring)
    : option jstring :=
  match find (fun h => bool_decide (normalise h = normalizedAiHeader)) headers with
  | Some h => Some h
  | None =>
      match find (fun h => includes (normalise h) normalizedAiHeader) headers with
      | Some h => Some h
      | None => find (fun h => includes normalizedAiHeader (normalise h)) headers
      end
  end.

Definition normaliseMapping (aiMapping : ColumnMapping) (headers : list jstring)
    : ColumnMapping :=
  fun f =>
    if truthy (aiMapping f)
    then Some (default [] (matchedHeader headers (normalise (default [] (aiMapping f)))))
    else Some [].

(** How [analyseCsv] ends: one of the errors it throws, or the preview
    stage with what it stores. *)
Inductive analysis :=
| EmptyCsv                                   (* "The CSV appears to be empty ..." *)
| AiFailed
| UnableToIdentify (missingFields : list field)
| ParserThrew (r : result)
| NoCompleteContacts
| Preview (contacts : list ParsedContact) (invalidRows : nat)
          (mapping : ColumnMapping) (headers : list jstring).

(** [analyseCsv(content)], [aiMapping] being what [detectCsvColumns]
    resolves to ([None] when it throws). *)
Definition analyseCsv (content : jstring) (aiMapping : option ColumnMapping)
    : analysis :=
  let preview := getCsvPreview content 5 in
  if length (fst preview) =? 0 then EmptyCsv
  else
    match aiMapping with
    | None => AiFailed
    | Some ai =>
        let resolvedMapping := normaliseMapping ai (fst preview) in
        match List.filter (fun f => negb (truthy (resolvedMapping f))) REQUIRED_FIELDS with
        | (_ :: _) as missingFields => UnableToIdentify missingFields
        | [] =>
            match parseCsvWithMapping content resolvedMapping with
            | Parsed [] _ => NoCompleteContacts
            | Parsed parsedContacts invalidRows =>
                Preview parsedContacts invalidRows resolvedMapping (fst preview)
            | r => ParserThrew r
            end
        end
    end.
End Upload.

(** A header line and nothing else. *)
Definition header_only : jstring := js "Name,Email,Company,Title" ++ [13; 10]%N.

(** One complete contact, in a file whose first column is called
    [hasOwnProperty]; and the same contact without that column. *)
Definition shadowing_csv : jstring :=
  js "hasOwnProperty,Name,Email,Company,Title" ++ [10%N] ++ js "1,A B,a@x.io,C,T".

Definition unshadowed_csv : jstring :=
  js "Name,Email,Company,Title" ++ [10%N] ++ js "A B,a@x.io,C,T".

(** A file whose name column is called [__proto__], and the mapping that
    names it. *)
Definition proto_csv : jstring :=
  js "__proto__,Email,Company,Title" ++ [10%N] ++ js "A B,a@x.io,C,T".

Definition proto_mapping : ColumnMapping :=
  fun f => match f with
           | firstName | lastName => Some (js "__proto__")
           | email => Some (js "Email")
           | company => Some (js "Company")
           | title => Some (js "Title")
           end.

(** A mapping that leaves the title unmapped and names a missing column. *)
Definition partial_mapping : ColumnMapping :=
  fun f => match f with
           | firstName | lastName => Some (js "Name")
           | email => Some (js "Email")
           | company => Some (js "Employer")
           | title => None
           end.

End CsvTools.

(** ** What a save changes in the database *)

Module SaveTools.
Import SaveContent.

(** The rows of [generated_content] a run has changed: the [update]s that
    the database accepted, in order. *)
Definition accepted_updates (w : world) (t : list event) : list jstring :=
  omap (fun e => match e with
                 | Update id text md =>
                     match update_error w id text md with
                     | None => Some id
                     | Some _ => None
                     end
                 | _ => None
                 end) t.

(** The temporary image in the metadata [md] can be stored under [path]: it
    is a string whose base64 part [atob] decodes, and the bucket accepts the
    upload of the decoded bytes. *)
Definition storable (w : world) (path : jstring) (md : jsval) : Prop :=
  exists base64 bytes,
    prop_opt md "temp_base64_image" = JStr base64 /\
    atob w (strip_data_url base64) = Some bytes /\
    upload w path bytes = None.

(** The database refuses the update of item 8. *)
Definition refusing_update_world : world :=
  {| now := 1700000000000%Z;
     atob := fun s => Some s;
     upload := fun _ _ => None;
     getPublicUrl := fun path => js "https://cdn.example.com/" ++ path;
     insert_error := fun _ => None;
     update_error := fun id _ _ =>
       if bool_decide (id = js "8") then Some (js "row is locked") else None |}.

Definition first_item : item :=
  {| id := js "7"; type := JStr (js "blog"); subtype := JNull;
     generated_text := JStr (js "Hello");
     metadata := obj [("title", JStr (js "T"));
                      ("temp_base64_image", JStr (js "data:image/png;base64,iVBORw0KGgo="))] |}.

Definition second_item : item :=
  {| id := js "8"; type := JStr (js "social"); subtype := JStr (js "post");
     generated_text := JStr (js "Hi");
     metadata := obj [("title", JStr (js "U"))] |}.

Definition third_item : item :=
  {| id := js "9"; type := JStr (js "social"); subtype := JStr (js "post");
     generated_text := JStr (js "Ho");
     metadata := obj [("title", JStr (js "V"))] |}.

End SaveTools.

(** ** Regenerating an image or a text (services/gemini_content_service,
    components/ResultsEdit) *)

Module Regenerate.
Import Gemini.

(** The answer of the image model as the SDK types it: every level may be
    missing. *)
Record blob := { data : option jstring }.
Record part := { inlineData : option blob }.
Record content := { parts : option (list part) }.
Record candidate := { content_of : option content }.
Record response := { candidates : option (list candidate) }.

Record world := {
  text_world : Gemini.world;
  (** [ai.models.generateContent({ model, contents })] for the image model:
      [None] when the promise rejects. *)
  generateImage : jstring -> jstring -> option response
}.

Definition lift {A} (m : @prog Gemini.world event A) : @prog world event A :=
  fun w => m (text_world w).

Definition image_model : jstring := js "gemini-2.5-flash-image".

(** [p.inlineData?.data] *)
Definition image_data (p : part) : option jstring := inlineData p ≫= data.

(** [response.candidates?.[0]?.content?.parts?.find(p => p.inlineData?.data)] *)
Definition image_part (r : response) : option part :=
  cs ← candidates r;
  c ← head cs;
  ct ← content_of c;
  ps ← parts ct;
  find (fun p => truthy (image_data p)) ps.

Definition data_url (base64 : jstring) : jstring :=
  js "data:image/png;base64," ++ base64.

Definition generateImageWithGemini (prompt : jstring) : @prog world event jstring :=
  let* _ := lift getGeminiClient in
  let* answer := call (Generate image_model prompt)
                      (fun w => generateImage w image_model prompt) in
  let* response := of_option "generateContent rejected" answer in
  match image_part response with
  | None => throw (js "Gemini did not return an image.")
  | Some p => ret (data_url (default [] (image_data p)))
  end.

(** [regenerateContentText], from the point where the prompt text has been
    built (pure string formatting). *)
Definition regenerateContentText (prompt : jstring) : @prog world event jstring :=
  let* _ := lift getGeminiClient in
  let* answer := call (Generate model prompt)
                      (fun w => generateContent (text_world w) model prompt) in
  let* text := of_option "generateContent rejected" answer in
  ret (trim (rawText text)).

(** [handleRegenerateImage] of the edit screen on the item it is called for:
    the item afterwards. *)
Definition handleRegenerateImage (it : SaveContent.item)
    : @prog world event SaveContent.item :=
  let* prompt := of_option "Cannot read properties of undefined"
                   (prop (SaveContent.metadata it) "image_prompt") in
  match prompt with
  | JStr p =>
      if negb (truthy (Some p)) || negb (truthy (Some (trim p))) then ret it
      else
        try_catch
          (let* base64Image := generateImageWithGemini p in
           let* md1 := of_option "Cannot create property on a primitive"
                         (SaveContent.set_prop (SaveContent.metadata it)
                            "generated_image_url" (JStr base64Image)) in
           let* md2 := of_option "Cannot create property on a primitive"
                         (SaveContent.set_prop md1 "temp_base64_image"
                            (JStr base64Image)) in
           ret {| SaveContent.id := SaveContent.id it;
                  SaveContent.type := SaveContent.type it;
                  SaveContent.subtype := SaveContent.subtype it;
                  SaveContent.generated_text := SaveContent.generated_text it;
                  SaveContent.metadata := md2 |})
          (fun _ => ret it)
  | _ =>
      if truthy_val prompt then throw (js "prompt.trim is not a function")
      else ret it
  end.

(** *** A sample regeneration *)

Definition image_answer : response :=
  {| candidates :=
       Some [ {| content_of :=
                   Some {| parts :=
                             Some [ {| inlineData := None |};
                                    {| inlineData := Some {| data := Some (js "iVBORw0KGgo=") |} |} ] |} |} ] |}.

Definition image_world : world :=
  {| text_world := fenced_world;
     generateImage := fun _ _ => Some image_answer |}.

Definition no_key_image_world : world :=
  {| text_world := no_key_world;
     generateImage := fun _ _ => Some image_answer |}.

Definition prompted_item : SaveContent.item :=
  {| SaveContent.id := js "7"; SaveContent.type := JStr (js "blog");
     SaveContent.subtype := JNull;
     SaveContent.generated_text := JStr (js "Hello");
     SaveContent.metadata := obj [("image_prompt", JStr (js "a red kite"))] |}.

End Regenerate.

(** ** Accounts (services/authService): sign-up and sign-in *)

Module Accounts.
Import AuthService.

(** A row of [public.user]. *)
Record row := {
  id : jstring;
  name : option jstring;
  sector : option jstring;
  contact_email : option jstring;
  password_hash : option jstring;
  created_at : Z
}.

Record User := {
  u_id : jstring;
  u_name : option jstring;
  u_contact_email : option jstring;
  u_sector : option jstring;
  u_created_at : Z
}.

Record AuthSession := {
  user : User;
  access_token : jstring;
  expires_at : Z
}.

Definition SESSION_DURATION : Z := 7 * 24 * 60 * 60 * 1000.

Record world := {
  (** [String.prototype.toLowerCase] *)
  toLowerCase : jstring -> jstring;
  now : Z;                          (* [Date.now()] *)
  db_now : Z;                       (* [now()] of the database *)
  token_bytes : list N;             (* the 32 random bytes of [generateToken] *)
  salt_bytes : list N;              (* the 16 random bytes of [hashPassword] *)
  new_id : jstring;                 (* [gen_random_uuid()] *)
  (** the error a [select] reports for a reason other than the number of
      rows: its code and message *)
  select_error : option (jstring * jstring);
  insert_error : option jstring
}.

(** What a call leaves behind: the table, and the session handed to
    [saveSession], if any. *)
Record outcome := {
  reply : jstring + User;
  table : list row;
  saved : option AuthSession
}.

(** [email.toLowerCase().trim()] *)
Definition normalised (w : world) (email : jstring) : jstring :=
  trim (toLowerCase w email).

(** [.eq('contact_email', e)] *)
Definition with_email (e : jstring) (t : list row) : list row :=
  List.filter (fun r => bool_decide (contact_email r = Some e)) t.

Definition user_of (r : row) : User :=
  {| u_id := id r; u_name := name r; u_contact_email := contact_email r;
     u_sector := sector r; u_created_at := created_at r |}.

(** [generateToken()] *)
Definition generateToken (w : world) : jstring := hex (token_bytes w).

Definition session_for (w : world) (r : row) : AuthSession :=
  {| user := user_of r; access_token := generateToken w;
     expires_at := (now w + SESSION_DURATION)%Z |}.

Definition refuse (msg : string) (t : list row) : outcome :=
  {| reply := inl (js msg); table := t; saved := None |}.

(** The second half of [signUp]: hash, insert, session. *)
Definition create (w : world) (email password name_ : jstring) (t : list row)
    : outcome :=
  let password_hash := hashPassword (salt_bytes w) password in
  match insert_error w with
  | Some message => {| reply := inl message; table := t; saved := None |}
  | None =>
      let newUser :=
        {| id := new_id w; name := Some (trim name_); sector := None;
           contact_email := Some (normalised w email);
           password_hash := Some password_hash;
           created_at := db_now w |} in
      {| reply := inr (user_of newUser); table := t ++ [newUser];
         saved := Some (session_for w newUser) |}
  end.

Definition signUp (w : world) (email password name_ : jstring) (t : list row)
    : outcome :=
  match select_error w with
  | Some (code, message) =>
      if negb (bool_decide (code = js "PGRST116"))
      then {| reply := inl message; table := t; saved := None |}
      else (* [existingUsers] is [null] *) create w email password name_ t
  | None =>
      match with_email (normalised w email) t with
      | _ :: _ => refuse "User with this email already exists" t
      | [] => create w email password name_ t
      end
  end.

Definition signIn (w : world) (email password : jstring) (t : list row)
    : outcome :=
  match select_error w, with_email (normalised w email) t with
  | None, [userData] =>
      match password_hash userData with
      | Some ((_ :: _) as storedHash) =>
          if verifyPassword password storedHash
          then {| reply := inr (user_of userData); table := t;
                  saved := Some (session_for w userData) |}
          else refuse "Invalid email or password" t
      | _ => refuse "Invalid email or password" t
      end
  | _, _ => refuse "Invalid email or password" t
  end.

(** The e-mail addresses on file. *)
Definition emails (t : list row) : list jstring := omap contact_email t.

(** *** A sample sign-up *)

Definition sample_world : world :=
  {| toLowerCase := map lower;
     now := 1700000000000%Z;
     db_now := 1700000000001%Z;
     token_bytes := repeat 205%N 32;
     salt_bytes := repeat 171%N 16;
     new_id := js "3f2b8c1e-0000-4000-8000-000000000001";
     select_error := None;
     insert_error := None |}.

Definition later_world : world :=
  {| toLowerCase := map lower;
     now := 1700000600000%Z;
     db_now := 1700000600001%Z;
     token_bytes := repeat 17%N 32;
     salt_bytes := repeat 34%N 16;
     new_id := js "3f2b8c1e-0000-4000-8000-000000000002";
     select_error := None;
     insert_error := None |}.

End Accounts.

(** ** Hexadecimal text *)

Module Hex.

(** A lower-case hexadecimal digit. *)
Definition is_lower_hex (c : N) : bool :=
  is_digit c || ((97 <=? c)%N && (c <=? 102)%N).

End Hex.

(** ** The subtype column of generated content (CampaignWorkspace,
    ResultsEdit, ResultsDisplay) *)

Module Composite.
Import AuthService CsvTools.

(** *** [JSON.stringify] *)

(** [\uXXXX], with lower-case digits. *)
Definition unicode_escape (c : N) : jstring :=
  [92; 117; hex_digit (c / 4096); hex_digit ((c / 256) mod 16);
   hex_digit ((c / 16) mod 16); hex_digit (c mod 16)]%N.

(** One code unit that is not the first half of a surrogate pair, as
    [JSON.stringify] writes it inside a string. *)
Definition quote_unit (c : N) : jstring :=
  if N.eqb c 8 then js "\b"
  else if N.eqb c 9 then js "\t"
  else if N.eqb c 10 then js "\n"
  else if N.eqb c 12 then js "\f"
  else if N.eqb c 13 then js "\r"
  else if N.eqb c 34 then [92; 34]%N
  else if N.eqb c 92 then js "\\"
  else if (c <? 32)%N || is_high c || is_low c then unicode_escape c
  else [c].

Fixpoint quote_from (s : jstring) : jstring :=
  match s with
  | [] => []
  | c :: s' =>
      if is_high c then
        match s' with
        | d :: s'' =>
            if is_low d then c :: d :: quote_from s''
            else unicode_escape c ++ quote_from s'
        | [] => unicode_escape c
        end
      else quote_unit c ++ quote_from s'
  end.

(** [JSON.stringify(s)] for a string [s]. *)
Definition quote (s : jstring) : jstring := 34%N :: quote_from s ++ [34%N].

(** The array index a property key stands for, if any: the canonical
    decimal text of an integer below 2^32 - 1. *)
Definition array_index (k : jstring) : option N :=
  match k with
  | [] => None
  | c :: k' =>
      if forallb is_digit k && (negb (N.eqb c 48) || bool_decide (k' = [])) then
        let n := Z.to_N (digits_val k) in
        if (n <? 4294967295)%N then Some n else None
      else None
  end.

Fixpoint insert_index {A} (n : N) (x : A) (l : list (N * A)) : list (N * A) :=
  match l with
  | [] => [(n, x)]
  | (m, y) :: l' => if (n <? m)%N then (n, x) :: l else (m, y) :: insert_index n x l'
  end.

(** The own properties in the order the language enumerates them: array
    indices first, in ascending order, then the other keys in the order
    they were created. *)
Definition own_entries {A} (o : list (jstring * A)) : list (jstring * A) :=
  map snd (foldr (fun kx acc => match array_index kx.1 with
                                | Some n => insert_index n kx acc
                                | None => acc
                                end) [] o)
  ++ List.filter (fun kx => negb (bool_decide (is_Some (array_index kx.1)))) o.

Section Stringify.
(** [Number.prototype.toString] of the number [m * 10^e]. *)
Variable Number_toString : Z -> Z -> jstring.

(** [JSON.stringify(v)]; [None] is the result [undefined]. *)
Fixpoint JSON_stringify (v : jsval) : option jstring :=
  match v with
  | JUndefined => None
  | JNull => Some (js "null")
  | JBool b => Some (if b then js "true" else js "false")
  | JNum m e => Some (Number_toString m e)
  | JStr s => Some (quote s)
  | JArr l =>
      Some (js "[" ++ join (js ",") (map (fun x => default (js "null") (JSON_stringify x)) l)
               ++ js "]")
  | JObj o =>
      Some (js "{"
            ++ join (js ",")
                 (omap (fun kt => t ← kt.2; Some (quote kt.1 ++ js ":" ++ t))
                       (own_entries (map (fun kx => (kx.1, JSON_stringify kx.2)) o)))
            ++ js "}")
  end.
End Stringify.

(** *** Writing the subtype column (CampaignWorkspace, saveContentToDatabase) *)

(** [a || b] *)
Definition or_val (a b : jsval) : jsval := if truthy_val a then a else b.

(** [{...v}]: the own enumerable properties of [v]. *)
Definition spread (v : jsval) : list (jstring * jsval) :=
  match v with
  | JObj o => o
  | JArr l => imap (fun i x => (SaveContent.dec (Z.of_nat i), x)) l
  | JStr s => imap (fun i c => (SaveContent.dec (Z.of_nat i), JStr [c])) s
  | _ => []
  end.

Definition knownPlatforms : list jstring :=
  map js ["facebook"; "twitter"; "linkedin"; "instagram"; "x"].

Record encoded := {
  finalSubtype : jsval;
  finalPlatform : jsval;
  compositeSubtype : jstring
}.

(** [{ original_subtype: fs, platform: fp }] *)
Definition members (fs fp : jsval) : list (jstring * jsval) :=
  [(js "original_subtype", fs); (js "platform", fp)].

Section Save.
Variable toLowerCase : jstring -> jstring.
Variable Number_toString : Z -> Z -> jstring.

(** [item.subtype && knownPlatforms.includes(item.subtype.toLowerCase())]
    as a condition; [None]: the TypeError of [toLowerCase] on a value that
    is not a string. *)
Definition isSubtypePlatform (subtype : jsval) : option bool :=
  match subtype with
  | JStr s => Some (truthy_val subtype && bool_decide (toLowerCase s ∈ knownPlatforms))
  | _ => if truthy_val subtype then None else Some false
  end.

(** The normalisation and the encoding of one item in the loop of
    [saveContentToDatabase]. *)
Definition encode_item (subtype platform : jsval) : option encoded :=
  isP ← isSubtypePlatform subtype;
  let finalSubtype := if isP : bool then JStr (js "post") else subtype in
  let finalPlatform := or_val platform (if isP then subtype else JNull) in
  compositeSubtype ← JSON_stringify Number_toString
                        (JObj (members finalSubtype finalPlatform));
  Some {| finalSubtype := finalSubtype; finalPlatform := finalPlatform;
          compositeSubtype := compositeSubtype |}.

End Save.

(** *** Reading the subtype column (ResultsEdit, loadResults) *)

(** [typeof v === 'object' && v !== null] *)
Definition is_object (v : jsval) : bool :=
  match v with
  | JObj _ | JArr _ => true
  | _ => false
  end.

(** [Object.values(v)] for an object or an array. *)
Definition Object_values (v : jsval) : list jsval :=
  match v with
  | JObj o => map snd (own_entries o)
  | JArr l => l
  | _ => []
  end.

(** The subtype and [platformFromSubtype] that [loadResults] reads out of
    the subtype column, a text column: a string or [null]. *)
Definition decode (subtype : option jstring) : jsval * jsval :=
  match subtype with
  | None => (JNull, JNull)
  | Some s =>
      if truthy subtype && (includes s (js "{") || starts_with false [34%N] s) then
        match JSON_parse s with
        | Some parsed =>
            if is_object parsed then
              (or_val (prop_opt parsed "original_subtype")
                 (or_val (prop_opt parsed "subtype")
                    (or_val (default JUndefined (head (Object_values parsed)))
                       (JStr s))),
               if truthy_val (prop_opt parsed "platform")
               then prop_opt parsed "platform" else JNull)
            else
              match parsed with
              | JStr p => (JStr p, JNull)
              | _ => (JStr s, JNull)
              end
        | None => (JStr s, JNull)
        end
      else (JStr s, JNull)
  end.

(** [typeof metadata === "string"]: parse it, [{}] when that throws. *)
Definition parsed_metadata (metadata : jsval) : jsval :=
  match metadata with
  | JStr m => default (JObj []) (JSON_parse m)
  | _ => metadata
  end.

(** One row as [loadResults] cleans it: the subtype and the metadata of the
    item it hands to the screen. *)
Definition cleaned (subtype : option jstring) (metadata : jsval) : jsval * jsval :=
  let '(subtype', platformFromSubtype) := decode subtype in
  let metadata1 := parsed_metadata metadata in
  let metadata2 :=
    if truthy_val platformFromSubtype
    then JObj (obj_set (js "platform") platformFromSubtype (spread metadata1))
    else metadata1 in
  (subtype',
   match metadata2 with
   | JUndefined | JNull => JObj []
   | _ => metadata2
   end).

(** [s.endsWith(suffix)] *)
Definition ends_with (suffix s : jstring) : bool :=
  starts_with false (rev suffix) (rev s).

(** The same columns as the results screen (ResultsDisplay) reads them. *)
Definition decode_display (subtype : option jstring) : jsval * jsval :=
  match subtype with
  | None => (JNull, JNull)
  | Some s =>
      if truthy subtype && starts_with false (js "{") s && ends_with (js "}") s then
        match JSON_parse s with
        | Some parsedSubtype =>
            match prop parsedSubtype "original_subtype", prop parsedSubtype "platform" with
            | Some st, Some pf => (st, pf)
            | _, _ => (JStr s, JNull)
            end
        | None => (JStr s, JNull)
        end
      else (JStr s, JNull)
  end.

(** The lexer run over a prefix of the text. *)
Fixpoint lex_run (s : jstring) (m : lex_mode) (toks : list token)
    : option (lex_mode * list token) :=
  match s with
  | [] => Some (m, toks)
  | c :: s' => '(m', toks') ← lex_step c m toks; lex_run s' m' toks'
  end.

(** The values the two members of the composite take here: a string or
    [null]. *)
Definition plain (v : jsval) : Prop :=
  match v with
  | JStr _ | JNull => True
  | _ => False
  end.

Definition token_of (v : jsval) : token :=
  match v with
  | JStr s => TStr s
  | _ => TLit v
  end.


End Composite.

(** ** The PKCE parameters of the X connect flow (components/SocialConnections) *)

Module Pkce.
Import AuthService.

(** [dec.toString(16)] for a byte. *)
Definition toString16 (dec : N) : jstring :=
  if (dec <? 16)%N then [hex_digit dec]
  else [hex_digit (dec / 16); hex_digit (dec mod 16)].

(** [s.substr(-2)] *)
Definition substr_last2 (s : jstring) : jstring := drop (length s - 2) s.

(** [generateCodeVerifier()], [array] being the 32 bytes that
    [crypto.getRandomValues] fills in. *)
Definition generateCodeVerifier (array : list N) : jstring :=
  concat (map (fun dec => substr_last2 (js "0" ++ toString16 dec)) array).

(** The base64 alphabet. *)
Definition base64_char (n : N) : N :=
  if (n <? 26)%N then (65 + n)%N
  else if (n <? 52)%N then (71 + n)%N
  else if (n <? 62)%N then (n - 4)%N
  else if N.eqb n 62 then 43%N
  else 47%N.

Fixpoint base64 (bytes : list N) : jstring :=
  match bytes with
  | [] => []
  | [a] => [base64_char (a / 4); base64_char ((a mod 4) * 16); 61; 61]%N
  | [a; b] =>
      [base64_char (a / 4); base64_char ((a mod 4) * 16 + b / 16);
       base64_char ((b mod 16) * 4); 61]%N
  | a :: b :: c :: bytes' =>
      [base64_char (a / 4); base64_char ((a mod 4) * 16 + b / 16);
       base64_char ((b mod 16) * 4 + c / 64); base64_char (c mod 64)]%N
      ++ base64 bytes'
  end.

(** [btoa(s)]; [None]: the InvalidCharacterError for a code unit above
    255. *)
Definition btoa (s : jstring) : option jstring :=
  if forallb (fun c => (c <? 256)%N) s then Some (base64 s) else None.

Fixpoint skip_equals (s : jstring) : jstring :=
  match s with
  | c :: s' => if N.eqb c 61 then skip_equals s' else s
  | [] => []
  end.

(** [s.replace(/=+$/, '')] *)
Definition strip_padding (s : jstring) : jstring := rev (skip_equals (rev s)).

(** [generateCodeChallenge(verifier)]; [String.fromCharCode(...bytes)] is
    the string whose code units are the bytes. *)
Definition generateCodeChallenge (verifier : jstring) : option jstring :=
  b ← btoa (sha256 (encode verifier));
  Some (strip_padding (replaceAll false (js "/") (js "_")
                         (replaceAll false (js "+") (js "-") b))).

(** A character that needs no escaping in a URL: a letter, a digit, [-]
    or [_]. *)
Definition is_base64url (c : N) : bool :=
  is_digit c || ((65 <=? c)%N && (c <=? 90)%N) || ((97 <=? c)%N && (c <=? 122)%N)
  || N.eqb c 45 || N.eqb c 95.

(** What the two [replace] calls do to one character. *)
Definition url_char (c : N) : N :=
  if N.eqb c 47 then 95%N else if N.eqb c 43 then 45%N else c.

End Pkce.

(** * Proofs *)

(** ** Strings *)

Module JsStringFacts.

Lemma split_nonempty sep s : split sep s <> [].
Proof.
  destruct s as [|c s]; simpl; [discriminate|].
  destruct (N.eqb c sep); [discriminate|].
  destruct (split sep s); discriminate.
Qed.

Lemma split_no_sep sep s : sep ∉ s -> split sep s = [s].
Proof.
  induction s as [|c s IH]; simpl; intros Hn; [reflexivity|].
  destruct (N.eqb_spec c sep) as [->|Hne].
  - exfalso. apply Hn. left.
  - rewrite IH; [reflexivity|]. intros Hin. apply Hn. right. exact Hin.
Qed.

Lemma split_app_sep sep a b :
  sep ∉ a -> split sep (a ++ [sep] ++ b) = a :: split sep b.
Proof.
  induction a as [|c a IH]; intros Hn.
  - simpl. rewrite N.eqb_refl. reflexivity.
  - change ((c :: a) ++ [sep] ++ b) with (c :: (a ++ [sep] ++ b)).
    cbn [split]. destruct (N.eqb_spec c sep) as [->|Hne].
    + exfalso. apply Hn. left.
    + rewrite IH; [reflexivity|]. intros Hin. apply Hn. right. exact Hin.
Qed.

(** [split] then [join] gives the string back. *)
Lemma join_split sep s : join [sep] (split sep s) = s.
Proof.
  induction s as [|c s IH]; simpl; [reflexivity|].
  destruct (N.eqb_spec c sep) as [->|Hne].
  - destruct (split sep s) as [|w ws] eqn:E; [destruct (split_nonempty _ _ E)|].
    simpl in *. rewrite IH. reflexivity.
  - destruct (split sep s) as [|w ws] eqn:E; [destruct (split_nonempty _ _ E)|].
    destruct ws; simpl in *; rewrite IH; reflexivity.
Qed.

(** The first two fields of a split, read back off the string. *)
Lemma split_two sep s a b rest :
  split sep s = a :: b :: rest -> exists tl, s = a ++ sep :: b ++ tl.
Proof.
  intros H. rewrite <- (join_split sep s), H.
  destruct rest as [|r rest].
  - exists []. simpl. rewrite app_nil_r. reflexivity.
  - exists (sep :: join [sep] (r :: rest)). reflexivity.
Qed.

Lemma truthy_nonempty (s : jstring) : s <> [] -> truthy (Some s) = true.
Proof. destruct s; [done|reflexivity]. Qed.

Lemma trimStart_head s :
  trimStart s = [] \/ exists c r, trimStart s = c :: r /\ is_space c = false.
Proof.
  induction s as [|c s IH]; simpl; [left; reflexivity|].
  destruct (is_space c) eqn:Hc; [exact IH|]. right. eauto.
Qed.

Lemma trimStart_snoc l c :
  is_space c = false -> exists l', trimStart (l ++ [c]) = l' ++ [c].
Proof.
  intros Hc. induction l as [|a l IH]; simpl.
  - rewrite Hc. exists []. reflexivity.
  - destruct (is_space a); [exact IH|]. exists (a :: l). reflexivity.
Qed.

Lemma trimEnd_cons c r :
  is_space c = false -> exists r', trimEnd (c :: r) = c :: r'.
Proof.
  intros Hc. unfold trimEnd. simpl.
  destruct (trimStart_snoc (rev r) c Hc) as [l' ->].
  rewrite rev_app_distr. simpl. eauto.
Qed.

(** A trimmed string is empty or starts with a code unit that is not white
    space. *)
Lemma trim_head s :
  trim s = [] \/ exists c r, trim s = c :: r /\ is_space c = false.
Proof.
  unfold trim. destruct (trimStart_head s) as [->|(c & r & -> & Hc)].
  - left. reflexivity.
  - right. destruct (trimEnd_cons c r Hc) as [r' ->]. eauto.
Qed.

Lemma trim_cons c r :
  is_space c = false -> exists r', trim (c :: r) = c :: r'.
Proof.
  intros Hc. unfold trim. simpl. rewrite Hc. apply trimEnd_cons, Hc.
Qed.

Example trim_example : trim (js "  a b  ") = js "a b".
Proof. reflexivity. Qed.

Example split_example :
  split 44 (js "a,,b,") = [js "a"; []; js "b"; []].
Proof. reflexivity. Qed.

Example replaceAll_example :
  replaceAll true (js "```json") [] (js "x```JSON```json y") = js "x y".
Proof. reflexivity. Qed.

End JsStringFacts.

Import JsStringFacts.

(** ** [JSON.parse] on examples *)

Module JsonTests.

Example JSON_parse_object :
  JSON_parse (jsq "{'content': [ {'type':'blog','n':-1.50e1}, null ], 'a':true}")
  = Some (JObj [(js "content",
                 JArr [JObj [(js "type", JStr (js "blog"));
                             (js "n", JNum (-150) (-1))]; JNull]);
                (js "a", JBool true)]).
Proof. vm_compute. reflexivity. Qed.

Example JSON_parse_escape :
  JSON_parse (jsq "'a\u0041\n'") = Some (JStr [97; 65; 10]%N).
Proof. vm_compute. reflexivity. Qed.

Example JSON_parse_rejects :
  map JSON_parse
    [[]; js "{"; js "[1,]"; js "01"; js "1 2"; js "nul"; js "{a:1}";
     jsq "{'a' 1}"; jsq "'abc"; js "[1}"; js "-"; js "1.e3"; js "tru e"]
  = repeat None 13.
Proof. vm_compute. reflexivity. Qed.

Example JSON_parse_scalars :
  map JSON_parse [js " 12 "; js "0"; js "-0.5"; js "2E+3"; js "null"; js "[]";
                  js "{}"; jsq "''"]
  = [Some (JNum 12 0); Some (JNum 0 0); Some (JNum (-5) (-1));
     Some (JNum 2 3); Some JNull; Some (JArr []); Some (JObj []);
     Some (JStr [])].
Proof. vm_compute. reflexivity. Qed.

End JsonTests.

(** ** Running programs *)

Section ProgFacts.
Context {W E A B : Type}.

Lemma run_bind (m : @prog W E A) (k : A -> @prog W E B) w :
  bind m k w =
  match m w with
  | (t, Ret a) => (t ++ (k a w).1, (k a w).2)
  | (t, Throw e) => (t, Throw e)
  end.
Proof.
  unfold bind. destruct (m w) as [t [a|e]]; [destruct (k a w)|]; reflexivity.
Qed.

Lemma run_try_catch (m : @prog W E A) (h : jstring -> @prog W E A) w :
  try_catch m h w =
  match m w with
  | (t, Ret a) => (t, Ret a)
  | (t, Throw e) => (t ++ (h e w).1, (h e w).2)
  end.
Proof.
  unfold try_catch. destruct (m w) as [t [a|e]]; [|destruct (h e w)]; reflexivity.
Qed.
End ProgFacts.

(** ** The publish handlers *)

Module PublishFacts.
Import Samples.

(** *** Tweets with an image link *)

(** C3, as stated, fails: the room left for the text is computed from the
    constant [URL_LENGTH = 23], not from the length of the image URL.  A
    300-unit text with a 91-unit image URL is cut to 256 units, and
    256 + 1 + 91 exceeds 280; the tweet sent is 348 units long. *)
Lemma tweet_exceeds_limit_with_long_image_url :
  let text := repeat 97%N 300 in
  truthy (Some long_image_url) = true /\
  Twitter.availableChars < length text /\
  ~ (length (Twitter.truncated text) + 1 + length long_image_url <= 280) /\
  length (Twitter.tweetText text (Some long_image_url)) = 348.
Proof.
  split; [reflexivity|]. split; [vm_compute; lia|]. split.
  - intros H. vm_compute in H. lia.
  - reflexivity.
Qed.

(** C3, amended: with an image URL present and a text longer than the
    available room (256 code units), the tweet is the first 253 code units
    of the text, the ellipsis ["..."], a space and the URL.  The cut text is
    256 code units long, so with the fixed link budget it fills the limit
    exactly: [256 + 1 + URL_LENGTH = 280], where [URL_LENGTH = 23]; the
    length of the URL itself plays no part, and the tweet is
    [257 + imageUrl.length] code units long. *)
Theorem truncated_text_fits_link_budget text url :
  truthy (Some url) = true ->
  Twitter.availableChars < length text ->
  Twitter.tweetText text (Some url) = take 253 text ++ js "..." ++ js " " ++ url /\
  length (take 253 text) = 253 /\
  length (take 253 text ++ js "...") = 256 /\
  length (take 253 text ++ js "...") + 1 + Twitter.URL_LENGTH
    = Twitter.TWITTER_CHAR_LIMIT /\
  length (Twitter.tweetText text (Some url)) = 257 + length url.
Proof.
  intros Hu Hlen.
  assert (Hcut : Twitter.truncated text = take 253 text ++ js "...").
  { unfold Twitter.truncated.
    destruct (Nat.ltb_spec Twitter.availableChars (length text)) as [_|Hge]; [|lia].
    reflexivity. }
  assert (H253 : length (take 253 text) = 253).
  { rewrite length_take. change Twitter.availableChars with 256 in Hlen. lia. }
  assert (H256 : length (take 253 text ++ js "...") = 256).
  { rewrite length_app, H253. reflexivity. }
  assert (Htweet : Twitter.tweetText text (Some url)
                   = take 253 text ++ js "..." ++ js " " ++ url).
  { unfold Twitter.tweetText. rewrite Hu, Hcut, <- app_assoc. reflexivity. }
  split; [exact Htweet|]. split; [exact H253|]. split; [exact H256|]. split.
  - rewrite H256. reflexivity.
  - rewrite Htweet, !length_app, H253. change (length (js "...")) with 3.
    change (length (js " ")) with 1. lia.
Qed.

Lemma truncated_text_fits_link_budget_witness :
  let text := repeat 97%N 300 in
  Twitter.tweetText text (Some long_image_url)
    = take 253 text ++ js "..." ++ js " " ++ long_image_url /\
  length (take 253 text) = 253 /\
  length (take 253 text ++ js "...") = 256 /\
  length (take 253 text ++ js "...") + 1 + Twitter.URL_LENGTH
    = Twitter.TWITTER_CHAR_LIMIT /\
  length (Twitter.tweetText text (Some long_image_url)) = 257 + length long_image_url.
Proof.
  apply (truncated_text_fits_link_budget (repeat 97%N 300) long_image_url).
  - reflexivity.
  - vm_compute. lia.
Defined.

(** A text that already fits is sent unchanged. *)
Lemma short_text_not_truncated text :
  length text <= Twitter.availableChars -> Twitter.truncated text = text.
Proof.
  intros H. unfold Twitter.truncated.
  destruct (Nat.ltb_spec Twitter.availableChars (length text)); [lia|reflexivity].
Qed.

(** *** The token-expiry check *)

(** C1 at a failing input: every stored credential expired in 2020 and the
    clock reads 2023.  The LinkedIn handler answers "LinkedIn token
    expired" after the credential lookup alone; both Twitter handlers go on
    and send the tweet to the provider with the stale token. *)
Theorem twitter_posts_with_expired_credential :
  LinkedIn.expired stale_credentials (now expired_world) = true /\
  LinkedIn.handler (POST hello) expired_world
    = ([DbSelect (js "u1") (js "linkedin")], Ret LinkedIn.token_expired) /\
  (Twitter.handler (POST hello) expired_world).1
    = [DbSelect (js "u1") (js "x");
       Fetch (Twitter.tweet_call (js "stale-token") (js "hello"))] /\
  (Twitter.server_post hello expired_world).1
    = [DbSelect (js "u1") (js "x");
       Fetch (Twitter.tweet_call (js "stale-token") (js "hello"))].
Proof. repeat split; vm_compute; reflexivity. Qed.

(** What the caller of the Twitter handler is told there: the provider's
    own 401, relayed. *)
Lemma twitter_reply_with_expired_credential :
  (Twitter.handler (POST hello) expired_world).2
  = Ret {| code := 401;
           sent := obj [("error", JStr (js "Unauthorized"));
                        ("details", obj [("title", JStr (js "Unauthorized"));
                                         ("detail", JStr (js "Unauthorized"));
                                         ("status", JNum 401 0)])] |}.
Proof. vm_compute. reflexivity. Qed.

Section Request.
Variables (w : world) (b : post_body) (c : credentials).
Variables (uid text : jstring).
Hypothesis Huid : userId b = Some uid.
Hypothesis Huid_ne : uid <> [].
Hypothesis Htext : text_ b = Some text.
Hypothesis Htext_ne : text <> [].

Lemma truthy_uid : truthy (userId b) = true.
Proof. rewrite Huid. apply truthy_nonempty, Huid_ne. Qed.

Lemma truthy_text : truthy (text_ b) = true.
Proof. rewrite Htext. apply truthy_nonempty, Htext_ne. Qed.

(** The serverless LinkedIn handler refuses an expired credential before
    any request to the provider. *)
Lemma linkedin_expired_credential_refused :
  truthy (env w "VITE_SUPABASE_URL") = true ->
  truthy (env w "SUPABASE_SERVICE_ROLE_KEY") = true ->
  length text <= 3000 ->
  select_single w uid (js "linkedin") = Some c ->
  LinkedIn.expired c (now w) = true ->
  LinkedIn.handler (POST b) w
  = ([DbSelect uid (js "linkedin")], Ret LinkedIn.token_expired).
Proof.
  intros Hu Hk Hlen Hsel Hexp.
  unfold LinkedIn.handler, POST. simpl. rewrite run_try_catch. simpl.
  rewrite truthy_uid, truthy_text, Huid, Htext. simpl.
  destruct (Nat.ltb_spec 3000 (length text)); [lia|].
  repeat (rewrite ?run_bind; unfold ask, single, call, createClient, ret; simpl;
          rewrite ?Hu, ?Hk, ?Hsel, ?Hexp; simpl).
  reflexivity.
Qed.

(** So does the Express route. *)
Lemma linkedin_server_expired_credential_refused :
  truthy (env w "SUPABASE_URL") = true ->
  truthy (env w "SUPABASE_KEY") = true ->
  length text <= 3000 ->
  select_single w uid (js "linkedin") = Some c ->
  LinkedIn.expired c (now w) = true ->
  LinkedIn.server_post b w
  = ([DbSelect uid (js "linkedin")], Ret LinkedIn.token_expired).
Proof.
  intros Hu Hk Hlen Hsel Hexp.
  unfold LinkedIn.server_post. rewrite run_try_catch. simpl.
  rewrite truthy_uid, truthy_text, Huid, Htext. simpl.
  destruct (Nat.ltb_spec 3000 (length text)); [lia|].
  repeat (rewrite ?run_bind; unfold ask, single, call, createClient, ret; simpl;
          rewrite ?Hu, ?Hk, ?Hsel, ?Hexp; simpl).
  reflexivity.
Qed.

Lemma post_tweet_trace tok t i :
  exists tl, (Twitter.post_tweet tok t i w).1
             = Fetch (Twitter.tweet_call (access_token tok) (Twitter.tweetText t i)) :: tl.
Proof.
  unfold Twitter.post_tweet. rewrite run_bind. unfold fetch at 1.
  rewrite run_bind. unfold call at 1. simpl.
  destruct (fetch_answer w _); simpl; eauto.
Qed.

(** The Twitter routes never look at [expires_at]: whenever a credential
    is stored, expired or not, the tweet is sent to the provider. *)
Lemma twitter_server_ignores_expiry :
  truthy (env w "SUPABASE_URL") = true ->
  truthy (env w "SUPABASE_KEY") = true ->
  select_single w uid (js "x") = Some c ->
  exists tl, (Twitter.server_post b w).1
    = DbSelect uid (js "x")
      :: Fetch (Twitter.tweet_call (access_token c)
                  (Twitter.tweetText text (imageUrl b))) :: tl.
Proof.
  intros Hu Hk Hsel.
  unfold Twitter.server_post. rewrite run_try_catch. simpl.
  rewrite truthy_uid, truthy_text, Huid, Htext. simpl.
  repeat (rewrite ?run_bind; unfold ask, single, call, createClient, ret; simpl;
          rewrite ?Hu, ?Hk, ?Hsel; simpl).
  destruct (post_tweet_trace c text (imageUrl b)) as [tl Htl].
  destruct (Twitter.post_tweet c text (imageUrl b) w) as [t [r|e]];
    simpl in *; rewrite Htl; simpl; eauto.
Qed.
End Request.

(** *** The LinkedIn text-length guard *)

(** C5: a LinkedIn publish request whose text is longer than 3000 code
    units is answered with an error by both handlers, and the trace of
    external calls is empty: no credential lookup, no provider call. *)
Theorem linkedin_long_text_rejected_before_any_call
    (req : incoming) (w : world) (text : jstring) :
  text_ (fields req) = Some text ->
  3000 < length text ->
  (exists r, LinkedIn.handler req w = ([], Ret r) /\ is_error r) /\
  (exists r, LinkedIn.server_post (fields req) w = ([], Ret r) /\ is_error r).
Proof.
  intros Htext Hlen.
  assert (Ht : truthy (text_ (fields req)) = true).
  { rewrite Htext. destruct text; [simpl in Hlen; lia|reflexivity]. }
  assert (Hl : (3000 <? length text) = true) by (apply Nat.ltb_lt; lia).
  assert (E1 : is_error LinkedIn.missing_fields)
    by (split; [vm_compute; discriminate | eexists; reflexivity]).
  assert (E2 : is_error (LinkedIn.too_long text))
    by (split; [vm_compute; discriminate | eexists; reflexivity]).
  split.
  - unfold LinkedIn.handler.
    destruct (String.eqb (verb req) "POST"); simpl.
    + rewrite run_try_catch. rewrite Ht, Htext. simpl. rewrite Hl.
      destruct (truthy (userId (fields req))); simpl;
        eexists; (split; [reflexivity|assumption]).
    + eexists. split; [reflexivity|].
      split; [vm_compute; discriminate | eexists; reflexivity].
  - unfold LinkedIn.server_post. rewrite run_try_catch. rewrite Ht, Htext. simpl.
    rewrite Hl.
    destruct (truthy (userId (fields req))); simpl;
      eexists; (split; [reflexivity|assumption]).
Qed.

Lemma linkedin_long_text_rejected_witness :
  (exists r, LinkedIn.handler (POST too_long_body) expired_world = ([], Ret r)
             /\ is_error r) /\
  (exists r, LinkedIn.server_post too_long_body expired_world = ([], Ret r)
             /\ is_error r).
Proof.
  apply (linkedin_long_text_rejected_before_any_call
           (POST too_long_body) expired_world (repeat 120%N 3001)).
  - reflexivity.
  - rewrite repeat_length. lia.
Defined.

(** *** Failure of the image upload *)

(** C6 at a failing input: the provider refuses the upload registration.
    The Express route answers 500 after the registration attempt and never
    creates the post: the [catch] that is meant to fall back to a text
    link assigns to the [const] binding [text].  The serverless handler, in
    the same world, creates the post without media. *)
Theorem server_image_failure_fails_whole_publish :
  LinkedIn.server_post with_image register_refused_world
  = ([DbSelect (js "u1") (js "linkedin");
      Fetch (LinkedIn.register_call (js "token") (Some (js "member-1")))],
     Ret {| code := 500;
            sent := obj [("error", JStr (js "Failed to post to LinkedIn"));
                         ("details", JStr (js "Assignment to constant variable."))] |}) /\
  (LinkedIn.handler (POST with_image) register_refused_world).1
  = [DbSelect (js "u1") (js "linkedin");
     Fetch (LinkedIn.register_call (js "token") (Some (js "member-1")));
     Fetch (LinkedIn.post_call (js "token")
              (LinkedIn.postPayload (Some (js "member-1")) (js "hello")
                 "NONE" JUndefined))].
Proof. split; vm_compute; reflexivity. Qed.

Lemma create_post_trace tok payload w :
  (LinkedIn.create_post tok payload w).1 = [Fetch (LinkedIn.post_call tok payload)].
Proof.
  unfold LinkedIn.create_post. rewrite run_bind.
  unfold fetch at 1. rewrite run_bind. unfold call at 1. simpl.
  destruct (fetch_answer w _) as [e|resp]; simpl; [reflexivity|].
  destruct (negb (ok resp)); simpl; [reflexivity|].
  rewrite run_bind. unfold json.
  destruct (JSON_parse (Net.text resp)) as [d|]; simpl; [|reflexivity].
  rewrite run_bind. destruct (prop d "id"); reflexivity.
Qed.

Section Fallback.
Variables (w : world) (b : post_body) (c : credentials).
Variables (uid text image : jstring).
Hypothesis Huid : userId b = Some uid.
Hypothesis Huid_ne : uid <> [].
Hypothesis Htext : text_ b = Some text.
Hypothesis Htext_ne : text <> [].
Hypothesis Himage : imageUrl b = Some image.
Hypothesis Himage_ne : image <> [].
Hypothesis Hlen : length text <= 3000.
Hypothesis Hsel : select_single w uid (js "linkedin") = Some c.
Hypothesis Hexp : LinkedIn.expired c (now w) = false.

(** In the serverless handler a failure of any step of the image upload
    (registration, download, upload, or a malformed registration answer)
    is caught, and the post is created without media. *)
Lemma handler_image_failure_falls_back t msg :
  truthy (env w "VITE_SUPABASE_URL") = true ->
  truthy (env w "SUPABASE_SERVICE_ROLE_KEY") = true ->
  truthy (account_id c) = true ->
  LinkedIn.upload_image (access_token c) (account_id c) image w = (t, Throw msg) ->
  (LinkedIn.handler (POST b) w).1
  = DbSelect uid (js "linkedin") :: t ++
    [Fetch (LinkedIn.post_call (access_token c)
              (LinkedIn.postPayload (account_id c) text "NONE" JUndefined))].
Proof.
  intros Hu Hk Hacc Hup.
  assert (Hstage : LinkedIn.image_stage (access_token c) (account_id c) (imageUrl b) w
                   = (t, Ret ("NONE", JUndefined))).
  { unfold LinkedIn.image_stage. rewrite Himage, (truthy_nonempty _ Himage_ne). simpl.
    rewrite run_try_catch, run_bind, Hup. simpl. rewrite app_nil_r. reflexivity. }
  unfold LinkedIn.handler, POST. simpl. rewrite run_try_catch. simpl.
  rewrite (truthy_uid b uid Huid Huid_ne), (truthy_text b text Htext Htext_ne),
    Huid, Htext.
  simpl. destruct (Nat.ltb_spec 3000 (length text)); [lia|].
  repeat (rewrite ?run_bind; unfold ask, single, call, createClient, ret; simpl;
          rewrite ?Hu, ?Hk, ?Hsel, ?Hexp, ?Hacc, ?Hstage; simpl).
  pose proof (create_post_trace (access_token c)
                (LinkedIn.postPayload (account_id c) text "NONE" JUndefined) w) as Hp.
  destruct (LinkedIn.create_post _ _ w) as [tp [r|e]]; simpl in *; subst tp.
  - reflexivity.
  - rewrite app_nil_r. reflexivity.
Qed.

(** In the Express route the same failure ends the request: the handler
    of the image error itself throws, and no post is created. *)
Lemma server_image_failure_no_post t msg :
  truthy (env w "SUPABASE_URL") = true ->
  truthy (env w "SUPABASE_KEY") = true ->
  LinkedIn.server_upload_image (access_token c) (account_id c) image w
    = (t, Throw msg) ->
  LinkedIn.server_post b w
  = (DbSelect uid (js "linkedin") :: t,
     Ret {| code := 500;
            sent := obj [("error", JStr (js "Failed to post to LinkedIn"));
                         ("details", JStr (js "Assignment to constant variable."))] |}).
Proof.
  intros Hu Hk Hup.
  assert (Hstage : LinkedIn.server_image_stage (access_token c) (account_id c)
                     (imageUrl b) w
                   = (t, Throw (js "Assignment to constant variable."))).
  { unfold LinkedIn.server_image_stage.
    rewrite Himage, (truthy_nonempty _ Himage_ne). simpl.
    rewrite run_try_catch, Hup. simpl. rewrite app_nil_r. reflexivity. }
  unfold LinkedIn.server_post. rewrite run_try_catch. simpl.
  rewrite (truthy_uid b uid Huid Huid_ne), (truthy_text b text Htext Htext_ne),
    Huid, Htext.
  simpl. destruct (Nat.ltb_spec 3000 (length text)); [lia|].
  repeat (rewrite ?run_bind; unfold ask, single, call, createClient, ret; simpl;
          rewrite ?Hu, ?Hk, ?Hsel, ?Hexp, ?Hstage; simpl).
  rewrite app_nil_r. reflexivity.
Qed.
End Fallback.

End PublishFacts.

(** ** The credential table *)

Module CredentialsFacts.
Import Credentials.

Lemma has_key_true k r : has_key k r = true <-> key r = k.
Proof. unfold has_key. apply bool_decide_eq_true. Qed.

Lemma existsb_has_key k t : existsb (has_key k) t = true <-> k ∈ map key t.
Proof.
  rewrite existsb_exists. split.
  - intros (r & Hin & Hk). apply has_key_true in Hk. subst k.
    apply list_elem_of_In, in_map, Hin.
  - intros Hin. apply list_elem_of_In, in_map_iff in Hin as (r & Hk & Hin).
    exists r. split; [assumption|]. apply has_key_true, Hk.
Qed.

Lemma keys_update_where k f t :
  (forall r, key (f r) = key r) ->
  map key (update_where k f t) = map key t.
Proof.
  intros Hf. induction t as [|r t IH]; simpl; [reflexivity|].
  rewrite IH. destruct (has_key k r); [rewrite Hf|]; reflexivity.
Qed.

Lemma key_merged now tok p r : key (merged now tok p r) = key r.
Proof. reflexivity. Qed.

Lemma filter_key_update_where k f t :
  (forall r, key (f r) = key r) ->
  filter (fun r => key r = k) (update_where k f t)
  = map f (filter (fun r => key r = k) t).
Proof.
  intros Hf. induction t as [|r t IH]; simpl; [reflexivity|].
  destruct (has_key k r) eqn:Hk.
  - apply has_key_true in Hk.
    rewrite !filter_cons, Hf. destruct (decide (key r = k)); [|done].
    simpl. rewrite IH. reflexivity.
  - rewrite !filter_cons.
    destruct (decide (key r = k)) as [e|n].
    + apply has_key_true in e. congruence.
    + apply IH.
Qed.

Lemma filter_key_absent (k : jstring * jstring) (t : list row) :
  k ∉ map key t -> filter (fun r => key r = k) t = [].
Proof.
  induction t as [|r t IH]; simpl; intros Hn; [reflexivity|].
  rewrite filter_cons. destruct (decide (key r = k)) as [e|n].
  - exfalso. apply Hn. rewrite e. left.
  - apply IH. intros Hin. apply Hn. right. exact Hin.
Qed.

Lemma filter_key_unique (k : jstring * jstring) (t : list row) :
  NoDup (map key t) -> k ∈ map key t ->
  exists r, filter (fun r => key r = k) t = [r] /\ key r = k.
Proof.
  induction t as [|r t IH]; simpl; intros Hnd Hin.
  - inversion Hin.
  - apply NoDup_cons in Hnd as [Hnot Hnd]. rewrite filter_cons.
    destruct (decide (key r = k)) as [e|n].
    + exists r. split; [|exact e]. f_equal. apply filter_key_absent.
      rewrite <- e. exact Hnot.
    + apply IH; [exact Hnd|]. inversion Hin; subst; [congruence|assumption].
Qed.

Lemma reflects_merged now u pf tok p old :
  p_user_id p = Some u -> p_platform p = Some pf -> p_access_token p = Some tok ->
  key old = (u, pf) ->
  reflects p (merged now tok p old).
Proof.
  intros Hu Hpf Htok Hk. unfold key in Hk. inversion Hk.
  unfold reflects, merged, carried; simpl. rewrite Hu, Hpf, Htok.
  repeat split; try done;
    match goal with |- match ?o with _ => _ end => destruct o; done end.
Qed.

Lemma reflects_proposed now u pf tok p :
  p_user_id p = Some u -> p_platform p = Some pf -> p_access_token p = Some tok ->
  reflects p (proposed now u pf tok p).
Proof.
  intros Hu Hpf Htok.
  unfold reflects, proposed, carried; simpl. rewrite Hu, Hpf, Htok.
  repeat split; try done;
    match goal with |- match ?o with _ => _ end => destruct o; done end.
Qed.

(** One successful upsert: the invariant is kept, and the written key has
    exactly one row, which holds what was sent. *)
Lemma upsert_one_row now p d d' u pf :
  unique d ->
  p_user_id p = Some u -> p_platform p = Some pf ->
  upsert now p d = inr d' ->
  unique d' /\ exists r, rows_of (u, pf) d' = [r] /\ reflects p r.
Proof.
  unfold unique, rows_of, upsert. intros Hnd Hu Hpf Hup.
  rewrite Hu, Hpf in Hup.
  destruct (p_access_token p) as [tok|] eqn:Htok; [|discriminate].
  destruct (negb (existsb (jeq pf) allowed_platforms)); [discriminate|].
  destruct (existsb (has_key (u, pf)) (table d)) eqn:Hex.
  - inversion Hup; subst d'; clear Hup. simpl.
    apply existsb_has_key in Hex.
    rewrite keys_update_where by apply key_merged.
    split; [exact Hnd|].
    rewrite filter_key_update_where by apply key_merged.
    destruct (filter_key_unique _ _ Hnd Hex) as (old & -> & Hk).
    eexists. split; [reflexivity|]. eapply reflects_merged; eassumption.
  - destruct (negb (existsb (jeq u) (users d))); [discriminate|].
    inversion Hup; subst d'; clear Hup. simpl.
    assert (Hnot : (u, pf) ∉ map key (table d)).
    { intros Hin. apply existsb_has_key in Hin. congruence. }
    split.
    + rewrite map_app. apply NoDup_app. split; [exact Hnd|]. split.
      * intros x Hx Hx'. simpl in Hx'. apply list_elem_of_singleton in Hx'. subst x.
        exact (Hnot Hx).
      * apply NoDup_singleton.
    + rewrite filter_app, (filter_key_absent _ _ Hnot). simpl.
      rewrite filter_cons, filter_nil.
      destruct (decide (key (proposed now u pf tok p) = (u, pf))); [|done].
      eexists. split; [reflexivity|]. apply reflects_proposed; assumption.
Qed.

Lemma upsert_keeps_unique now p d d' :
  unique d -> upsert now p d = inr d' -> unique d'.
Proof.
  intros Hnd Hup.
  destruct (p_user_id p) as [u|] eqn:Hu; [|unfold upsert in Hup; rewrite Hu in Hup; discriminate].
  destruct (p_platform p) as [pf|] eqn:Hpf; [|unfold upsert in Hup; rewrite Hu, Hpf in Hup; discriminate].
  eapply upsert_one_row; eassumption.
Qed.

Lemma store_keeps_unique now p d : unique d -> unique (store now p d).2.
Proof.
  intros Hnd. unfold store. destruct (upsert now p d) eqn:Hup; simpl; [exact Hnd|].
  eapply upsert_keeps_unique; eassumption.
Qed.

Lemma delete_keeps_unique u pf d : unique d -> unique (delete u pf d).
Proof.
  unfold unique, delete; simpl. intros Hnd.
  induction (table d) as [|r t IH]; simpl; [constructor|].
  apply NoDup_cons in Hnd as [Hnot Hnd]. rewrite filter_cons.
  destruct (decide (key r ≠ (u, pf))); [|apply IH, Hnd].
  simpl. apply NoDup_cons. split; [|apply IH, Hnd].
  intros Hin. apply Hnot.
  apply list_elem_of_fmap in Hin as (r' & -> & Hin').
  apply list_elem_of_filter in Hin' as [_ Hin'].
  apply list_elem_of_fmap. exists r'. split; [reflexivity|assumption].
Qed.

Ltac flow_cases :=
  repeat match goal with
         | |- unique (store _ _ _).2 => apply store_keeps_unique; assumption
         | |- unique (_, ?d).2 => simpl; assumption
         | |- context [match ?x with _ => _ end] => destruct x
         end.

Lemma handleAuthCallback_keeps_unique user intended now db_now s d :
  unique d -> unique (handleAuthCallback user intended now db_now s d).2.
Proof. intros Hnd. unfold handleAuthCallback. flow_cases. Qed.

Lemma handleTwitterCallback_keeps_unique user now db_now data d :
  unique d -> unique (handleTwitterCallback user now db_now data d).2.
Proof. intros Hnd. unfold handleTwitterCallback. flow_cases. Qed.

Lemma linkedin_callback_keeps_unique w q d :
  unique d -> unique (linkedin_callback w q d).2.
Proof. intros Hnd. unfold linkedin_callback. flow_cases. Qed.


(** C2: on a table with at most one row per (user, platform), two upserts
    with the same key that both go through leave exactly one row under that
    key, and every column the second write carries holds the second
    write's value (the BEFORE UPDATE trigger owns [updated_at]); and the
    table keeps the invariant through whatever a connect flow stores:
    [handleAuthCallback], [handleTwitterCallback], the LinkedIn callback
    route, and any other upsert or disconnect. *)
Theorem credential_upsert_twice_leaves_one_row (d : db) :
  unique d ->
  (forall now1 now2 p1 p2 d1 d2 u pf,
      p_user_id p1 = Some u -> p_platform p1 = Some pf ->
      p_user_id p2 = Some u -> p_platform p2 = Some pf ->
      upsert now1 p1 d = inr d1 ->
      upsert now2 p2 d1 = inr d2 ->
      unique d2 /\ exists r, rows_of (u, pf) d2 = [r] /\ reflects p2 r) /\
  (forall user intended now db_now s,
      unique (handleAuthCallback user intended now db_now s d).2) /\
  (forall user now db_now data,
      unique (handleTwitterCallback user now db_now data d).2) /\
  (forall w q, unique (linkedin_callback w q d).2) /\
  (forall db_now p, unique (store db_now p d).2) /\
  (forall u pf, unique (delete u pf d)).
Proof.
  intros Hnd. split; [|repeat split].
  - intros now1 now2 p1 p2 d1 d2 u pf Hu1 Hpf1 Hu2 Hpf2 H1 H2.
    eapply upsert_one_row; [|eassumption|eassumption|eassumption].
    eapply upsert_keeps_unique; eassumption.
  - intros. apply handleAuthCallback_keeps_unique, Hnd.
  - intros. apply handleTwitterCallback_keeps_unique, Hnd.
  - intros. apply linkedin_callback_keeps_unique, Hnd.
  - intros. apply store_keeps_unique, Hnd.
  - intros. apply delete_keeps_unique, Hnd.
Qed.

Example connect_twice :
  (handleAuthCallback (Some (js "u1")) (Some (js "facebook")) 2000 2001 second_write
     (handleAuthCallback (Some (js "u1")) (Some (js "facebook")) 1000 1000
        first_write sample_db).2)
  = (Connected, {| users := [js "u1"]; table := [reconnected_row] |}).
Proof. vm_compute. reflexivity. Qed.

(** A column the second write does not carry keeps what the first write put
    there: reconnecting LinkedIn through [handleAuthCallback] replaces the
    token and keeps the account id stored by the callback route. *)
Example columns_not_carried_are_kept :
  exists d1 r,
    upsert 1000 linkedin_write sample_db = inr d1 /\
    (handleAuthCallback (Some (js "u1")) (Some (js "linkedin")) 2000 2001
       second_write d1).2 = {| users := [js "u1"]; table := [r] |} /\
    access_token r = js "token-2" /\
    account_id r = Some (js "member-1").
Proof. eexists _, _. vm_compute. repeat split. Qed.

Lemma credential_upsert_twice_witness :
  unique sample_db /\
  exists d1 d2,
    upsert 1000 (sample_payload first_write 1000) sample_db = inr d1 /\
    upsert 2001 (sample_payload second_write 2000) d1 = inr d2 /\
    unique d2 /\
    exists r, rows_of (js "u1", js "facebook") d2 = [r]
              /\ reflects (sample_payload second_write 2000) r.
Proof.
  assert (Hu : unique sample_db) by constructor.
  split; [exact Hu|].
  destruct (credential_upsert_twice_leaves_one_row sample_db Hu) as [Htwice _].
  eexists _, _. split; [vm_compute; reflexivity|]. split; [vm_compute; reflexivity|].
  eapply (Htwice 1000%Z 2001%Z (sample_payload first_write 1000)
            (sample_payload second_write 2000)); reflexivity.
Defined.

End CredentialsFacts.

(** ** CSV import *)

Module CsvFacts.
Import Csv.

Lemma split_ws_head c r :
  is_space c = false -> exists w ws, split_ws (c :: r) = (c :: w) :: ws.
Proof.
  intros Hc. simpl. rewrite Hc. destruct (split_ws r); eauto.
Qed.

(** A cell read by [getValue] is trimmed: empty, or starting with a
    code unit that is not white space. *)
Lemma getValue_head him values h :
  getValue him values h = [] \/
  exists c r, getValue him values h = c :: r /\ is_space c = false.
Proof.
  unfold getValue, cell. destruct (truthy h); [|left; reflexivity].
  destruct (own _ him); [|left; reflexivity].
  destruct (values !! _); [apply trim_head|left; reflexivity].
Qed.

Lemma splitFullName_nonempty c r :
  is_space c = false ->
  exists w l, splitFullName (c :: r) = (c :: w, l).
Proof.
  intros Hc. unfold splitFullName.
  destruct (trim_cons c r Hc) as [r' ->].
  destruct (split_ws_head c r' Hc) as (w & ws & ->).
  destruct ws; eauto.
Qed.

(** The test of [row_step] is the emptiness of one of the five cells. *)
Lemma row_test_missing_any mapping him values :
  let v := values_of mapping him values in
  is_empty (v firstName) || is_empty (v lastName) || is_empty (v email)
    || is_empty (v company) || is_empty (v title)
  = missing_any mapping him values.
Proof.
  unfold missing_any, REQUIRED_FIELDS, values_of. simpl. rewrite orb_false_r, !orb_assoc.
  destruct (truthy (combinedNameHeader mapping)) eqn:Hc; [|reflexivity].
  assert (Hsame : mapping firstName = mapping lastName).
  { unfold combinedNameHeader in Hc.
    destruct (bool_decide (mapping firstName = mapping lastName)) eqn:Hd.
    - apply bool_decide_eq_true in Hd. exact Hd.
    - rewrite andb_false_r in Hc. discriminate. }
  rewrite <- Hsame.
  destruct (getValue_head him values (mapping firstName)) as [->|(c & r & -> & Hn)].
  - reflexivity.
  - destruct (splitFullName_nonempty c r Hn) as (w & l & ->). simpl.
    destruct l; reflexivity.
Qed.

Lemma row_step_spec mapping headers him acc values :
  row_step mapping headers him acc values =
  if missing_any mapping him values
  then (acc.1, S acc.2)
  else (acc.1 ++ [contact_of mapping headers him values], acc.2).
Proof.
  unfold row_step. rewrite (row_test_missing_any mapping him values). reflexivity.
Qed.

Lemma fold_rows mapping headers him rows cs n :
  fold_left (row_step mapping headers him) rows (cs, n) =
  (cs ++ map (contact_of mapping headers him)
           (filter (fun r => missing_any mapping him r = false) rows),
   n + length (filter (fun r => missing_any mapping him r = true) rows)).
Proof.
  revert cs n. induction rows as [|r rows IH]; intros cs n; simpl.
  - rewrite app_nil_r, Nat.add_0_r. reflexivity.
  - rewrite row_step_spec, !filter_cons. simpl.
    destruct (missing_any mapping him r) eqn:Hm.
    + rewrite IH. destruct (decide (true = false)); [discriminate|].
      destruct (decide (true = true)); [|done]. simpl.
      f_equal. lia.
    + rewrite IH. destruct (decide (false = false)); [|done].
      destruct (decide (false = true)); [discriminate|]. simpl.
      rewrite <- app_assoc. reflexivity.
Qed.

Lemma filter_partition (rows : list (list jstring)) (f : list jstring -> bool) :
  length (filter (fun r => f r = false) rows)
  + length (filter (fun r => f r = true) rows) = length rows.
Proof.
  induction rows as [|r rows IH]; simpl; [reflexivity|].
  rewrite !filter_cons. destruct (f r); simpl;
    repeat match goal with |- context [decide ?P] => destruct (decide P); try done end;
    simpl; lia.
Qed.

Lemma dataRows_short content :
  length (lines content) < 2 -> dataRows content = [].
Proof.
  unfold dataRows, sanitizeRows. intros H.
  destruct (lines content) as [|l [|l' ls]]; simpl in *; try reflexivity; lia.
Qed.

(** When the column check of [parseCsvWithMapping] finds no missing column,
    the call returns; the returned contacts are exactly the data rows with
    no required cell empty, in order; [invalidRows] is the number of data
    rows with a required cell empty; and the two add up to the number of
    data rows. *)
Lemma parseCsvWithMapping_counts_invalid_rows content mapping :
  let headerIndexMap := index_headers (rawHeaders content) 0 [] in
  missingColumns mapping headerIndexMap REQUIRED_FIELDS = Some [] ->
  exists contacts invalidRows,
    parseCsvWithMapping content mapping = Parsed contacts invalidRows /\
    contacts = map (contact_of mapping (rawHeaders content) headerIndexMap)
                   (filter (fun r => missing_any mapping headerIndexMap r = false)
                           (dataRows content)) /\
    invalidRows = length (filter (fun r => missing_any mapping headerIndexMap r = true)
                                 (dataRows content)) /\
    length contacts + invalidRows = length (dataRows content).
Proof.
  intros him Hcov. unfold parseCsvWithMapping. fold him.
  destruct (Nat.ltb_spec (length (lines content)) 2) as [Hshort|Hlong].
  - rewrite (dataRows_short _ Hshort). exists [], 0. repeat split.
  - rewrite Hcov, fold_rows. simpl.
    eexists _, _. split; [reflexivity|]. split; [reflexivity|]. split; [reflexivity|].
    rewrite length_map. apply filter_partition.
Qed.

Example parse_sample_csv :
  exists ann,
    parseCsvWithMapping sample_csv sample_mapping = Parsed [ann] 2 /\
    c_firstName ann = js "Ann" /\ c_lastName ann = js "Mary Lee" /\
    c_email ann = js "ann@x.io".
Proof. eexists. vm_compute. repeat split. Qed.

(** A header row with a column called [hasOwnProperty] makes the column
    check itself fail with a TypeError; a column called [__proto__] is
    never found. *)
Example shadowed_hasOwnProperty :
  parseCsvWithMapping
    (js "hasOwnProperty,Name,Email,Company,Title" ++ [10%N] ++ js "1,A B,a@x.io,C,T")
    sample_mapping
  = NotAFunction.
Proof. vm_compute. reflexivity. Qed.

End CsvFacts.

(** ** Saving content with a temporary image *)

Module SaveFacts.
Import SaveContent SaveTools.

Lemma jeq_refl k : jeq k k = true.
Proof. apply bool_decide_eq_true. reflexivity. Qed.

Lemma obj_get_set k v o : obj_get k (obj_set k v o) = Some v.
Proof.
  induction o as [|[k' v'] o IH]; simpl.
  - rewrite jeq_refl. reflexivity.
  - destruct (jeq k k') eqn:E; simpl; rewrite ?jeq_refl, ?E; auto.
Qed.

Lemma obj_get_delete k o : obj_get k (obj_delete k o) = None.
Proof.
  induction o as [|[k' v'] o IH]; simpl; [reflexivity|].
  destruct (jeq k k') eqn:E; simpl; rewrite ?E; auto.
Qed.

Lemma obj_get_delete_ne k k' o :
  k <> k' -> obj_get k (obj_delete k' o) = obj_get k o.
Proof.
  intros Hne. induction o as [|[k'' v''] o IH]; simpl; [reflexivity|].
  destruct (jeq k' k'') eqn:E; simpl.
  - apply bool_decide_eq_true in E. subst k''.
    rewrite IH. destruct (jeq k k') eqn:E'; [|reflexivity].
    apply bool_decide_eq_true in E'. contradiction.
  - rewrite IH. reflexivity.
Qed.

Lemma finalize_ret md path w t md' :
  finalize md path w = (t, Ret md') -> finalized w md path t md'.
Proof.
  unfold finalize, finalized.
  destruct (prop_opt md "temp_base64_image") as [| | | |base64| |] eqn:Ht;
    try (unfold throw; discriminate).
  rewrite run_bind. unfold uploadBase64Image.
  rewrite run_bind. unfold ask at 1. simpl.
  rewrite run_bind.
  destruct (atob w (strip_data_url base64)) as [bytes|] eqn:Ha; simpl;
    [|unfold throw; discriminate].
  rewrite run_bind. unfold call at 1. simpl.
  destruct (upload w path bytes) as [e|] eqn:Hu; simpl; [unfold throw; discriminate|].
  unfold ask. simpl. rewrite run_bind.
  destruct md as [| | | | | |o]; simpl; try (unfold throw; discriminate).
  unfold ret. simpl. intros H. inversion H; subst; clear H.
  exists base64, bytes. repeat split; try assumption.
  - simpl. rewrite obj_get_delete_ne by (vm_compute; discriminate).
    rewrite obj_get_set. reflexivity.
  - simpl. rewrite obj_get_delete. reflexivity.
Qed.

Lemma finalize_trace md path w :
  Forall (fun e => exists p b, e = Upload p b) (finalize md path w).1.
Proof.
  unfold finalize.
  destruct (prop_opt md "temp_base64_image"); try (constructor).
  rewrite run_bind. unfold uploadBase64Image.
  rewrite run_bind. unfold ask at 1. simpl.
  rewrite run_bind.
  destruct (atob w (strip_data_url s)) as [bytes|]; simpl; [|constructor].
  rewrite run_bind. unfold call at 1. simpl.
  destruct (upload w path bytes); simpl.
  - repeat constructor. eauto.
  - rewrite run_bind. destruct (set_prop _ _ _); simpl; repeat constructor; eauto.
Qed.

Lemma final_item_trace campaign user i it w :
  only_uploads (final_item campaign user i it w).1.
Proof.
  unfold final_item. rewrite run_bind.
  destruct (prop (metadata it) "generated_image_url"); simpl; [|constructor].
  rewrite run_bind.
  destruct (carries_temp_image (metadata it)).
  - rewrite run_bind. unfold ask at 1. simpl. rewrite run_bind.
    pose proof (finalize_trace (metadata it) (review_path w campaign i) w) as Hf.
    destruct (finalize _ _ w) as [t [md|e]]; simpl in *.
    + rewrite !app_nil_r. exact Hf.
    + exact Hf.
  - simpl. constructor.
Qed.

Lemma final_item_ret campaign user i it w t r :
  final_item campaign user i it w = (t, Ret r) ->
  if carries_temp_image (metadata it)
  then finalized w (metadata it) (review_path w campaign i) t (row_metadata r)
       /\ generated_image_path r = Some (review_path w campaign i)
  else t = [] /\ row_metadata r = metadata it.
Proof.
  unfold final_item. rewrite run_bind.
  destruct (prop (metadata it) "generated_image_url"); simpl; [|discriminate].
  rewrite run_bind.
  destruct (carries_temp_image (metadata it)).
  - rewrite run_bind. unfold ask at 1. simpl. rewrite run_bind.
    destruct (finalize _ _ w) as [t' [md|e]] eqn:Hf; simpl; [|discriminate].
    unfold ret. simpl. intros H. inversion H; subst; clear H. simpl.
    rewrite !app_nil_r. split; [|reflexivity].
    apply finalize_ret, Hf.
  - unfold ret. simpl. intros H. inversion H; subst. split; reflexivity.
Qed.

Lemma final_items_trace campaign user items : forall i w,
  only_uploads (final_items campaign user i items w).1.
Proof.
  induction items as [|it items IH]; intros i w; simpl; [constructor|].
  rewrite run_bind.
  pose proof (final_item_trace campaign user i it w) as H1.
  destruct (final_item _ _ _ _ w) as [t [r|e]]; simpl in *; [|exact H1].
  rewrite run_bind. specialize (IH (S i) w).
  destruct (final_items _ _ _ _ w) as [t' [rs|e]]; simpl in *.
  - rewrite app_nil_r. apply Forall_app; split; assumption.
  - apply Forall_app; split; assumption.
Qed.

(** The rows [final_items] builds, item by item. *)
Lemma final_items_ret campaign user items : forall i w t rows,
  final_items campaign user i items w = (t, Ret rows) ->
  length rows = length items /\
  forall j it r, items !! j = Some it -> rows !! j = Some r ->
    carries_temp_image (metadata it) = true ->
    exists t', finalized w (metadata it) (review_path w campaign (i + j)) t' (row_metadata r)
               /\ t' ⊆ t
               /\ generated_image_path r = Some (review_path w campaign (i + j)).
Proof.
  induction items as [|it items IH]; intros i w t rows; simpl.
  - unfold ret. intros H. inversion H; subst. split; [reflexivity|].
    intros j it r Hj. rewrite lookup_nil in Hj. discriminate.
  - rewrite run_bind.
    destruct (final_item _ _ _ _ w) as [t1 [r1|e]] eqn:H1; simpl; [|discriminate].
    rewrite run_bind.
    destruct (final_items _ _ _ _ w) as [t2 [rs|e]] eqn:H2; simpl; [|discriminate].
    unfold ret. simpl. intros H. inversion H; subst; clear H.
    destruct (IH _ _ _ _ H2) as [Hlen Hrows].
    split; [simpl; congruence|].
    intros j it' r Hj Hr Hc. destruct j as [|j]; simpl in Hj, Hr.
    + inversion Hj; inversion Hr; subst; clear Hj Hr.
      apply final_item_ret in H1. rewrite Hc in H1. destruct H1 as [Hf Hp].
      exists t1. rewrite Nat.add_0_r. split; [exact Hf|]. split; [|exact Hp].
      intros x Hx. apply elem_of_app. left. exact Hx.
    + destruct (Hrows j it' r Hj Hr Hc) as (t' & Hf & Hsub & Hp).
      exists t'. replace (i + S j) with (S i + j) by lia.
      split; [exact Hf|]. split; [|exact Hp].
      intros x Hx. apply elem_of_app. right. rewrite app_nil_r. apply Hsub, Hx.
Qed.

Lemma only_uploads_no_insert t rows : only_uploads t -> Insert rows ∉ t.
Proof.
  intros Hall Hin. eapply Forall_forall in Hall as (p & b & He); [|exact Hin].
  discriminate.
Qed.

(** A run of [approveAndSaveAll] that reaches the insert: everything before
    it is uploads. *)
Lemma approveAndSaveAll_insert campaign user items w rows :
  Insert rows ∈ (approveAndSaveAll campaign user items w).1 ->
  exists t, final_items campaign user 0 items w = (t, Ret rows) /\
            (approveAndSaveAll campaign user items w).1 = t ++ [Insert rows].
Proof.
  unfold approveAndSaveAll. rewrite run_try_catch, run_bind.
  pose proof (final_items_trace campaign user items 0 w) as Hup.
  destruct (final_items _ _ _ _ w) as [t [rs|e]] eqn:Hf; simpl in *.
  - rewrite run_bind. unfold call at 1. simpl.
    assert (Hcase : forall tl, Insert rows ∈ t ++ [Insert rs] ++ tl -> tl = [] -> rows = rs).
    { intros tl Hin ->. apply elem_of_app in Hin as [Hin|Hin].
      - exfalso. eapply only_uploads_no_insert; eassumption.
      - apply list_elem_of_singleton in Hin. congruence. }
    destruct (insert_error w rs); simpl; intros Hin.
    + assert (rows = rs) as -> by (eapply Hcase; [rewrite !app_nil_r in *; exact Hin|reflexivity]).
      exists t. split; [reflexivity|]. rewrite !app_nil_r. reflexivity.
    + assert (rows = rs) as -> by (eapply Hcase; [exact Hin|reflexivity]).
      exists t. split; [reflexivity|]. reflexivity.
  - rewrite app_nil_r. intros Hin. exfalso.
    eapply only_uploads_no_insert; eassumption.
Qed.

Lemma save_item_trace campaignId it w e :
  e ∈ (save_item campaignId it w).1 ->
  (exists p b, e = Upload p b) \/
  update_of w campaignId it (save_item campaignId it w).1 e.
Proof.
  unfold save_item. rewrite run_bind.
  destruct (prop (metadata it) "temp_base64_image") as [temp|] eqn:Hp; simpl;
    [|intros H; inversion H].
  assert (Hc : carries_temp_image (metadata it) = truthy_val temp).
  { unfold carries_temp_image, prop_opt. rewrite Hp. reflexivity. }
  rewrite run_bind. unfold update_of. rewrite Hc.
  destruct (truthy_val temp).
  - rewrite run_bind. unfold ask at 1. simpl.
    pose proof (finalize_trace (metadata it) (edit_path w campaignId it) w) as Hup.
    destruct (finalize _ _ w) as [t' [md|err]] eqn:Hf; simpl in *.
    + rewrite run_bind. unfold call at 1. simpl.
      set (tl := (match update_error w (id it) (generated_text it) md with
                  | Some e0 => throw e0 | None => ret tt end w).1).
      intros Hin. apply elem_of_app in Hin as [Hin|Hin].
      * left. eapply Forall_forall in Hup; eassumption.
      * assert (tl = []) as Htl by (subst tl; destruct (update_error _ _ _ _); reflexivity).
        rewrite Htl in *. simpl in Hin.
        apply list_elem_of_singleton in Hin. right. exists md. split; [exact Hin|].
        exists t'. split; [apply finalize_ret, Hf|].
        intros x Hx. apply elem_of_app. left. exact Hx.
    + intros Hin. left. eapply Forall_forall in Hup; eassumption.
  - unfold ret at 1. simpl. rewrite run_bind. unfold call at 1. simpl.
    intros Hin.
    assert (e = Update (id it) (generated_text it) (metadata it)) as ->.
    { destruct (update_error _ _ _ _); simpl in Hin;
        apply list_elem_of_singleton in Hin; exact Hin. }
    right. exists (metadata it). split; reflexivity.
Qed.

Lemma update_of_mono w campaignId it t t' e :
  update_of w campaignId it t e -> t ⊆ t' -> update_of w campaignId it t' e.
Proof.
  intros (md & He & H) Hsub. exists md. split; [exact He|].
  destruct (carries_temp_image (metadata it)); [|exact H].
  destruct H as (t0 & Hf & Ht0). exists t0. split; [exact Hf|].
  intros x Hx. apply Hsub, Ht0, Hx.
Qed.

Lemma save_items_trace campaignId results w e :
  e ∈ (save_items campaignId results w).1 ->
  (exists p b, e = Upload p b) \/
  exists it, it ∈ results /\
    update_of w campaignId it (save_items campaignId results w).1 e.
Proof.
  induction results as [|it results IH]; simpl; [intros H; inversion H|].
  rewrite run_bind.
  pose proof (save_item_trace campaignId it w e) as H1.
  destruct (save_item campaignId it w) as [t1 [[]|err]]; simpl in *.
  - intros Hin. apply elem_of_app in Hin as [Hin|Hin].
    + destruct (H1 Hin) as [Hu|Hu]; [left; exact Hu|].
      right. exists it. split; [left|].
      eapply update_of_mono; [exact Hu|].
      intros x Hx. apply elem_of_app. left. exact Hx.
    + destruct (IH Hin) as [Hu|(it' & Hit & Hu)]; [left; exact Hu|].
      right. exists it'. split; [right; exact Hit|].
      eapply update_of_mono; [exact Hu|].
      intros x Hx. apply elem_of_app. right. exact Hx.
  - intros Hin. destruct (H1 Hin) as [Hu|Hu]; [left; exact Hu|].
    right. exists it. split; [left|]. exact Hu.
Qed.

Lemma handleSaveChanges_trace campaignId results w :
  (handleSaveChanges campaignId results w).1 = (save_items campaignId results w).1.
Proof.
  unfold handleSaveChanges. rewrite run_try_catch, run_bind.
  destruct (save_items campaignId results w) as [t [[]|e]]; simpl;
    rewrite ?app_nil_r; reflexivity.
Qed.

(** [approveAndSaveAll] in terms of the preparation of the rows. *)
Lemma approveAndSaveAll_run campaign user items w :
  approveAndSaveAll campaign user items w =
  match final_items campaign user 0 items w with
  | (t, Ret rows) =>
      (t ++ [Insert rows],
       Ret (match insert_error w rows with Some _ => false | None => true end))
  | (t, Throw _) => (t, Ret false)
  end.
Proof.
  unfold approveAndSaveAll. rewrite run_try_catch, run_bind.
  destruct (final_items campaign user 0 items w) as [t [rows|e]]; simpl.
  - rewrite run_bind. unfold call at 1. simpl.
    destruct (insert_error w rows); simpl; rewrite ?app_nil_r; reflexivity.
  - rewrite app_nil_r. reflexivity.
Qed.

Lemma save_items_app campaignId pre post w :
  save_items campaignId (pre ++ post) w =
  match save_items campaignId pre w with
  | (t, Ret _) => (t ++ (save_items campaignId post w).1,
                   (save_items campaignId post w).2)
  | (t, Throw e) => (t, Throw e)
  end.
Proof.
  induction pre as [|it pre IH]; simpl.
  - destruct (save_items campaignId post w). reflexivity.
  - rewrite !run_bind.
    destruct (save_item campaignId it w) as [t1 [[]|e]]; [|reflexivity].
    simpl. rewrite IH.
    destruct (save_items campaignId pre w) as [t2 [[]|e]]; simpl;
      rewrite ?app_assoc; reflexivity.
Qed.

(** When the image can be stored, [finalize] uploads it and hands back the
    rewritten metadata. *)
Lemma finalize_live md path w :
  storable w path md ->
  exists bytes md',
    finalize md path w = ([Upload path bytes], Ret md') /\
    finalized w md path [Upload path bytes] md'.
Proof.
  intros (base64 & bytes & Hp & Ha & Hu).
  assert (Hrun : exists md', finalize md path w = ([Upload path bytes], Ret md')).
  { unfold finalize. rewrite Hp. rewrite run_bind. unfold uploadBase64Image.
    rewrite run_bind. unfold ask at 1. simpl. rewrite run_bind, Ha. simpl.
    rewrite run_bind. unfold call at 1. simpl. rewrite Hu. simpl.
    unfold ask. simpl. rewrite run_bind.
    destruct md as [| | | | | |o]; try discriminate.
    simpl. unfold ret. simpl. eauto. }
  destruct Hrun as [md' Hrun]. exists bytes, md'. split; [exact Hrun|].
  apply finalize_ret, Hrun.
Qed.

Lemma final_item_live campaign user i it w :
  is_Some (prop (metadata it) "generated_image_url") ->
  (carries_temp_image (metadata it) = true ->
   storable w (review_path w campaign i) (metadata it)) ->
  exists t r, final_item campaign user i it w = (t, Ret r).
Proof.
  intros [v Hv] Hst. unfold final_item. rewrite run_bind, Hv. simpl.
  rewrite run_bind. destruct (carries_temp_image (metadata it)).
  - destruct (finalize_live _ _ _ (Hst eq_refl)) as (bytes & md' & Hf & _).
    rewrite run_bind. unfold ask at 1. simpl. rewrite run_bind, Hf. simpl.
    unfold ret. simpl. eauto.
  - unfold ret. simpl. eauto.
Qed.

Lemma final_items_live campaign user items : forall i w,
  (forall j it, items !! j = Some it ->
     is_Some (prop (metadata it) "generated_image_url") /\
     (carries_temp_image (metadata it) = true ->
      storable w (review_path w campaign (i + j)) (metadata it))) ->
  exists t rows, final_items campaign user i items w = (t, Ret rows).
Proof.
  induction items as [|it items IH]; intros i w Hall; simpl.
  - unfold ret. eauto.
  - destruct (Hall 0 it eq_refl) as [Hmd Hst]. rewrite Nat.add_0_r in Hst.
    destruct (final_item_live campaign user i it w Hmd Hst) as (t1 & r1 & H1).
    destruct (IH (S i) w) as (t2 & rs & H2).
    { intros j it' Hj. replace (S i + j) with (i + S j) by lia. apply Hall. exact Hj. }
    rewrite run_bind, H1. simpl. rewrite run_bind, H2. simpl. unfold ret. simpl. eauto.
Qed.

(** The loop body of [handleSaveChanges] on an item whose image can be
    stored: the upload, then the update with the rewritten metadata. *)
Lemma save_item_live campaignId it w :
  carries_temp_image (metadata it) = true ->
  storable w (edit_path w campaignId it) (metadata it) ->
  exists bytes md',
    (save_item campaignId it w).1
      = [Upload (edit_path w campaignId it) bytes;
         Update (id it) (generated_text it) md'] /\
    finalized w (metadata it) (edit_path w campaignId it)
      [Upload (edit_path w campaignId it) bytes] md'.
Proof.
  intros Hc Hst.
  destruct (finalize_live _ _ _ Hst) as (bytes & md' & Hf & Hfin).
  exists bytes, md'. split; [|exact Hfin].
  unfold save_item. rewrite run_bind.
  destruct (prop (metadata it) "temp_base64_image") as [temp|] eqn:Hp.
  - assert (Ht : truthy_val temp = true).
    { unfold carries_temp_image, prop_opt in Hc. rewrite Hp in Hc. exact Hc. }
    simpl. rewrite run_bind, Ht. rewrite run_bind. unfold ask at 1. simpl.
    rewrite Hf. simpl. rewrite run_bind. unfold call at 1. simpl.
    destruct (update_error _ _ _ _); reflexivity.
  - unfold carries_temp_image, prop_opt in Hc. rewrite Hp in Hc. discriminate.
Qed.

(** C7.  The review screen ([approveAndSaveAll]): when every item has its
    metadata and every temporary image can be stored, the rows are
    inserted; and whenever the insert is reached, everything before it in
    the trace is uploads, there is one row per item, and for every item
    that carried a temporary base64 image the image was uploaded before
    the insert, the row's [metadata.generated_image_url] is the public URL
    of the uploaded file, and the row's metadata has no
    [temp_base64_image] any more.  The edit screen ([handleSaveChanges]):
    when the loop reaches an item whose temporary image can be stored, it
    uploads the image and then sends the update of that item, with the
    public URL in [generated_image_url] and without [temp_base64_image];
    and whatever the run does, every call it makes is an upload or such an
    update of one of the items. *)
Theorem saved_item_exposes_public_url (w : world) (campaign : jstring)
    (user : option jstring) (items : list item) :
  ((forall j it, items !! j = Some it ->
      is_Some (prop (metadata it) "generated_image_url") /\
      (carries_temp_image (metadata it) = true ->
       storable w (review_path w campaign j) (metadata it))) ->
   exists t rows,
     (approveAndSaveAll campaign user items w).1 = t ++ [Insert rows]) /\
  (forall rows,
      Insert rows ∈ (approveAndSaveAll campaign user items w).1 ->
      exists t,
        (approveAndSaveAll campaign user items w).1 = t ++ [Insert rows] /\
        only_uploads t /\
        length rows = length items /\
        forall j it r,
          items !! j = Some it -> rows !! j = Some r ->
          carries_temp_image (metadata it) = true ->
          exists t',
            finalized w (metadata it) (review_path w campaign j) t' (row_metadata r)
            /\ t' ⊆ t
            /\ generated_image_path r = Some (review_path w campaign j)) /\
  (forall pre it post t1,
      items = pre ++ it :: post ->
      save_items campaign pre w = (t1, Ret tt) ->
      carries_temp_image (metadata it) = true ->
      storable w (edit_path w campaign it) (metadata it) ->
      exists bytes md' tl,
        (handleSaveChanges campaign items w).1
          = t1 ++ Upload (edit_path w campaign it) bytes
               :: Update (id it) (generated_text it) md' :: tl /\
        finalized w (metadata it) (edit_path w campaign it)
          [Upload (edit_path w campaign it) bytes] md') /\
  (forall e,
      e ∈ (handleSaveChanges campaign items w).1 ->
      (exists p b, e = Upload p b) \/
      exists it, it ∈ items /\
        update_of w campaign it (handleSaveChanges campaign items w).1 e).
Proof.
  split; [|split; [|split]].
  - intros Hall.
    destruct (final_items_live campaign user items 0 w Hall) as (t & rows & Hf).
    exists t, rows. rewrite approveAndSaveAll_run, Hf. reflexivity.
  - intros rows Hin.
    destruct (approveAndSaveAll_insert _ _ _ _ _ Hin) as (t & Hf & Ht).
    exists t. split; [exact Ht|]. split.
    + pose proof (final_items_trace campaign user items 0 w) as Hup.
      rewrite Hf in Hup. exact Hup.
    + destruct (final_items_ret _ _ _ _ _ _ _ Hf) as [Hlen Hrows].
      split; [exact Hlen|]. exact Hrows.
  - intros pre it post t1 -> Hpre Hc Hst.
    destruct (save_item_live campaign it w Hc Hst) as (bytes & md' & Htr & Hfin).
    rewrite handleSaveChanges_trace, save_items_app, Hpre. cbn [fst].
    cbn [save_items]. rewrite run_bind.
    destruct (save_item campaign it w) as [t2 [[]|err]] eqn:Hit; cbn [fst] in Htr |- *;
      subst t2; eexists bytes, md', _; (split; [|exact Hfin]).
    + cbn [app]. reflexivity.
    + cbn [app]. reflexivity.
  - intros e. rewrite handleSaveChanges_trace. apply save_items_trace.
Qed.

Example approveAndSaveAll_sample :
  approveAndSaveAll (js "c1") (Some (js "u1")) sample_items sample_world
  = ([Upload (js "campaign_c1/item_0_1700000000000.png") (js "iVBORw0KGgo=");
      Insert sample_rows],
     Ret true).
Proof. vm_compute. reflexivity. Qed.

Example handleSaveChanges_sample :
  handleSaveChanges (js "c1") sample_items sample_world
  = ([Upload (js "campaign_c1/item_7_1700000000000.png") (js "iVBORw0KGgo=");
      Update (js "7") (JStr (js "Hello"))
        (obj [("title", JStr (js "T"));
              ("generated_image_url",
               JStr (js "https://cdn.example.com/campaign_c1/item_7_1700000000000.png"))]);
      Update (js "8") (JStr (js "Hi")) (obj [("title", JStr (js "U"))])],
     Ret true).
Proof. vm_compute. reflexivity. Qed.

Lemma saved_item_exposes_public_url_witness :
  (exists t rows,
     (approveAndSaveAll (js "c1") (Some (js "u1")) sample_items sample_world).1
       = t ++ [Insert rows]) /\
  (exists t,
     (approveAndSaveAll (js "c1") (Some (js "u1")) sample_items sample_world).1
       = t ++ [Insert sample_rows] /\
     only_uploads t /\
     length sample_rows = length sample_items /\
     forall j it r,
       sample_items !! j = Some it -> sample_rows !! j = Some r ->
       carries_temp_image (metadata it) = true ->
       exists t',
         finalized sample_world (metadata it) (review_path sample_world (js "c1") j)
           t' (row_metadata r)
         /\ t' ⊆ t
         /\ generated_image_path r = Some (review_path sample_world (js "c1") j)) /\
  (exists bytes md' tl,
     (handleSaveChanges (js "c1") sample_items sample_world).1
       = [] ++ Upload (edit_path sample_world (js "c1") first_item) bytes
            :: Update (id first_item) (generated_text first_item) md' :: tl /\
     finalized sample_world (metadata first_item)
       (edit_path sample_world (js "c1") first_item)
       [Upload (edit_path sample_world (js "c1") first_item) bytes] md').
Proof.
  destruct (saved_item_exposes_public_url sample_world (js "c1") (Some (js "u1"))
              sample_items) as (Hlive & Hrows & Hedit & _).
  split; [|split].
  - apply Hlive. intros [|[|j]] it; simpl; intros [= <-].
    + split; [eexists; reflexivity|]. intros _.
      exists (js "data:image/png;base64,iVBORw0KGgo="), (js "iVBORw0KGgo=").
      repeat split; reflexivity.
    + split; [eexists; reflexivity|]. intros Hc. vm_compute in Hc. discriminate.
  - apply Hrows. rewrite approveAndSaveAll_sample. simpl. right. left.
  - apply (Hedit [] first_item [second_item] []).
    + reflexivity.
    + reflexivity.
    + reflexivity.
    + exists (js "data:image/png;base64,iVBORw0KGgo="), (js "iVBORw0KGgo=").
      repeat split; reflexivity.
Defined.

End SaveFacts.

(** ** The content-generation driver *)

Module GeminiFacts.
Import Gemini.

Lemma getGeminiClient_silent w : (getGeminiClient w).1 = [].
Proof.
  unfold getGeminiClient. rewrite run_bind. unfold ask at 1. simpl.
  destruct (geminiClient w); [reflexivity|].
  rewrite run_bind. unfold getGeminiApiKey. rewrite run_bind. unfold ask at 1. simpl.
  destruct (_ || _); reflexivity.
Qed.

(** C8, as stated, fails twice over.  An answer that is a JSON document
    inside a Markdown code fence does not parse as JSON, yet the call
    returns the parsed document: the fence markers are stripped before
    [JSON.parse].  And with no client and no API key the call throws before
    the endpoint is reached, so it is called zero times, not once. *)
Lemma fenced_json_is_accepted :
  (generateContent fenced_world model (js "prompt") = Some (Some fenced) /\
   JSON_parse fenced = None /\
   generateAllGeminiContent (js "prompt") fenced_world
   = ([Generate model (js "prompt");
       Download (textFileContent (js "prompt") (jsq "{'content':[]}"))],
      Ret (JObj [(js "content", JArr [])]))) /\
  generateAllGeminiContent (js "prompt") no_key_world
  = ([], Throw (js "Missing GEMINI API key.")).
Proof. repeat split; vm_compute; reflexivity. Qed.

(** C8, amended: when the AI client is available (created earlier, or an API
    key is configured), the driver calls the endpoint exactly once, with the
    prompt; and if the returned text, after the code-fence markers are
    removed and it is trimmed, does not parse as JSON, the call throws right
    after that one call and produces nothing. *)
Theorem generation_calls_once_and_throws_on_unparsable w prompt :
  (getGeminiClient w).2 = Ret tt ->
  generate_calls (generateAllGeminiContent prompt w).1 = [prompt] /\
  (forall text,
      generateContent w model prompt = Some text ->
      JSON_parse (cleaned (rawText text)) = None ->
      generateAllGeminiContent prompt w
      = ([Generate model prompt], Throw (js "Unexpected token in JSON"))).
Proof.
  intros Hc. unfold generateAllGeminiContent. rewrite run_bind.
  pose proof (getGeminiClient_silent w) as Hsilent.
  destruct (getGeminiClient w) as [t [[]|e]]; simpl in *; [subst t|discriminate].
  rewrite run_bind. unfold call at 1. simpl.
  rewrite run_bind.
  destruct (generateContent w model prompt) as [text|] eqn:Hg; simpl.
  - rewrite ?run_bind. simpl.
    destruct (JSON_parse (cleaned (rawText text))) as [v|] eqn:Hp; simpl.
    + split; [reflexivity|]. intros text' Ht Hn. inversion Ht; subst. congruence.
    + split; [reflexivity|]. intros text' Ht Hn. reflexivity.
  - split; [reflexivity|]. intros text' Ht. discriminate.
Qed.

Lemma generation_calls_once_witness :
  generate_calls (generateAllGeminiContent (js "prompt") fenced_world).1
    = [js "prompt"] /\
  (forall text,
      generateContent fenced_world model (js "prompt") = Some text ->
      JSON_parse (cleaned (rawText text)) = None ->
      generateAllGeminiContent (js "prompt") fenced_world
      = ([Generate model (js "prompt")], Throw (js "Unexpected token in JSON"))).
Proof.
  apply (generation_calls_once_and_throws_on_unparsable fenced_world (js "prompt")).
  reflexivity.
Defined.

(** An answer that is not JSON even without its fences. *)
Example unparsable_answer_throws :
  generateAllGeminiContent (js "prompt")
    {| geminiClient := true; meta_env := fun _ => None; process_env := fun _ => None;
       generateContent := fun _ _ => Some (Some (js "Sure! Here is your content")) |}
  = ([Generate model (js "prompt")], Throw (js "Unexpected token in JSON")).
Proof. vm_compute. reflexivity. Qed.

(** Without a client and without an API key the call fails before the
    endpoint is reached. *)
Lemma generation_without_key w prompt msg :
  (getGeminiClient w).2 = Throw msg ->
  generateAllGeminiContent prompt w = ([], Throw msg).
Proof.
  intros Hc. unfold generateAllGeminiContent. rewrite run_bind.
  pose proof (getGeminiClient_silent w) as Hsilent.
  destruct (getGeminiClient w) as [t [[]|e]]; simpl in *; [discriminate|].
  subst t. inversion Hc; subst. reflexivity.
Qed.

End GeminiFacts.

(** ** The localStorage fallback *)

Module RelayFacts.
Import OAuthRelay.

Lemma clear_flags_success st : getItem (clear_flags st) "oauth_success" = None.
Proof.
  unfold getItem, clear_flags, removeItem.
  rewrite !lookup_delete_ne by (vm_compute; discriminate).
  apply lookup_delete_eq.
Qed.

Lemma clear_flags_session st : getItem (clear_flags st) "oauth_session" = None.
Proof.
  unfold getItem, clear_flags, removeItem.
  rewrite lookup_delete_ne by (vm_compute; discriminate).
  apply lookup_delete_eq.
Qed.

Lemma clear_flags_timestamp st : getItem (clear_flags st) "oauth_timestamp" = None.
Proof. unfold getItem, clear_flags, removeItem. apply lookup_delete_eq. Qed.

Lemma clear_flags_other st k :
  k <> js "oauth_success" -> k <> js "oauth_session" -> k <> js "oauth_timestamp" ->
  clear_flags st !! k = st !! k.
Proof.
  intros H1 H2 H3. unfold clear_flags, removeItem.
  rewrite !lookup_delete_ne by congruence. reflexivity.
Qed.

(** C9: when an OAuth result is waiting in localStorage, a session is
    handed to [handleAuthCallback] only if the stored timestamp is less
    than 30000 ms before the time of the check; a result 30000 ms old or
    older (or with an unreadable timestamp) is not processed; a fresh
    result is processed when its session parses; and the three flags are
    gone when the run ends in every case, whatever happened to the storage
    while the callback was awaited. *)
Theorem oauth_fallback_processed_only_when_fresh now handleAuthCallback st :
  found st = true ->
  let calls := (checkLocalStorageAuth now handleAuthCallback st).1 in
  let st' := (checkLocalStorageAuth now handleAuthCallback st).2 in
  (calls <> [] -> exists t, stored_timestamp st = Some t /\ (now - t < 30000)%Z) /\
  (forall t, stored_timestamp st = Some t -> (30000 <= now - t)%Z -> calls = []) /\
  (stored_timestamp st = None -> calls = []) /\
  (fresh now st = true ->
     calls = match JSON_parse (default [] (getItem st "oauth_session")) with
             | Some session => [session] | None => [] end) /\
  getItem st' "oauth_success" = None /\
  getItem st' "oauth_session" = None /\
  getItem st' "oauth_timestamp" = None.
Proof.
  intros Hf. unfold checkLocalStorageAuth. rewrite Hf.
  assert (Hflags : forall r : list jsval * gmap jstring jstring,
            (exists c s, r = (c, clear_flags s)) ->
            getItem r.2 "oauth_success" = None /\
            getItem r.2 "oauth_session" = None /\
            getItem r.2 "oauth_timestamp" = None).
  { intros r (c & s & ->). simpl.
    rewrite clear_flags_success, clear_flags_session, clear_flags_timestamp. auto. }
  split; [|split; [|split; [|split]]].
  - unfold fresh. destruct (stored_timestamp st) as [t|]; [|intros H; done].
    destruct (Z.ltb_spec (now - t) 30000); [|intros H'; done].
    intros _. exists t. split; [reflexivity|assumption].
  - intros t Ht Hold. unfold fresh. rewrite Ht.
    destruct (Z.ltb_spec (now - t) 30000); [lia|reflexivity].
  - intros Ht. unfold fresh. rewrite Ht. reflexivity.
  - intros ->. destruct (JSON_parse _); reflexivity.
  - apply Hflags. destruct (fresh now st); [destruct (JSON_parse _)|]; eauto.
Qed.

Example fresh_result_processed :
  checkLocalStorageAuth 1700000029999 connecting
    (<[js "connecting_platform" := js "facebook"]> (sample_storage "1700000000000"))
  = ([JObj [(js "provider_token", JStr (js "t"))]], ∅).
Proof. vm_compute. reflexivity. Qed.

Example stale_result_discarded :
  checkLocalStorageAuth 1700000030000 connecting (sample_storage "1700000000000")
  = ([], ∅).
Proof. vm_compute. reflexivity. Qed.

Example nothing_waiting :
  checkLocalStorageAuth 5 connecting (<[js "connecting_platform" := js "facebook"]> ∅)
  = ([], <[js "connecting_platform" := js "facebook"]> ∅).
Proof. vm_compute. reflexivity. Qed.

Lemma oauth_fallback_witness :
  let st := sample_storage "1700000000000" in
  let calls := (checkLocalStorageAuth 1700000030000 connecting st).1 in
  let st' := (checkLocalStorageAuth 1700000030000 connecting st).2 in
  (calls <> [] ->
     exists t, stored_timestamp st = Some t /\ (1700000030000 - t < 30000)%Z) /\
  (forall t, stored_timestamp st = Some t -> (30000 <= 1700000030000 - t)%Z ->
             calls = []) /\
  (stored_timestamp st = None -> calls = []) /\
  (fresh 1700000030000 st = true ->
     calls = match JSON_parse (default [] (getItem st "oauth_session")) with
             | Some session => [session] | None => [] end) /\
  getItem st' "oauth_success" = None /\
  getItem st' "oauth_session" = None /\
  getItem st' "oauth_timestamp" = None.
Proof.
  apply (oauth_fallback_processed_only_when_fresh 1700000030000 connecting
           (sample_storage "1700000000000")).
  vm_compute. reflexivity.
Defined.

End RelayFacts.

(** ** Password hashing *)

Module AuthFacts.
Import AuthService.

(** The digest on the test vectors of FIPS 180-4. *)
Example sha256_abc :
  hex (sha256 (encode (js "abc")))
  = js "ba7816bf8f01cfea414140de5dae2223b00361a396177a9cb410ff61f20015ad".
Proof. vm_compute. reflexivity. Qed.

Example sha256_empty :
  hex (sha256 [])
  = js "e3b0c44298fc1c149afbf4c8996fb92427ae41e4649b934ca495991b7852b855".
Proof. vm_compute. reflexivity. Qed.

Example sha256_two_blocks :
  hex (sha256 (encode (js "abcdbcdecdefdefgefghfghighijhijkijkljklmklmnlmnomnopnopq")))
  = js "248d6a61d20638b8e5c026930c3e6039a33ce45964ff2167f6ecedd419db06c1".
Proof. vm_compute. reflexivity. Qed.

Example derived_constants :
  length Sha256.K = 64 /\ take 2 Sha256.K = [0x428a2f98; 0x71374491]%N /\
  nth 63 Sha256.K 0%N = 0xc67178f2%N /\
  take 2 Sha256.H0 = [0x6a09e667; 0xbb67ae85]%N.
Proof. vm_compute. repeat split. Qed.

Example encode_examples :
  encode [233; 8364; 55357; 56832; 56832]%N
  = [195; 169; 226; 130; 172; 240; 159; 152; 128; 239; 191; 189]%N.
Proof. vm_compute. reflexivity. Qed.

Lemma round_length s kw : length (Sha256.round s kw) = length s.
Proof.
  unfold Sha256.round.
  do 9 (destruct s as [|? s]; try reflexivity).
Qed.

Lemma rounds_length kws : forall s,
  length (fold_left Sha256.round kws s) = length s.
Proof.
  induction kws as [|kw kws IH]; intros s; simpl; [reflexivity|].
  rewrite IH. apply round_length.
Qed.

Lemma compress_length h block : length (Sha256.compress h block) = length h.
Proof.
  unfold Sha256.compress. rewrite length_map, length_combine, rounds_length. lia.
Qed.

Lemma blocks_length n : forall h bytes,
  length (Sha256.blocks n h bytes) = length h.
Proof.
  induction n as [|n IH]; intros h bytes; simpl; [reflexivity|].
  rewrite IH. apply compress_length.
Qed.

(** A digest is 32 bytes long. *)
Lemma sha256_length data : length (sha256 data) = 32.
Proof.
  unfold sha256, Sha256.sha256.
  pose proof (blocks_length (length (Sha256.pad data) / 64) Sha256.H0 (Sha256.pad data)) as Hl.
  destruct (Sha256.blocks _ _ _) as [|a [|b [|c [|d [|e [|f [|g [|h [|? ?]]]]]]]]];
    try discriminate.
  reflexivity.
Qed.

Lemma sha256_nonempty data : sha256 data <> [].
Proof.
  intros H. pose proof (sha256_length data) as Hl. rewrite H in Hl. discriminate.
Qed.

Lemma hex_digit_not_colon n : hex_digit n <> 58%N.
Proof. unfold hex_digit. destruct (N.ltb_spec n 10); lia. Qed.

Lemma hex_no_colon bytes : 58%N ∉ hex bytes.
Proof.
  unfold hex. induction bytes as [|b bytes IH]; simpl; [apply not_elem_of_nil|].
  intros Hin. apply elem_of_cons in Hin as [Hin|Hin];
    [symmetry in Hin; exact (hex_digit_not_colon _ Hin)|].
  apply elem_of_cons in Hin as [Hin|Hin];
    [symmetry in Hin; exact (hex_digit_not_colon _ Hin)|].
  exact (IH Hin).
Qed.

Lemma hex_nonempty bytes : bytes <> [] -> hex bytes <> [].
Proof. destruct bytes; [done|discriminate]. Qed.

(** The first field of a split holds no separator, and the rest is the
    split of what follows it. *)
Lemma split_first sep s a rest :
  split sep s = a :: rest ->
  (sep ∉ a) /\
  ((rest = [] /\ s = a) \/ (exists s', s = a ++ sep :: s' /\ split sep s' = rest)).
Proof.
  revert a rest. induction s as [|c s IH]; intros a rest; simpl.
  - intros [= <- <-]. split; [apply not_elem_of_nil|]. left. auto.
  - destruct (N.eqb_spec c sep) as [->|Hne].
    + intros [= <- <-]. split; [apply not_elem_of_nil|]. right. exists s. auto.
    + destruct (split sep s) as [|w ws] eqn:Hs; [destruct (split_nonempty _ _ Hs)|].
      intros [= <- <-]. destruct (IH w ws eq_refl) as [Hno Hcase]. split.
      * intros [->|Hin]%elem_of_cons; [congruence|contradiction].
      * destruct Hcase as [[-> ->]|(s' & -> & Hs')]; [left; auto|right; eauto].
Qed.

Lemma finalHashHex_nonempty password saltHex : finalHashHex password saltHex <> [].
Proof. unfold finalHashHex. apply hex_nonempty, sha256_nonempty. Qed.

Lemma finalHashHex_no_colon password saltHex : 58%N ∉ finalHashHex password saltHex.
Proof. unfold finalHashHex. apply hex_no_colon. Qed.

(** C10, as stated, fails: the hash made for a password, followed by a
    colon and any text, is not of the documented form "salt:hash" (it has a
    second colon, and letters that are no hexadecimal digits), yet it
    verifies: [split(':')] hands [verifyPassword] the first two fields and
    the rest is never looked at. *)
Lemma verifyPassword_accepts_trailing_text :
  let storedHash := hashPassword (repeat 171%N 16) (js "hunter2") in
  salt_colon_hash storedHash = true /\
  salt_colon_hash (storedHash ++ js ":extra") = false /\
  verifyPassword (js "hunter2") (storedHash ++ js ":extra") = true.
Proof. vm_compute. repeat split. Qed.

(** C10, amended: a password verifies against the hash made from it,
    whatever the 16 salt bytes were.  In general [verifyPassword] accepts a
    stored hash exactly when it is a non-empty salt without a colon, a
    colon, the digest recomputed from the password and that salt, and then
    either nothing or a colon followed by any text, which is ignored.  So a
    stored hash that lacks a colon, or has nothing before it or nothing
    after it, never verifies. *)
Theorem verifyPassword_accepts_the_salted_digest :
  (forall password salt,
      length salt = 16 ->
      verifyPassword password (hashPassword salt password) = true) /\
  (forall password storedHash,
      verifyPassword password storedHash = true <->
      exists saltHex rest,
        saltHex <> [] /\ (58%N ∉ saltHex) /\
        (rest = [] \/ (exists r, rest = 58%N :: r)) /\
        storedHash = saltHex ++ js ":" ++ finalHashHex password saltHex ++ rest) /\
  (forall password storedHash,
      ~ salt_and_hash_present storedHash ->
      verifyPassword password storedHash = false).
Proof.
  split; [|split].
  - intros password salt Hsalt. unfold verifyPassword, hashPassword.
    change (js ":") with [58%N].
    rewrite split_app_sep by apply hex_no_colon.
    rewrite split_no_sep by apply hex_no_colon.
    rewrite !truthy_nonempty.
    + cbn [negb orb]. apply bool_decide_eq_true. reflexivity.
    + apply hex_nonempty, sha256_nonempty.
    + apply hex_nonempty. intros ->. discriminate.
  - intros password storedHash. change (js ":") with [58%N]. split.
    + unfold verifyPassword. intros Hv.
      destruct (split 58 storedHash) as [|saltHex [|storedHashHex rest]] eqn:Hs;
        try discriminate.
      destruct (split_first _ _ _ _ Hs) as [Hno [[[=] _]|(s' & -> & Hs')]].
      destruct (split_first _ _ _ _ Hs') as [_ Hcase].
      destruct saltHex as [|c saltHex]; [discriminate|].
      destruct storedHashHex as [|c' storedHashHex]; [discriminate|].
      cbn [truthy negb orb] in Hv. apply bool_decide_eq_true in Hv.
      rewrite <- Hv in Hcase.
      destruct Hcase as [[_ ->]|(s'' & -> & _)].
      * exists (c :: saltHex), []. rewrite app_nil_r.
        split; [discriminate|]. split; [exact Hno|]. split; [left; reflexivity|].
        reflexivity.
      * exists (c :: saltHex), (58%N :: s'').
        split; [discriminate|]. split; [exact Hno|]. split; [right; eauto|].
        reflexivity.
    + intros (saltHex & rest & Hne & Hno & Hrest & ->). unfold verifyPassword.
      rewrite split_app_sep by exact Hno.
      assert (Hsp : exists tl, split 58 (finalHashHex password saltHex ++ rest)
                               = finalHashHex password saltHex :: tl).
      { destruct Hrest as [->|[r ->]].
        - rewrite app_nil_r, split_no_sep by apply finalHashHex_no_colon. eauto.
        - change (58%N :: r) with ([58%N] ++ r).
          rewrite split_app_sep by apply finalHashHex_no_colon. eauto. }
      destruct Hsp as [tl ->].
      rewrite !truthy_nonempty by (apply finalHashHex_nonempty || exact Hne).
      cbn [negb orb]. apply bool_decide_eq_true. reflexivity.
  - intros password storedHash Hform.
    destruct (verifyPassword password storedHash) eqn:Hv; [|reflexivity].
    exfalso. apply Hform. unfold verifyPassword in Hv.
    destruct (split 58 storedHash) as [|saltHex [|storedHashHex rest]] eqn:Hs;
      try discriminate.
    destruct (split_two _ _ _ _ _ Hs) as [tl ->].
    destruct saltHex as [|c saltHex]; [discriminate|].
    destruct storedHashHex as [|c' storedHashHex]; [discriminate|].
    exists (c :: saltHex), ((c' :: storedHashHex) ++ tl).
    repeat split; done.
Qed.

Example hashPassword_sample :
  hashPassword (repeat 171%N 16) (js "hunter2")
  = js "abababababababababababababababab:"
    ++ finalHashHex (js "hunter2") (js "abababababababababababababababab").
Proof. vm_compute. reflexivity. Qed.

Example wrong_password_rejected :
  verifyPassword (js "hunter3") (hashPassword (repeat 171%N 16) (js "hunter2")) = false.
Proof. vm_compute. reflexivity. Qed.

Lemma verifyPassword_digest_witness :
  verifyPassword (js "hunter2") (hashPassword (repeat 171%N 16) (js "hunter2")) = true /\
  verifyPassword (js "hunter2")
    (js "ab" ++ js ":" ++ finalHashHex (js "hunter2") (js "ab") ++ js ":extra") = true /\
  verifyPassword (js "hunter2") (js "not-a-stored-hash") = false.
Proof.
  destruct verifyPassword_accepts_the_salted_digest as (H1 & H2 & H3).
  split; [|split].
  - apply H1. reflexivity.
  - apply H2. exists (js "ab"), (js ":extra").
    split; [discriminate|]. split.
    + vm_compute. intros Hin.
      repeat (apply elem_of_cons in Hin as [Hin|Hin]; [discriminate|]).
      inversion Hin.
    + split; [right; eexists; reflexivity|reflexivity].
  - apply H3. intros (salt & hash & Hs & Hh & Heq).
    assert (Hin : 58%N ∈ js "not-a-stored-hash").
    { rewrite Heq. apply elem_of_app. right. left. }
    vm_compute in Hin.
    repeat (apply elem_of_cons in Hin as [Hin|Hin]; [discriminate|]).
    inversion Hin.
Defined.

End AuthFacts.

(** ** More on the publish handlers *)

Module PublishMore.
Import Connected Samples.

(** *** Inverting a run *)

Lemma bind_ret_inv {W E A B} (m : @prog W E A) (k : A -> @prog W E B) w t r :
  bind m k w = (t, Ret r) ->
  exists t1 a t2, m w = (t1, Ret a) /\ k a w = (t2, Ret r) /\ t = t1 ++ t2.
Proof.
  rewrite run_bind. destruct (m w) as [t1 [a|e]]; [|discriminate].
  destruct (k a w) as [t2 o] eqn:Hk. simpl. intros [= <- ->]. eauto 6.
Qed.

Lemma ask_inv {W E A} (f : W -> A) w t (a : A) :
  @ask W E A f w = (t, Ret a) -> t = [] /\ a = f w.
Proof. unfold ask. intros [= <- <-]. auto. Qed.

Lemma ret_inv {W E A} (x : A) w t (a : A) :
  @ret W E A x w = (t, Ret a) -> t = [] /\ a = x.
Proof. unfold ret. intros [= <- <-]. auto. Qed.

Lemma of_option_inv {W E A} msg (o : option A) w t (a : A) :
  @of_option W E A msg o w = (t, Ret a) -> t = [] /\ o = Some a.
Proof. destruct o; unfold of_option, ret, throw; intros [=]; subst; auto. Qed.

(** A [try] whose [catch] always answers never throws. *)
Lemma caught_is_answered {W E A} (m : @prog W E A) (h : jstring -> @prog W E A) w :
  (forall e, exists r, h e w = ([], Ret r)) ->
  exists t r, try_catch m h w = (t, Ret r).
Proof.
  intros Hh. rewrite run_try_catch.
  destruct (m w) as [t [a|e]]; [eauto|].
  destruct (Hh e) as [r Hr]. rewrite Hr. simpl. eauto.
Qed.

Lemma configured_env w :
  configured w ->
  truthy (env w "SUPABASE_URL") = true /\ truthy (env w "SUPABASE_KEY") = true /\
  truthy (env w "VITE_SUPABASE_URL") = true /\
  truthy (env w "SUPABASE_SERVICE_ROLE_KEY") = true.
Proof.
  unfold configured. rewrite !Forall_cons. tauto.
Qed.

Lemma truthy_some (o : option jstring) :
  truthy o = true -> exists s, o = Some s /\ s <> [].
Proof. destruct o as [[|c s]|]; try discriminate. eauto. Qed.

Lemma configured_serve d w : configured w -> configured (serve d w).
Proof. intros H. exact H. Qed.

(** *** No exception escapes *)

(** X1: the four publish endpoints (the serverless LinkedIn and Twitter
    handlers and the two Express routes) always answer: whatever the
    request and whatever the database and the provider do, the run ends
    with a reply, never with an exception. *)
Theorem publish_handlers_always_answer (req : incoming) (w : world) :
  (exists t r, LinkedIn.handler req w = (t, Ret r)) /\
  (exists t r, LinkedIn.server_post (fields req) w = (t, Ret r)) /\
  (exists t r, Twitter.handler req w = (t, Ret r)) /\
  (exists t r, Twitter.server_post (fields req) w = (t, Ret r)).
Proof.
  repeat split.
  - unfold LinkedIn.handler. destruct (negb _); [eexists _, _; reflexivity|].
    apply caught_is_answered. intros e. eexists. reflexivity.
  - apply caught_is_answered. intros e. eexists. reflexivity.
  - unfold Twitter.handler. destruct (negb _); [eexists _, _; reflexivity|].
    apply caught_is_answered. intros e. eexists. reflexivity.
  - apply caught_is_answered. intros e. eexists. reflexivity.
Qed.

(** *** No credential on file *)

Lemma linkedin_not_connected b w uid text :
  configured w ->
  userId b = Some uid -> uid <> [] ->
  text_ b = Some text -> text <> [] -> length text <= 3000 ->
  select_single w uid (js "linkedin") = None ->
  LinkedIn.handler (POST b) w
    = ([DbSelect uid (js "linkedin")], Ret LinkedIn.not_connected) /\
  LinkedIn.server_post b w
    = ([DbSelect uid (js "linkedin")], Ret LinkedIn.not_connected).
Proof.
  intros (Hu & Hk & Hvu & Hsk)%configured_env Huid Hne Htext Htne Hlen Hsel.
  assert (Tu : truthy (userId b) = true) by (rewrite Huid; apply truthy_nonempty, Hne).
  assert (Tt : truthy (text_ b) = true) by (rewrite Htext; apply truthy_nonempty, Htne).
  assert (Hl : (3000 <? length text) = false) by (apply Nat.ltb_ge; lia).
  split.
  - unfold LinkedIn.handler, POST. simpl. rewrite run_try_catch. simpl.
    rewrite Tu, Tt, Huid, Htext. simpl. rewrite Hl.
    repeat (rewrite ?run_bind; unfold ask, single, Eff.call, createClient, ret; simpl;
            rewrite ?Hvu, ?Hsk, ?Hsel; simpl).
    reflexivity.
  - unfold LinkedIn.server_post. rewrite run_try_catch. simpl.
    rewrite Tu, Tt, Huid, Htext. simpl. rewrite Hl.
    repeat (rewrite ?run_bind; unfold ask, single, Eff.call, createClient, ret; simpl;
            rewrite ?Hu, ?Hk, ?Hsel; simpl).
    reflexivity.
Qed.

Lemma twitter_not_connected b w uid text :
  configured w ->
  userId b = Some uid -> uid <> [] ->
  text_ b = Some text -> text <> [] ->
  select_single w uid (js "x") = None ->
  Twitter.handler (POST b) w = ([DbSelect uid (js "x")], Ret Twitter.not_connected) /\
  Twitter.server_post b w = ([DbSelect uid (js "x")], Ret Twitter.not_connected).
Proof.
  intros (Hu & Hk & Hvu & Hsk)%configured_env Huid Hne Htext Htne Hsel.
  assert (Tu : truthy (userId b) = true) by (rewrite Huid; apply truthy_nonempty, Hne).
  assert (Tt : truthy (text_ b) = true) by (rewrite Htext; apply truthy_nonempty, Htne).
  split.
  - unfold Twitter.handler, POST. simpl. rewrite run_try_catch. simpl.
    rewrite Tu, Tt, Huid. simpl.
    repeat (rewrite ?run_bind; unfold ask, single, call, createClient, ret, or_else; simpl;
            rewrite ?Hu, ?Hk, ?Hvu, ?Hsk, ?Hsel; simpl).
    reflexivity.
  - unfold Twitter.server_post. rewrite run_try_catch. simpl.
    rewrite Tu, Tt, Huid. simpl.
    repeat (rewrite ?run_bind; unfold ask, single, call, createClient, ret; simpl;
            rewrite ?Hu, ?Hk, ?Hsel; simpl).
    reflexivity.
Qed.

(** X2: when the database is configured and holds no credential of the
    user for the platform, every publish endpoint answers 404 "not
    connected" after the credential lookup alone: the provider is never
    called. *)
Theorem not_connected_is_404_without_provider_call
    (b : post_body) (w : world) (uid text : jstring) :
  configured w ->
  userId b = Some uid -> uid <> [] ->
  text_ b = Some text -> text <> [] ->
  (length text <= 3000 ->
   select_single w uid (js "linkedin") = None ->
   LinkedIn.handler (POST b) w
     = ([DbSelect uid (js "linkedin")], Ret LinkedIn.not_connected) /\
   LinkedIn.server_post b w
     = ([DbSelect uid (js "linkedin")], Ret LinkedIn.not_connected)) /\
  (select_single w uid (js "x") = None ->
   Twitter.handler (POST b) w = ([DbSelect uid (js "x")], Ret Twitter.not_connected) /\
   Twitter.server_post b w = ([DbSelect uid (js "x")], Ret Twitter.not_connected)).
Proof.
  intros Hcfg Huid Hne Htext Htne. split.
  - intros Hlen Hsel. apply (linkedin_not_connected b w uid text); assumption.
  - intros Hsel. apply (twitter_not_connected b w uid text); assumption.
Qed.

Lemma not_connected_witness :
  (length (js "hello") <= 3000 ->
   select_single nobody_world (js "u1") (js "linkedin") = None ->
   LinkedIn.handler (POST hello) nobody_world
     = ([DbSelect (js "u1") (js "linkedin")], Ret LinkedIn.not_connected) /\
   LinkedIn.server_post hello nobody_world
     = ([DbSelect (js "u1") (js "linkedin")], Ret LinkedIn.not_connected)) /\
  (select_single nobody_world (js "u1") (js "x") = None ->
   Twitter.handler (POST hello) nobody_world
     = ([DbSelect (js "u1") (js "x")], Ret Twitter.not_connected) /\
   Twitter.server_post hello nobody_world
     = ([DbSelect (js "u1") (js "x")], Ret Twitter.not_connected)).
Proof.
  apply (not_connected_is_404_without_provider_call hello nobody_world
           (js "u1") (js "hello")).
  - repeat constructor.
  - reflexivity.
  - discriminate.
  - reflexivity.
  - discriminate.
Defined.

(** *** A 200 reply *)

Lemma create_post_accepted tok payload w t r :
  LinkedIn.create_post tok payload w = (t, Ret r) -> code r = 200%Z ->
  t = [Fetch (LinkedIn.post_call tok payload)] /\
  exists resp, fetch_answer w (LinkedIn.post_call tok payload) = Resolved resp
               /\ ok resp = true.
Proof.
  unfold LinkedIn.create_post. rewrite run_bind.
  unfold fetch at 1. rewrite run_bind. unfold call at 1. simpl.
  destruct (fetch_answer w _) as [e|resp] eqn:Hf; simpl; [discriminate|].
  destruct (ok resp) eqn:Hok; simpl.
  - intros H _. split; [|eauto].
    rewrite run_bind in H. unfold json in H.
    destruct (JSON_parse (Net.text resp)) as [d|]; simpl in H; [|discriminate].
    rewrite run_bind in H. destruct (prop d "id"); simpl in H; congruence.
  - intros [= <- <-]. simpl. intros Hc. unfold ok in Hok. rewrite Hc in Hok. discriminate.
Qed.

(** A reply with code 200 never comes out of the [catch] of a LinkedIn
    handler. *)
Lemma linkedin_caught_is_500 (m : @prog world event reply) w t r :
  try_catch m LinkedIn.post_failed w = (t, Ret r) -> code r = 200%Z ->
  m w = (t, Ret r).
Proof.
  rewrite run_try_catch. destruct (m w) as [t1 [a|e]]; [congruence|].
  unfold LinkedIn.post_failed, ret. simpl. intros [= <- <-]. discriminate.
Qed.

Ltac refuse H := unfold ret, throw in H; simpl in H; injection H as <- <-; discriminate.

(** X3: a LinkedIn publish request is answered with code 200 only if the
    content-creation call was made and accepted: the last call of the run
    is [POST /v2/ugcPosts], carrying the request's text, the stored access
    token and the stored account as author, and the provider answered it
    with a 2xx status. *)
Theorem linkedin_success_means_provider_accepted
    (b : post_body) (w : world) (t : list event) (r : reply) :
  (LinkedIn.handler (POST b) w = (t, Ret r) \/ LinkedIn.server_post b w = (t, Ret r)) ->
  code r = 200%Z ->
  exists uid text c category media t0 resp,
    userId b = Some uid /\ text_ b = Some text /\
    select_single w uid (js "linkedin") = Some c /\
    let call := LinkedIn.post_call (access_token c)
                  (LinkedIn.postPayload (account_id c) text category media) in
    t = t0 ++ [Fetch call] /\
    fetch_answer w call = Resolved resp /\ ok resp = true.
Proof.
  intros H Hc.
  destruct H as [H|H].
  - unfold LinkedIn.handler, POST in H. simpl in H.
    apply linkedin_caught_is_500 in H; [|exact Hc].
    destruct (userId b) as [uid|] eqn:Huid; [|refuse H].
    destruct (truthy (Some uid)) eqn:Tu; [|refuse H].
    destruct (text_ b) as [text|] eqn:Htext; [|refuse H].
    destruct (truthy (Some text)) eqn:Tt; [|refuse H].
    simpl in H.
    destruct (3000 <? length text); [refuse H|].
    apply bind_ret_inv in H as (t1 & url & t2 & [-> ->]%ask_inv & H & ->).
    apply bind_ret_inv in H as (t1 & key & t3 & [-> ->]%ask_inv & H & ->).
    apply bind_ret_inv in H as (t1 & [] & t4 & Hcl & H & ->).
    apply bind_ret_inv in H as (t5 & oc & t6 & Hs & H & ->).
    unfold single, call in Hs. injection Hs as <- <-.
    destruct (select_single w uid (js "linkedin")) as [c|] eqn:Hsel; [|refuse H].
    apply bind_ret_inv in H as (t7 & n & t8 & [-> ->]%ask_inv & H & ->).
    destruct (LinkedIn.expired c (now w)); [refuse H|].
    destruct (truthy (account_id c)); simpl in H; [|refuse H].
    apply bind_ret_inv in H as (ti & [category media] & tp & Hi & Hp & ->).
    simpl in Hp.
    destruct (create_post_accepted _ _ _ _ _ Hp Hc) as (-> & resp & Hf & Hok).
    assert (t1 = []) as ->.
    { unfold createClient in Hcl.
      repeat (destruct (negb _) in Hcl; [discriminate|]).
      apply ret_inv in Hcl. tauto. }
    exists uid, text, c, category, media, (DbSelect uid (js "linkedin") :: ti), resp.
    repeat split; auto.
  - unfold LinkedIn.server_post in H.
    apply linkedin_caught_is_500 in H; [|exact Hc].
    destruct (userId b) as [uid|] eqn:Huid; [|refuse H].
    destruct (truthy (Some uid)) eqn:Tu; [|refuse H].
    destruct (text_ b) as [text|] eqn:Htext; [|refuse H].
    destruct (truthy (Some text)) eqn:Tt; [|refuse H].
    simpl in H.
    destruct (3000 <? length text); [refuse H|].
    apply bind_ret_inv in H as (t1 & url & t2 & [-> ->]%ask_inv & H & ->).
    apply bind_ret_inv in H as (t1 & key & t3 & [-> ->]%ask_inv & H & ->).
    apply bind_ret_inv in H as (t1 & [] & t4 & Hcl & H & ->).
    apply bind_ret_inv in H as (t5 & oc & t6 & Hs & H & ->).
    unfold single, call in Hs. injection Hs as <- <-.
    destruct (select_single w uid (js "linkedin")) as [c|] eqn:Hsel; [|refuse H].
    apply bind_ret_inv in H as (t7 & n & t8 & [-> ->]%ask_inv & H & ->).
    destruct (LinkedIn.expired c (now w)); [refuse H|].
    apply bind_ret_inv in H as (ti & mediaAsset & tp & Hi & Hp & ->).
    destruct (create_post_accepted _ _ _ _ _ Hp Hc) as (-> & resp & Hf & Hok).
    assert (t1 = []) as ->.
    { unfold createClient in Hcl.
      repeat (destruct (negb _) in Hcl; [discriminate|]).
      apply ret_inv in Hcl. tauto. }
    eexists uid, text, c, _, _, (DbSelect uid (js "linkedin") :: ti), resp.
    repeat split; eauto.
Qed.

Lemma linkedin_success_witness :
  exists uid text c category media t0 resp,
    userId hello = Some uid /\ text_ hello = Some text /\
    select_single accepting_world uid (js "linkedin") = Some c /\
    let call := LinkedIn.post_call (access_token c)
                  (LinkedIn.postPayload (account_id c) text category media) in
    [DbSelect (js "u1") (js "linkedin");
     Fetch (LinkedIn.post_call (js "token")
              (LinkedIn.postPayload (Some (js "member-1")) (js "hello") "NONE" JUndefined))]
      = t0 ++ [Fetch call] /\
    fetch_answer accepting_world call = Resolved resp /\ ok resp = true.
Proof.
  apply (linkedin_success_means_provider_accepted hello accepting_world _
           {| code := 200;
              sent := obj [("success", JBool true);
                           ("message", JStr (js "Successfully posted to LinkedIn"));
                           ("postId", JStr (js "urn:li:share:1"));
                           ("data", accepted_answer)] |}).
  - left. vm_compute. reflexivity.
  - reflexivity.
Defined.

Lemma twitter_caught_is_500 (m : @prog world event reply) w t r :
  try_catch m Twitter.server_error w = (t, Ret r) -> code r = 200%Z ->
  m w = (t, Ret r).
Proof.
  rewrite run_try_catch. destruct (m w) as [t1 [a|e]]; [congruence|].
  unfold Twitter.server_error, ret. simpl. intros [= <- <-]. discriminate.
Qed.

Lemma post_tweet_accepted c text image w t r :
  Twitter.post_tweet c text image w = (t, Ret r) -> code r = 200%Z ->
  let call := Twitter.tweet_call (access_token c) (Twitter.tweetText text image) in
  t = [Fetch call] /\
  exists resp, fetch_answer w call = Resolved resp /\ ok resp = true.
Proof.
  intros H Hc call. unfold Twitter.post_tweet in H.
  apply bind_ret_inv in H as (t1 & resp & t2 & Hf & H & ->).
  unfold fetch in Hf. rewrite run_bind in Hf. unfold Eff.call at 1 in Hf. simpl in Hf.
  destruct (fetch_answer w _) as [e|resp'] eqn:Ha; [discriminate|].
  unfold ret in Hf. simpl in Hf. injection Hf as <- ->.
  apply bind_ret_inv in H as (t1 & data & t3 & Hj & H & ->).
  unfold json in Hj. apply of_option_inv in Hj as [-> Hj].
  destruct (ok resp) eqn:Hok; simpl in H.
  - apply bind_ret_inv in H as (t1 & x & t4 & [-> Hx]%of_option_inv & H & ->).
    apply ret_inv in H as [-> ->].
    split; [reflexivity|]. exists resp. auto.
  - destruct (status resp =? 403)%Z eqn:H403.
    + apply ret_inv in H as [-> ->]. discriminate.
    + apply bind_ret_inv in H as (t1 & x & t4 & [-> Hx]%of_option_inv & H & ->).
      apply ret_inv in H as [-> ->]. simpl in Hc.
      unfold ok in Hok. rewrite Hc in Hok. discriminate.
Qed.

(** X4: a Twitter publish request is answered with code 200 only if the
    tweet was sent and accepted: the run is the credential lookup followed
    by [POST /2/tweets] with the stored token and the final tweet text, and
    the provider answered with a 2xx status. *)
Theorem twitter_success_means_provider_accepted
    (b : post_body) (w : world) (t : list event) (r : reply) :
  (Twitter.handler (POST b) w = (t, Ret r) \/ Twitter.server_post b w = (t, Ret r)) ->
  code r = 200%Z ->
  exists uid text c resp,
    userId b = Some uid /\ text_ b = Some text /\
    select_single w uid (js "x") = Some c /\
    let call := Twitter.tweet_call (access_token c)
                  (Twitter.tweetText text (imageUrl b)) in
    t = [DbSelect uid (js "x"); Fetch call] /\
    fetch_answer w call = Resolved resp /\ ok resp = true.
Proof.
  intros H Hc.
  destruct H as [H|H].
  - unfold Twitter.handler, POST in H. simpl in H.
    apply twitter_caught_is_500 in H; [|exact Hc].
    destruct (userId b) as [uid|] eqn:Huid; [|refuse H].
    destruct (truthy (Some uid)) eqn:Tu; [|refuse H].
    destruct (text_ b) as [text|] eqn:Htext; [|refuse H].
    destruct (truthy (Some text)) eqn:Tt; [|refuse H].
    simpl in H.
    apply bind_ret_inv in H as (t1 & url & t2 & [-> ->]%ask_inv & H & ->).
    apply bind_ret_inv in H as (t1 & key & t3 & [-> ->]%ask_inv & H & ->).
    destruct (negb _ || negb _) in H; [discriminate|].
    apply bind_ret_inv in H as (t1 & [] & t4 & Hcl & H & ->).
    apply bind_ret_inv in H as (t5 & oc & t6 & Hs & H & ->).
    unfold single, call in Hs. injection Hs as <- <-.
    destruct (select_single w uid (js "x")) as [c|] eqn:Hsel; [|refuse H].
    destruct (post_tweet_accepted _ _ _ _ _ _ H Hc) as (-> & resp & Hf & Hok).
    assert (t1 = []) as ->.
    { unfold createClient in Hcl.
      repeat (destruct (negb _) in Hcl; [discriminate|]).
      apply ret_inv in Hcl. tauto. }
    exists uid, text, c, resp. repeat split; auto.
  - unfold Twitter.server_post in H.
    apply twitter_caught_is_500 in H; [|exact Hc].
    destruct (userId b) as [uid|] eqn:Huid; [|refuse H].
    destruct (truthy (Some uid)) eqn:Tu; [|refuse H].
    destruct (text_ b) as [text|] eqn:Htext; [|refuse H].
    destruct (truthy (Some text)) eqn:Tt; [|refuse H].
    simpl in H.
    apply bind_ret_inv in H as (t1 & url & t2 & [-> ->]%ask_inv & H & ->).
    apply bind_ret_inv in H as (t1 & key & t3 & [-> ->]%ask_inv & H & ->).
    apply bind_ret_inv in H as (t1 & [] & t4 & Hcl & H & ->).
    apply bind_ret_inv in H as (t5 & oc & t6 & Hs & H & ->).
    unfold single, call in Hs. injection Hs as <- <-.
    destruct (select_single w uid (js "x")) as [c|] eqn:Hsel; [|refuse H].
    destruct (post_tweet_accepted _ _ _ _ _ _ H Hc) as (-> & resp & Hf & Hok).
    assert (t1 = []) as ->.
    { unfold createClient in Hcl.
      repeat (destruct (negb _) in Hcl; [discriminate|]).
      apply ret_inv in Hcl. tauto. }
    exists uid, text, c, resp. repeat split; auto.
Qed.

Lemma twitter_success_witness :
  exists uid text c resp,
    userId hello = Some uid /\ text_ hello = Some text /\
    select_single accepting_world uid (js "x") = Some c /\
    let call := Twitter.tweet_call (access_token c)
                  (Twitter.tweetText text (imageUrl hello)) in
    [DbSelect (js "u1") (js "x"); Fetch (Twitter.tweet_call (js "token") (js "hello"))]
      = [DbSelect uid (js "x"); Fetch call] /\
    fetch_answer accepting_world call = Resolved resp /\ ok resp = true.
Proof.
  apply (twitter_success_means_provider_accepted hello accepting_world _
           {| code := 200;
              sent := obj [("success", JBool true); ("data", accepted_answer)] |}).
  - left. vm_compute. reflexivity.
  - reflexivity.
Defined.

(** *** A refusal of the provider *)

(** X5: when LinkedIn refuses a text-only post (a status outside 2xx), both
    endpoints answer with the provider's status code, and the [details] of
    the reply are the provider's response body, character for character.
    (The serverless handler needs the stored account id to get that
    far.) *)
Theorem linkedin_provider_refusal_is_relayed
    (b : post_body) (w : world) (uid text : jstring) (c : credentials)
    (resp : response) :
  configured w ->
  userId b = Some uid -> uid <> [] ->
  text_ b = Some text -> text <> [] -> length text <= 3000 ->
  truthy (imageUrl b) = false ->
  select_single w uid (js "linkedin") = Some c ->
  LinkedIn.expired c (now w) = false ->
  let call := LinkedIn.post_call (access_token c)
                (LinkedIn.postPayload (account_id c) text "NONE" JUndefined) in
  fetch_answer w call = Resolved resp ->
  ok resp = false ->
  (exists r, LinkedIn.server_post b w
               = ([DbSelect uid (js "linkedin"); Fetch call], Ret r) /\
             code r = status resp /\
             prop (sent r) "details" = Some (JStr (Net.text resp))) /\
  (truthy (account_id c) = true ->
   exists r, LinkedIn.handler (POST b) w
               = ([DbSelect uid (js "linkedin"); Fetch call], Ret r) /\
             code r = status resp /\
             prop (sent r) "details" = Some (JStr (Net.text resp))).
Proof.
  intros (Hu & Hk & Hvu & Hsk)%configured_env Huid Hne Htext Htne Hlen Himg Hsel Hexp
    call Hf Hok.
  assert (Tu : truthy (userId b) = true) by (rewrite Huid; apply truthy_nonempty, Hne).
  assert (Tt : truthy (text_ b) = true) by (rewrite Htext; apply truthy_nonempty, Htne).
  assert (Hl : (3000 <? length text) = false) by (apply Nat.ltb_ge; lia).
  assert (Hp : LinkedIn.create_post (access_token c)
                 (LinkedIn.postPayload (account_id c) text "NONE" JUndefined) w
               = ([Fetch call],
                  Ret {| code := status resp;
                         sent := obj [("error",
                                       match JSON_parse (Net.text resp)
                                             ≫= (fun v => prop v "message") with
                                       | Some m => if truthy_val m then m
                                                   else JStr (js "Failed to post to LinkedIn")
                                       | None => JStr (js "Failed to post to LinkedIn")
                                       end);
                                      ("details", JStr (Net.text resp))] |})).
  { unfold LinkedIn.create_post. rewrite run_bind. unfold fetch at 1.
    rewrite run_bind. unfold Eff.call at 1. simpl. fold call. rewrite Hf. simpl.
    rewrite Hok. reflexivity. }
  split; [|intros Hacc].
  - eexists. split; [|split].
    + unfold LinkedIn.server_post. rewrite run_try_catch. simpl.
      rewrite Tu, Tt, Huid, Htext. simpl. rewrite Hl.
      unfold LinkedIn.server_image_stage. rewrite Himg.
      repeat (rewrite ?run_bind; unfold ask, single, Eff.call, createClient, ret; simpl;
              rewrite ?Hu, ?Hk, ?Hsel, ?Hexp; simpl).
      rewrite Hp. reflexivity.
    + reflexivity.
    + reflexivity.
  - eexists. split; [|split].
    + unfold LinkedIn.handler, POST. simpl. rewrite run_try_catch. simpl.
      rewrite Tu, Tt, Huid, Htext. simpl. rewrite Hl.
      unfold LinkedIn.image_stage. rewrite Himg.
      repeat (rewrite ?run_bind; unfold ask, single, Eff.call, createClient, ret; simpl;
              rewrite ?Hvu, ?Hsk, ?Hsel, ?Hexp, ?Hacc; simpl).
      rewrite Hp. reflexivity.
    + reflexivity.
    + reflexivity.
Qed.

Lemma linkedin_refusal_witness :
  let call := LinkedIn.post_call (access_token valid_credentials)
                (LinkedIn.postPayload (account_id valid_credentials) (js "hello")
                   "NONE" JUndefined) in
  (exists r, LinkedIn.server_post hello refusing_world
               = ([DbSelect (js "u1") (js "linkedin"); Fetch call], Ret r) /\
             code r = 422%Z /\
             prop (sent r) "details" = Some (JStr (jsq "{'message':'Duplicate post'}"))) /\
  (truthy (account_id valid_credentials) = true ->
   exists r, LinkedIn.handler (POST hello) refusing_world
               = ([DbSelect (js "u1") (js "linkedin"); Fetch call], Ret r) /\
             code r = 422%Z /\
             prop (sent r) "details" = Some (JStr (jsq "{'message':'Duplicate post'}"))).
Proof.
  apply (linkedin_provider_refusal_is_relayed hello refusing_world (js "u1") (js "hello")
           valid_credentials
           {| status := 422; text := jsq "{'message':'Duplicate post'}" |}).
  - repeat constructor.
  - reflexivity.
  - discriminate.
  - reflexivity.
  - discriminate.
  - vm_compute. lia.
  - reflexivity.
  - reflexivity.
  - reflexivity.
  - reflexivity.
  - reflexivity.
Defined.

(** *** Runs with a stored credential *)

Lemma linkedin_text_only_trace b w uid text c :
  configured w ->
  userId b = Some uid -> uid <> [] ->
  text_ b = Some text -> text <> [] -> length text <= 3000 ->
  truthy (imageUrl b) = false ->
  select_single w uid (js "linkedin") = Some c ->
  LinkedIn.expired c (now w) = false ->
  let call := LinkedIn.post_call (Net.access_token c)
                (LinkedIn.postPayload (Net.account_id c) text "NONE" JUndefined) in
  (LinkedIn.server_post b w).1 = [DbSelect uid (js "linkedin"); Fetch call] /\
  (truthy (Net.account_id c) = true ->
   (LinkedIn.handler (POST b) w).1 = [DbSelect uid (js "linkedin"); Fetch call]).
Proof.
  intros (Hu & Hk & Hvu & Hsk)%configured_env Huid Hne Htext Htne Hlen Himg Hsel Hexp call.
  assert (Tu : truthy (userId b) = true) by (rewrite Huid; apply truthy_nonempty, Hne).
  assert (Tt : truthy (text_ b) = true) by (rewrite Htext; apply truthy_nonempty, Htne).
  assert (Hl : (3000 <? length text) = false) by (apply Nat.ltb_ge; lia).
  pose proof (PublishFacts.create_post_trace (Net.access_token c)
                (LinkedIn.postPayload (Net.account_id c) text "NONE" JUndefined) w) as Hp.
  split; [|intros Hacc].
  - unfold LinkedIn.server_post. rewrite run_try_catch. simpl.
    rewrite Tu, Tt, Huid, Htext. simpl. rewrite Hl.
    unfold LinkedIn.server_image_stage. rewrite Himg.
    repeat (rewrite ?run_bind; unfold ask, single, Eff.call, createClient, ret; simpl;
            rewrite ?Hu, ?Hk, ?Hsel, ?Hexp; simpl).
    destruct (LinkedIn.create_post _ _ w) as [tp [r|e]]; simpl in *; subst tp; reflexivity.
  - unfold LinkedIn.handler, POST. simpl. rewrite run_try_catch. simpl.
    rewrite Tu, Tt, Huid, Htext. simpl. rewrite Hl.
    unfold LinkedIn.image_stage. rewrite Himg.
    repeat (rewrite ?run_bind; unfold ask, single, Eff.call, createClient, ret; simpl;
            rewrite ?Hvu, ?Hsk, ?Hsel, ?Hexp, ?Hacc; simpl).
    destruct (LinkedIn.create_post _ _ w) as [tp [r|e]]; simpl in *; subst tp; reflexivity.
Qed.

Lemma post_tweet_single_call c text image w :
  (Twitter.post_tweet c text image w).1
  = [Fetch (Twitter.tweet_call (Net.access_token c) (Twitter.tweetText text image))].
Proof.
  unfold Twitter.post_tweet. rewrite run_bind. unfold fetch at 1.
  rewrite run_bind. unfold Eff.call at 1. simpl.
  destruct (fetch_answer w _) as [e|resp]; simpl; [reflexivity|].
  rewrite run_bind. unfold json.
  destruct (JSON_parse (Net.text resp)) as [data|]; simpl; [|reflexivity].
  destruct (negb (ok resp)).
  - destruct (status resp =? 403)%Z; [reflexivity|].
    rewrite run_bind. destruct (prop data "detail"); reflexivity.
  - rewrite run_bind. destruct (prop data "data"); reflexivity.
Qed.

Lemma twitter_stored_credential_trace b w uid text c :
  configured w ->
  userId b = Some uid -> uid <> [] ->
  text_ b = Some text -> text <> [] ->
  select_single w uid (js "x") = Some c ->
  let call := Twitter.tweet_call (Net.access_token c)
                (Twitter.tweetText text (imageUrl b)) in
  (Twitter.handler (POST b) w).1 = [DbSelect uid (js "x"); Fetch call] /\
  (Twitter.server_post b w).1 = [DbSelect uid (js "x"); Fetch call].
Proof.
  intros (Hu & Hk & Hvu & Hsk)%configured_env Huid Hne Htext Htne Hsel call.
  assert (Tu : truthy (userId b) = true) by (rewrite Huid; apply truthy_nonempty, Hne).
  assert (Tt : truthy (text_ b) = true) by (rewrite Htext; apply truthy_nonempty, Htne).
  pose proof (post_tweet_single_call c text (imageUrl b) w) as Hp.
  split.
  - unfold Twitter.handler, POST. simpl. rewrite run_try_catch. simpl.
    rewrite Tu, Tt, Huid, Htext. simpl.
    repeat (rewrite ?run_bind; unfold ask, single, Eff.call, createClient, ret, or_else; simpl;
            rewrite ?Hu, ?Hk, ?Hvu, ?Hsk, ?Hsel; simpl).
    destruct (Twitter.post_tweet _ _ _ w) as [tp [r|e]]; simpl in *; subst tp; reflexivity.
  - unfold Twitter.server_post. rewrite run_try_catch. simpl.
    rewrite Tu, Tt, Huid, Htext. simpl.
    repeat (rewrite ?run_bind; unfold ask, single, Eff.call, createClient, ret; simpl;
            rewrite ?Hu, ?Hk, ?Hsel; simpl).
    destruct (Twitter.post_tweet _ _ _ w) as [tp [r|e]]; simpl in *; subst tp; reflexivity.
Qed.

Lemma linkedin_handler_without_profile_id b w uid text c :
  configured w ->
  userId b = Some uid -> uid <> [] ->
  text_ b = Some text -> text <> [] -> length text <= 3000 ->
  select_single w uid (js "linkedin") = Some c ->
  Net.account_id c = None ->
  exists r,
    LinkedIn.handler (POST b) w = ([DbSelect uid (js "linkedin")], Ret r) /\
    (code r = 401 \/ code r = 500)%Z.
Proof.
  intros (Hu & Hk & Hvu & Hsk)%configured_env Huid Hne Htext Htne Hlen Hsel Hacc.
  assert (Tu : truthy (userId b) = true) by (rewrite Huid; apply truthy_nonempty, Hne).
  assert (Tt : truthy (text_ b) = true) by (rewrite Htext; apply truthy_nonempty, Htne).
  assert (Hl : (3000 <? length text) = false) by (apply Nat.ltb_ge; lia).
  unfold LinkedIn.handler, POST. simpl. rewrite run_try_catch. simpl.
  rewrite Tu, Tt, Huid, Htext. simpl. rewrite Hl.
  repeat (rewrite ?run_bind; unfold ask, single, Eff.call, createClient, ret; simpl;
          rewrite ?Hvu, ?Hsk, ?Hsel; simpl).
  destruct (LinkedIn.expired c (Net.now w)); simpl.
  - eexists. split; [reflexivity|]. left. reflexivity.
  - rewrite Hacc. simpl. eexists. split; [reflexivity|]. right. reflexivity.
Qed.

End PublishMore.

(** ** Connecting, publishing, disconnecting *)

Module ConnectedFacts.
Import Credentials Connected Samples CredentialsFacts PublishMore.

(** *** What a write leaves alone *)

Lemma filter_key_update_other (k k' : jstring * jstring) f (t : list row) :
  (forall r, key (f r) = key r) -> k <> k' ->
  filter (fun r => key r = k) (update_where k' f t) = filter (fun r => key r = k) t.
Proof.
  intros Hf Hne. induction t as [|r t IH]; simpl; [reflexivity|].
  rewrite !filter_cons, IH.
  destruct (has_key k' r) eqn:Hk.
  - apply has_key_true in Hk.
    destruct (decide (key (f r) = k)) as [E|_]; [rewrite Hf in E; congruence|].
    destruct (decide (key r = k)) as [E|_]; [congruence|reflexivity].
  - reflexivity.
Qed.

(** A successful upsert leaves the rows under every other key as they
    were. *)
Lemma upsert_frame now p d d' u pf k :
  p_user_id p = Some u -> p_platform p = Some pf ->
  upsert now p d = inr d' -> k <> (u, pf) ->
  rows_of k d' = rows_of k d.
Proof.
  unfold rows_of, upsert. intros Hu Hpf Hup Hne. rewrite Hu, Hpf in Hup.
  destruct (p_access_token p) as [tok|]; [|discriminate].
  destruct (negb (existsb (jeq pf) allowed_platforms)); [discriminate|].
  destruct (existsb (has_key (u, pf)) (table d)).
  - injection Hup as <-. simpl.
    apply filter_key_update_other; [apply key_merged|exact Hne].
  - destruct (negb (existsb (jeq u) (users d))); [discriminate|].
    injection Hup as <-. simpl. rewrite filter_app, filter_cons, filter_nil.
    destruct (decide (key (proposed now u pf tok p) = k)) as [E|_].
    + unfold key in E. simpl in E. congruence.
    + apply app_nil_r.
Qed.

Lemma store_frame now p d u pf k :
  p_user_id p = Some u -> p_platform p = Some pf -> k <> (u, pf) ->
  rows_of k (store now p d).2 = rows_of k d.
Proof.
  intros Hu Hpf Hne. unfold store.
  destruct (upsert now p d) as [e|d'] eqn:Hup; simpl; [reflexivity|].
  eapply upsert_frame; eassumption.
Qed.

Lemma delete_frame u pf d k : k <> (u, pf) -> rows_of k (delete u pf d) = rows_of k d.
Proof.
  unfold rows_of, delete. simpl. intros Hne.
  induction (table d) as [|r t IH]; [reflexivity|].
  rewrite !filter_cons.
  destruct (decide (key r ≠ (u, pf))) as [Hr|Hr].
  - rewrite filter_cons, IH. reflexivity.
  - rewrite IH. destruct (decide (key r = k)) as [E|_]; [|reflexivity].
    exfalso. apply Hr. congruence.
Qed.

Lemma delete_removes u pf d : rows_of (u, pf) (delete u pf d) = [].
Proof.
  unfold rows_of, delete. simpl.
  induction (table d) as [|r t IH]; [reflexivity|].
  rewrite filter_cons. destruct (decide (key r ≠ (u, pf))) as [Hr|Hr]; [|exact IH].
  rewrite filter_cons, IH. destruct (decide (key r = (u, pf))); [contradiction|reflexivity].
Qed.

Lemma upsert_has_key now p d d' u pf :
  p_user_id p = Some u -> p_platform p = Some pf ->
  upsert now p d = inr d' -> (u, pf) ∈ map key (table d').
Proof.
  unfold upsert. intros -> -> Hup.
  destruct (p_access_token p) as [tok|]; [|discriminate].
  destruct (negb _); [discriminate|].
  destruct (existsb (has_key (u, pf)) (table d)) eqn:Hex.
  - injection Hup as <-. simpl. rewrite keys_update_where by apply key_merged.
    apply existsb_has_key, Hex.
  - destruct (negb _); [discriminate|]. injection Hup as <-. simpl.
    rewrite map_app. apply elem_of_app. right. simpl. apply list_elem_of_singleton.
    reflexivity.
Qed.

Lemma rows_of_nil_no_key k d : rows_of k d = [] -> existsb (has_key k) (table d) = false.
Proof.
  unfold rows_of. intros Hnil. apply not_true_is_false. intros Hex.
  apply existsb_has_key, list_elem_of_fmap in Hex as (r & Hk & Hin).
  assert (Hr : r ∈ filter (fun r => key r = k) (table d))
    by (apply list_elem_of_filter; auto).
  rewrite Hnil in Hr. inversion Hr.
Qed.

(** X10: the writes to the credential table are local.  [handleAuthCallback]
    and [handleTwitterCallback] leave every row of another user as it was
    (and the X flow every row of another platform), the LinkedIn callback
    route leaves every row of another platform as it was, and a disconnect
    changes no row but the one it names. *)
Theorem connect_flows_leave_other_rows (d : db) (k : jstring * jstring) :
  (forall user intended now db_now s,
      user <> Some k.1 ->
      rows_of k (handleAuthCallback user intended now db_now s d).2 = rows_of k d) /\
  (forall user now db_now data,
      user <> Some k.1 \/ k.2 <> js "x" ->
      rows_of k (handleTwitterCallback user now db_now data d).2 = rows_of k d) /\
  (forall w q,
      k.2 <> js "linkedin" ->
      rows_of k (linkedin_callback w q d).2 = rows_of k d) /\
  (forall u pf, k <> (u, pf) -> rows_of k (delete u pf d) = rows_of k d).
Proof.
  destruct k as [ku kp]. simpl. repeat split.
  - intros user intended now db_now s Hne. unfold handleAuthCallback.
    repeat match goal with
           | |- rows_of _ (store _ _ _).2 = _ =>
               eapply store_frame; [reflexivity|reflexivity|congruence]
           | |- rows_of _ (_, d).2 = _ => reflexivity
           | |- context [match ?x with _ => _ end] => destruct x
           end.
  - intros user now db_now data Hne. unfold handleTwitterCallback.
    destruct user as [uid|]; [|reflexivity].
    eapply store_frame; [reflexivity|reflexivity|].
    intros [= -> ->]. destruct Hne; congruence.
  - intros w q Hne. unfold linkedin_callback.
    repeat match goal with
           | |- rows_of _ (store _ _ _).2 = _ =>
               eapply store_frame; [reflexivity|reflexivity|congruence]
           | |- rows_of _ (_, d).2 = _ => reflexivity
           | |- context [match ?x with _ => _ end] => destruct x
           end.
  - intros u pf Hne. apply delete_frame, Hne.
Qed.

(** *** From the callback to the post *)

(** What a successful run of the LinkedIn callback route has seen and
    stored. *)
Lemma linkedin_callback_connected cw q d d' :
  linkedin_callback cw q d = (Connected, d') ->
  exists uid ts tk ps pd secs member,
    (JSON_parse (cb_decode cw (default [] (q_state q))) ≫= (fun v => prop v "userId"))
      = Some (JStr uid) /\ uid <> [] /\
    cb_token cw = Some (ts, Some tk) /\ tk_expires_in tk = Some secs /\
    cb_profile cw = Some (ps, Some pd) /\ sub pd = Some member /\ member <> [] /\
    upsert (cb_db_now cw) (linkedin_payload cw uid tk secs member pd) d = inr d'.
Proof.
  unfold linkedin_callback. intros H.
  destruct (truthy (q_error q)); [discriminate|].
  destruct (negb (truthy (q_code q)) || negb (truthy (q_state q))); [discriminate|].
  destruct (JSON_parse _) as [stateData|] eqn:Hstate; [|discriminate].
  destruct (prop stateData "userId") as [uid|] eqn:Huid; [|discriminate].
  destruct (truthy_val uid) eqn:Tuid; [|discriminate]. simpl in H.
  destruct (negb _ || negb _) in H; [discriminate|].
  destruct (cb_token cw) as [[ts tok]|] eqn:Htok; [|discriminate].
  destruct (negb (is_2xx ts)); [discriminate|].
  destruct tok as [tk|]; [|discriminate].
  destruct (cb_profile cw) as [[ps prof]|] eqn:Hprof; [|discriminate].
  destruct (negb (is_2xx ps)); [discriminate|].
  destruct prof as [pd|]; [|discriminate].
  destruct (truthy (sub pd)) eqn:Tsub; [|discriminate]. simpl in H.
  destruct (tk_expires_in tk) as [secs|] eqn:Hsecs; [|discriminate].
  destruct (negb _ || negb _) in H; [discriminate|].
  destruct uid as [| | | |uid| |]; try discriminate.
  apply truthy_some in Tsub as (member & Hsub & Hmne).
  unfold store in H.
  destruct (upsert _ _ d) as [e|d1] eqn:Hup; [discriminate|]. injection H as <-.
  exists uid, ts, tk, ps, pd, secs, member.
  rewrite Hsub in Hup. simpl in Hup.
  split; [exact Huid|].
  split; [intros ->; discriminate|].
  repeat split; auto.
Qed.

(** X6: connect, then publish.  When the LinkedIn callback route reports
    success, the state named a user, the token exchange gave a token and a
    lifetime and the profile gave a member id; and from then on, until the
    stored expiry ([cb_now + expires_in * 1000]), a text-only publish
    request of that user reaches the provider through either endpoint:
    the run is the credential lookup followed by [POST /v2/ugcPosts] with
    the new token, authored as the member. *)
Theorem linkedin_connect_then_publish
    (cw : callback_world) (q : callback_query) (d d' : db) :
  unique d ->
  linkedin_callback cw q d = (Connected, d') ->
  exists uid tok member ts tk secs,
    (JSON_parse (cb_decode cw (default [] (q_state q))) ≫= (fun v => prop v "userId"))
      = Some (JStr uid) /\
    cb_token cw = Some (ts, Some tk) /\
    tk_access_token tk = Some tok /\ tk_expires_in tk = Some secs /\
    (exists ps pd, cb_profile cw = Some (ps, Some pd) /\ sub pd = Some member) /\
    forall (w : world) (b : post_body) (text : jstring),
      configured w ->
      userId b = Some uid ->
      text_ b = Some text -> text <> [] -> length text <= 3000 ->
      truthy (imageUrl b) = false ->
      (Net.now w <= cb_now cw + secs * 1000)%Z ->
      let call := LinkedIn.post_call tok
                    (LinkedIn.postPayload (Some member) text "NONE" JUndefined) in
      (LinkedIn.handler (POST b) (serve d' w)).1
        = [DbSelect uid (js "linkedin"); Fetch call] /\
      (LinkedIn.server_post b (serve d' w)).1
        = [DbSelect uid (js "linkedin"); Fetch call].
Proof.
  intros Hnd H.
  apply linkedin_callback_connected in H
    as (uid & ts & tk & ps & pd & secs & member & Hstate & Hune & Htok & Hsecs
        & Hprof & Hsub & Hmne & Hup).
  destruct (tk_access_token tk) as [tok|] eqn:Hat;
    [|unfold upsert in Hup; simpl in Hup; rewrite Hat in Hup; discriminate].
  destruct (upsert_one_row (cb_db_now cw) (linkedin_payload cw uid tk secs member pd)
              d d' uid (js "linkedin") Hnd eq_refl eq_refl Hup)
    as (_ & r & Hrows & Hrefl).
  exists uid, tok, member, ts, tk, secs.
  do 5 (split; [eauto|]).
  intros w b text Hcfg Huid Htext Htne Hlen Himg Hnow call.
  destruct Hrefl as (_ & _ & Hr_tok & _ & _ & Hr_exp & _ & Hr_acc & _).
  simpl in Hr_tok, Hr_exp, Hr_acc. rewrite Hat in Hr_tok. simpl in Hr_tok.
  assert (Hsel : select_single (serve d' w) uid (js "linkedin") = Some (credentials_of r)).
  { simpl. unfold select_from. rewrite Hrows. reflexivity. }
  assert (Hexp : LinkedIn.expired (credentials_of r) (Net.now (serve d' w)) = false).
  { unfold LinkedIn.expired. simpl. rewrite Hr_exp. simpl. apply Z.ltb_ge. exact Hnow. }
  destruct (linkedin_text_only_trace b (serve d' w) uid text (credentials_of r)
              (configured_serve _ _ Hcfg) Huid Hune Htext Htne Hlen Himg Hsel Hexp)
    as [Hs Hh].
  simpl in Hs, Hh. rewrite Hr_tok, Hr_acc in Hs, Hh.
  split; [apply Hh, truthy_nonempty, Hmne|exact Hs].
Qed.

Lemma linkedin_connect_witness :
  let d' := (linkedin_callback sample_callback sample_query sample_db).2 in
  exists uid tok member ts tk secs,
    (JSON_parse (cb_decode sample_callback (default [] (q_state sample_query)))
       ≫= (fun v => prop v "userId")) = Some (JStr uid) /\
    cb_token sample_callback = Some (ts, Some tk) /\
    tk_access_token tk = Some tok /\ tk_expires_in tk = Some secs /\
    (exists ps pd, cb_profile sample_callback = Some (ps, Some pd)
                   /\ sub pd = Some member) /\
    forall (w : world) (b : post_body) (text : jstring),
      configured w ->
      userId b = Some uid ->
      text_ b = Some text -> text <> [] -> length text <= 3000 ->
      truthy (imageUrl b) = false ->
      (Net.now w <= cb_now sample_callback + secs * 1000)%Z ->
      let call := LinkedIn.post_call tok
                    (LinkedIn.postPayload (Some member) text "NONE" JUndefined) in
      (LinkedIn.handler (POST b) (serve d' w)).1
        = [DbSelect uid (js "linkedin"); Fetch call] /\
      (LinkedIn.server_post b (serve d' w)).1
        = [DbSelect uid (js "linkedin"); Fetch call].
Proof.
  apply (linkedin_connect_then_publish sample_callback sample_query sample_db).
  - constructor.
  - vm_compute. reflexivity.
Defined.

(** X7: connect X, then tweet.  When [handleTwitterCallback] reports
    success for the signed-in user, the token response carried an access
    token, and from then on every publish request of that user is sent to
    the provider with that token by both Twitter endpoints, whatever expiry
    was stored: the run is the credential lookup followed by
    [POST /2/tweets]. *)
Theorem twitter_connect_then_publish
    (uid : jstring) (now db_now : Z) (data : twitter_data) (d d' : db) :
  unique d ->
  handleTwitterCallback (Some uid) now db_now data d = (Connected, d') ->
  exists tok,
    td_access_token data = Some tok /\
    forall (w : world) (b : post_body) (text : jstring),
      configured w ->
      userId b = Some uid -> uid <> [] ->
      text_ b = Some text -> text <> [] ->
      let call := Twitter.tweet_call tok (Twitter.tweetText text (imageUrl b)) in
      (Twitter.handler (POST b) (serve d' w)).1 = [DbSelect uid (js "x"); Fetch call] /\
      (Twitter.server_post b (serve d' w)).1 = [DbSelect uid (js "x"); Fetch call].
Proof.
  intros Hnd H. unfold handleTwitterCallback, store in H.
  destruct (upsert _ _ d) as [e|d1] eqn:Hup; [discriminate|]. injection H as <-.
  destruct (td_access_token data) as [tok|] eqn:Hat;
    [|unfold upsert in Hup; simpl in Hup; discriminate].
  match type of Hup with upsert ?n ?p _ = _ =>
    destruct (upsert_one_row n p d d1 uid (js "x") Hnd eq_refl eq_refl Hup)
      as (_ & r & Hrows & Hrefl)
  end.
  exists tok. split; [reflexivity|].
  intros w b text Hcfg Huid Hune Htext Htne call.
  destruct Hrefl as (_ & _ & Hr_tok & _). simpl in Hr_tok.
  assert (Hsel : select_single (serve d1 w) uid (js "x") = Some (credentials_of r)).
  { simpl. unfold select_from. rewrite Hrows. reflexivity. }
  pose proof (twitter_stored_credential_trace b (serve d1 w) uid text (credentials_of r)
                (configured_serve _ _ Hcfg) Huid Hune Htext Htne Hsel) as Ht.
  simpl in Ht. rewrite Hr_tok in Ht. exact Ht.
Qed.

Lemma twitter_connect_witness :
  let d' := (handleTwitterCallback (Some (js "u1")) 1700000000000 1700000000001
               sample_twitter_data sample_db).2 in
  exists tok,
    td_access_token sample_twitter_data = Some tok /\
    forall (w : world) (b : post_body) (text : jstring),
      configured w ->
      userId b = Some (js "u1") -> js "u1" <> [] ->
      text_ b = Some text -> text <> [] ->
      let call := Twitter.tweet_call tok (Twitter.tweetText text (imageUrl b)) in
      (Twitter.handler (POST b) (serve d' w)).1 = [DbSelect (js "u1") (js "x"); Fetch call] /\
      (Twitter.server_post b (serve d' w)).1 = [DbSelect (js "u1") (js "x"); Fetch call].
Proof.
  apply (twitter_connect_then_publish (js "u1") 1700000000000 1700000000001
           sample_twitter_data sample_db).
  - constructor.
  - vm_compute. reflexivity.
Defined.

(** *** Disconnecting *)

Lemma disconnect_body_done url key user deleteError d r d' :
  disconnect_body url key user deleteError d = (r, d') -> code r = 200%Z ->
  exists uid, user = Some uid /\ uid <> [] /\ d' = delete uid (js "linkedin") d.
Proof.
  unfold disconnect_body. intros H Hc.
  destruct user as [[|u0 uid]|]; try (injection H as <- <-; discriminate).
  destruct (negb (truthy url)); [injection H as <- <-; discriminate|].
  destruct (negb (truthy key)); [injection H as <- <-; discriminate|].
  destruct deleteError; injection H as <- <-; [discriminate|].
  eexists. split; [reflexivity|]. split; [discriminate|reflexivity].
Qed.

(** X8: disconnect, then publish.  When either LinkedIn disconnect endpoint
    answers 200, the request named a user, that user's LinkedIn row is gone
    and every other row is untouched; and a publish request of that user,
    through either endpoint, is then answered 404 "LinkedIn account not
    connected" after the credential lookup alone. *)
Theorem disconnect_then_publish_not_connected
    (env : string -> option jstring) (verb : string)
    (user deleteError : option jstring) (d d' : db) (r : reply) :
  (server_disconnect env user deleteError d = (r, d') \/
   disconnect_handler env verb user deleteError d = (r, d')) ->
  code r = 200%Z ->
  exists uid,
    user = Some uid /\
    rows_of (uid, js "linkedin") d' = [] /\
    (forall k, k <> (uid, js "linkedin") -> rows_of k d' = rows_of k d) /\
    forall (w : world) (b : post_body) (text : jstring),
      configured w ->
      userId b = Some uid ->
      text_ b = Some text -> text <> [] -> length text <= 3000 ->
      LinkedIn.handler (POST b) (serve d' w)
        = ([DbSelect uid (js "linkedin")], Ret LinkedIn.not_connected) /\
      LinkedIn.server_post b (serve d' w)
        = ([DbSelect uid (js "linkedin")], Ret LinkedIn.not_connected).
Proof.
  intros H Hc.
  assert (Hd : exists uid, user = Some uid /\ uid <> []
                           /\ d' = delete uid (js "linkedin") d).
  { destruct H as [H|H].
    - eapply disconnect_body_done; eassumption.
    - unfold disconnect_handler in H.
      destruct (negb (String.eqb verb "POST")); [injection H as <- <-; discriminate|].
      eapply disconnect_body_done; eassumption. }
  destruct Hd as (uid & -> & Hne & ->).
  exists uid. split; [reflexivity|]. split; [apply delete_removes|].
  split; [intros k Hk; apply delete_frame, Hk|].
  intros w b text Hcfg Huid Htext Htne Hlen.
  apply (linkedin_not_connected b _ uid text); auto.
  simpl. unfold select_from. rewrite delete_removes. reflexivity.
Qed.

Lemma disconnect_witness :
  let d := (linkedin_callback sample_callback sample_query sample_db).2 in
  let d' := (server_disconnect (fun _ => Some (js "configured")) (Some (js "u1"))
               None d).2 in
  exists uid,
    Some (js "u1") = Some uid /\
    rows_of (uid, js "linkedin") d' = [] /\
    (forall k, k <> (uid, js "linkedin") -> rows_of k d' = rows_of k d) /\
    forall (w : world) (b : post_body) (text : jstring),
      configured w ->
      userId b = Some uid ->
      text_ b = Some text -> text <> [] -> length text <= 3000 ->
      LinkedIn.handler (POST b) (serve d' w)
        = ([DbSelect uid (js "linkedin")], Ret LinkedIn.not_connected) /\
      LinkedIn.server_post b (serve d' w)
        = ([DbSelect uid (js "linkedin")], Ret LinkedIn.not_connected).
Proof.
  apply (disconnect_then_publish_not_connected (fun _ => Some (js "configured")) "POST"
           (Some (js "u1")) None _ _ disconnected).
  - left. vm_compute. reflexivity.
  - reflexivity.
Defined.

(** *** The connections screen *)

Lemma isConnected_spec uid cfg d old :
  isConnected (checkConnections (Some uid) false d old) cfg = true
  <-> (uid, js (dbPlatform cfg)) ∈ map key (table d).
Proof.
  unfold isConnected, checkConnections. rewrite bool_decide_eq_true.
  rewrite !list_elem_of_fmap. split.
  - intros (r & Hp & [Hu Hin]%list_elem_of_filter). exists r. split; [|exact Hin].
    unfold key. congruence.
  - intros (r & Hk & Hin). unfold key in Hk. injection Hk as Hu Hp.
    exists r. split; [exact Hp|]. apply list_elem_of_filter. auto.
Qed.

(** X11: what the connections screen shows follows the table whenever the
    query of [checkConnections] succeeds, and only then.  After a query
    that succeeds, a platform is shown as connected exactly when the
    signed-in user has a row for it; so after a confirmed
    [handleDisconnect] that the database accepts it is shown as not
    connected, and after a [handleAuthCallback] that reports success the
    platform it resolved is shown as connected.  When the query fails
    ([selectError]), [checkConnections] leaves the list as it was: what is
    shown for every platform is what was shown before, whatever the table
    holds now. *)
Theorem connection_list_follows_table
    (uid : jstring) (d : db) (old : list jstring) (selectError : bool) :
  (forall cfg,
      if selectError
      then isConnected (checkConnections (Some uid) selectError d old) cfg
           = isConnected old cfg
      else isConnected (checkConnections (Some uid) selectError d old) cfg = true
           <-> rows_of (uid, js (dbPlatform cfg)) d <> []) /\
  (forall cfg,
      isConnected (checkConnections (Some uid) selectError
                     (handleDisconnect true (Some uid) None cfg d) old) cfg
      = if selectError then isConnected old cfg else false) /\
  (forall intended now db_now s d',
      handleAuthCallback (Some uid) intended now db_now s d = (Connected, d') ->
      exists prov cfg,
        app_provider s = Some prov /\ find_platform intended prov = Some cfg /\
        isConnected (checkConnections (Some uid) selectError d' old) cfg
        = if selectError then isConnected old cfg else true).
Proof.
  destruct selectError.
  { split; [|split].
    - intros cfg. reflexivity.
    - intros cfg. reflexivity.
    - intros intended now db_now s d' H. unfold handleAuthCallback in H.
      destruct (negb (truthy (provider_token s))); [discriminate|].
      destruct (app_provider s) as [prov|]; [|discriminate].
      destruct (find_platform intended prov) as [cfg|] eqn:Hcfg; [|discriminate].
      exists prov, cfg. auto. }
  split; [|split].
  - intros cfg. rewrite isConnected_spec. unfold rows_of. split.
    + intros (r & Hk & Hin)%list_elem_of_fmap Hnil.
      assert (Hr : r ∈ filter (fun r => key r = (uid, js (dbPlatform cfg))) (table d))
        by (apply list_elem_of_filter; auto).
      rewrite Hnil in Hr. inversion Hr.
    + intros Hne. destruct (filter _ (table d)) as [|r t] eqn:Hf; [contradiction|].
      assert (Hr : r ∈ filter (fun r => key r = (uid, js (dbPlatform cfg))) (table d))
        by (rewrite Hf; left).
      apply list_elem_of_filter in Hr as [Hk Hin].
      apply list_elem_of_fmap. eauto.
  - intros cfg. apply not_true_is_false. rewrite isConnected_spec. simpl.
    intros (r & Hk & Hin)%list_elem_of_fmap.
    assert (Hr : r ∈ rows_of (uid, js (dbPlatform cfg))
                       (delete uid (js (dbPlatform cfg)) d))
      by (apply list_elem_of_filter; auto).
    rewrite delete_removes in Hr. inversion Hr.
  - intros intended now db_now s d' H. unfold handleAuthCallback in H.
    destruct (negb (truthy (provider_token s))); [discriminate|].
    destruct (app_provider s) as [prov|]; [|discriminate].
    destruct (find_platform intended prov) as [cfg|] eqn:Hcfg; [|discriminate].
    unfold store in H. destruct (upsert _ _ d) as [e|d1] eqn:Hup; [discriminate|].
    injection H as <-. exists prov, cfg. split; [reflexivity|]. split; [exact Hcfg|].
    apply isConnected_spec. eapply upsert_has_key; [| |exact Hup]; reflexivity.
Qed.

(** A stale list: the user's LinkedIn row is deleted, the query that
    follows fails, and LinkedIn is still shown as connected. *)
Example stale_connection_list :
  let d := {| users := [js "u1"]; table := [] |} in
  isConnected (checkConnections (Some (js "u1")) true
                 (handleDisconnect true (Some (js "u1")) None linkedin_platform d)
                 [js "linkedin"])
              linkedin_platform = true /\
  isConnected (checkConnections (Some (js "u1")) false
                 (handleDisconnect true (Some (js "u1")) None linkedin_platform d)
                 [js "linkedin"])
              linkedin_platform = false.
Proof. vm_compute. split; reflexivity. Qed.

(** *** A credential without an account id *)

(** X9: a first LinkedIn connection made through the generic popup flow
    cannot publish through the serverless handler.  [handleAuthCallback]
    stores no [account_id]; so the handler answers every publish request
    of that user after the credential lookup alone, with 401 (the stored
    expiry has passed, or none was stored) or with 500 "LinkedIn profile
    ID not found", and never calls the provider. *)
Theorem popup_linkedin_connection_cannot_publish
    (uid : jstring) (intended prov : option jstring) (cfg : SocialPlatform)
    (now db_now : Z) (s : session) (d d' : db)
    (w : world) (b : post_body) (text : jstring) :
  handleAuthCallback (Some uid) intended now db_now s d = (Connected, d') ->
  app_provider s = Some prov ->
  find_platform intended prov = Some cfg ->
  dbPlatform cfg = "linkedin" ->
  rows_of (uid, js "linkedin") d = [] ->
  configured w ->
  userId b = Some uid -> uid <> [] ->
  text_ b = Some text -> text <> [] -> length text <= 3000 ->
  exists r,
    LinkedIn.handler (POST b) (serve d' w) = ([DbSelect uid (js "linkedin")], Ret r) /\
    (code r = 401 \/ code r = 500)%Z.
Proof.
  intros H Hprov Hcfg Hpf Hnil Hw Huid Hne Htext Htne Hlen.
  unfold handleAuthCallback in H. rewrite Hprov, Hcfg, Hpf in H.
  destruct (negb (truthy (provider_token s))); [discriminate|].
  unfold store in H. destruct (upsert _ _ d) as [e|d1] eqn:Hup; [discriminate|].
  injection H as <-.
  unfold upsert in Hup. simpl in Hup.
  destruct (provider_token s) as [tok|]; [|discriminate].
  rewrite (rows_of_nil_no_key _ _ Hnil) in Hup. simpl in Hup.
  destruct (negb (existsb (jeq uid) (users d))); [discriminate|].
  injection Hup as <-.
  assert (Hsel : exists c, select_single (serve {| users := users d;
                    table := table d ++ [proposed db_now uid (js "linkedin") tok
                      {| p_user_id := Some uid; p_platform := Some (js "linkedin");
                         p_access_token := Some tok;
                         p_refresh_token := Some (if truthy (provider_refresh_token s)
                                                  then provider_refresh_token s else None);
                         p_token_type := Some (Some (js "bearer"));
                         p_expires_at := Some (expiry now (expires_in s));
                         p_scopes := Some (Some (split 44 (js (platform_scopes cfg))));
                         p_account_id := None; p_account_name := None;
                         p_metadata := None; p_updated_at := Some now |}] |} w)
                uid (js "linkedin") = Some c /\ Net.account_id c = None).
  { simpl. unfold select_from, rows_of. simpl. rewrite filter_app.
    unfold rows_of in Hnil. rewrite Hnil. simpl. rewrite filter_cons, filter_nil.
    destruct (decide _) as [_|Hk]; [|exfalso; apply Hk; reflexivity].
    eexists. split; reflexivity. }
  destruct Hsel as (c & Hsel & Hacc).
  eapply linkedin_handler_without_profile_id; eauto.
Qed.

Lemma popup_linkedin_witness :
  let d' := (handleAuthCallback (Some (js "u1")) (Some (js "linkedin")) 1700000000000
               1700000000001 popup_session sample_db).2 in
  exists r,
    LinkedIn.handler (POST hello) (serve d' accepting_world)
      = ([DbSelect (js "u1") (js "linkedin")], Ret r) /\
    (code r = 401 \/ code r = 500)%Z.
Proof.
  apply (popup_linkedin_connection_cannot_publish (js "u1") (Some (js "linkedin"))
           (Some (js "linkedin")) linkedin_platform 1700000000000 1700000000001
           popup_session sample_db _ accepting_world hello (js "hello")).
  - vm_compute. reflexivity.
  - reflexivity.
  - reflexivity.
  - reflexivity.
  - reflexivity.
  - repeat constructor.
  - reflexivity.
  - discriminate.
  - reflexivity.
  - discriminate.
  - vm_compute. lia.
Defined.

End ConnectedFacts.

(** ** More on the CSV import *)

Module CsvMore.
Import Csv CsvTools CsvFacts.


Lemma lines_nonempty content : lines content <> [].
Proof. unfold lines. apply split_nonempty. Qed.

Lemma values_nonempty mapping him values f :
  missing_any mapping him values = false -> values_of mapping him values f <> [].
Proof.
  intros Hm. pose proof (row_test_missing_any mapping him values) as Ht.
  cbv zeta in Ht. rewrite Hm in Ht.
  repeat (apply orb_false_iff in Ht as [Ht ?]).
  unfold is_empty in *.
  destruct f; intros E; rewrite E in *; discriminate.
Qed.

(** X12: every contact [parseCsvWithMapping] returns is complete: its first
    name, last name, e-mail, company and title are all non-empty. *)
Theorem parsed_contacts_are_complete content mapping contacts invalidRows :
  parseCsvWithMapping content mapping = Parsed contacts invalidRows ->
  Forall (fun ct => c_firstName ct <> [] /\ c_lastName ct <> [] /\ c_email ct <> []
                    /\ c_company ct <> [] /\ c_title ct <> []) contacts.
Proof.
  unfold parseCsvWithMapping. intros H.
  destruct (length (lines content) <? 2); [injection H as <- _; constructor|].
  destruct (missingColumns _ _ _) as [[|f fs]|]; try discriminate.
  rewrite fold_rows in H. simpl in H. injection H as <- _.
  apply Forall_forall. intros ct (values & -> & Hin)%list_elem_of_fmap.
  apply list_elem_of_filter in Hin as [Hm _].
  unfold contact_of. cbn [c_firstName c_lastName c_email c_company c_title].
  repeat split; apply values_nonempty; exact Hm.
Qed.

Lemma parsed_contacts_witness :
  Forall (fun ct => c_firstName ct <> [] /\ c_lastName ct <> [] /\ c_email ct <> []
                    /\ c_company ct <> [] /\ c_title ct <> [])
         (map (contact_of sample_mapping (rawHeaders sample_csv)
                 (index_headers (rawHeaders sample_csv) 0 []))
              (filter (fun r => missing_any sample_mapping
                                  (index_headers (rawHeaders sample_csv) 0 []) r = false)
                      (dataRows sample_csv))).
Proof.
  apply (parsed_contacts_are_complete sample_csv sample_mapping _ 2).
  vm_compute. reflexivity.
Defined.


Lemma replace_from_absent p pat rep (s : jstring) :
  p ∉ s -> replace_from false (p :: pat) rep 0 s = s.
Proof.
  induction s as [|c s IH]; intros Hn; [reflexivity|].
  apply not_elem_of_cons in Hn as [Hc Hs]. simpl.
  destruct (N.eqb_spec p c) as [->|_]; [contradiction|]. simpl.
  rewrite (IH Hs). reflexivity.
Qed.

Lemma lines_single content :
  10%N ∉ trim content -> 13%N ∉ trim content -> lines content = [trim content].
Proof.
  intros Hlf Hcr. unfold lines, replaceAll.
  rewrite (replace_from_absent 13%N [10%N] [10%N] (trim content) Hcr).
  rewrite (replace_from_absent 13%N [] [10%N] (trim content) Hcr).
  apply split_no_sep, Hlf.
Qed.

(** X14: a file whose trimmed text has no line break (an empty file, or a
    header line alone) has no data rows: [parseCsvWithMapping] returns no
    contact and counts no invalid row, whatever the mapping (it does not
    even check it), and [getCsvPreview] shows the header cells and no
    row. *)
Theorem file_without_line_break_has_no_rows content mapping rowCount :
  10%N ∉ trim content -> 13%N ∉ trim content ->
  parseCsvWithMapping content mapping = Parsed [] 0 /\
  getCsvPreview content rowCount = (cells (trim content), []).
Proof.
  intros Hlf Hcr. pose proof (lines_single content Hlf Hcr) as Hl. split.
  - unfold parseCsvWithMapping. rewrite Hl. reflexivity.
  - unfold getCsvPreview, slice1. rewrite Hl. simpl. rewrite take_nil. reflexivity.
Qed.

Lemma header_only_witness :
  parseCsvWithMapping header_only partial_mapping = Parsed [] 0 /\
  getCsvPreview header_only 5 = (cells (trim header_only), []).
Proof.
  apply (file_without_line_break_has_no_rows header_only partial_mapping 5).
  - vm_compute. intros H.
    repeat (apply elem_of_cons in H as [H|H]; [discriminate|]). inversion H.
  - vm_compute. intros H.
    repeat (apply elem_of_cons in H as [H|H]; [discriminate|]). inversion H.
Defined.

(** X15: the headers [getCsvPreview] returns are the header cells
    [parseCsvWithMapping] indexes; there is always at least one (an empty
    file has the single header [''], so the "empty CSV" check of the upload
    screen on [headers.length === 0] never fires); and for a row count that
    is not negative the rows are the first [rowCount] data rows. *)
Theorem preview_shows_first_rows content rowCount :
  (getCsvPreview content rowCount).1 = rawHeaders content /\
  (getCsvPreview content rowCount).1 <> [] /\
  ((0 <= rowCount)%Z ->
   (getCsvPreview content rowCount).2 = take (Z.to_nat rowCount) (dataRows content)).
Proof.
  unfold getCsvPreview, rawHeaders, dataRows, sanitizeRows.
  pose proof (lines_nonempty content) as Hne.
  destruct (lines content) as [|l ls]; [contradiction|]. simpl.
  split; [reflexivity|]. split.
  - unfold cells. pose proof (split_nonempty 44 l) as Hs.
    destruct (split 44 l); [contradiction|discriminate].
  - intros Hn. unfold slice1. simpl drop. rewrite drop_0.
    destruct (Z.ltb_spec (rowCount + 1) 0) as [|_]; [lia|].
    rewrite <- fmap_take. f_equal.
    change (length (l :: ls)) with (S (length ls)).
    destruct (Z.le_gt_cases (rowCount + 1) (Z.of_nat (S (length ls)))) as [Hle|Hgt].
    + rewrite Z.min_l by exact Hle. f_equal. lia.
    + rewrite Z.min_r by lia. rewrite !take_ge; [reflexivity|lia|lia].
Qed.


Lemma jeq_true (a b : jstring) : jeq a b = true <-> a = b.
Proof. unfold jeq. apply bool_decide_eq_true. Qed.

Lemma jeq_false (a b : jstring) : jeq a b = false <-> a <> b.
Proof. unfold jeq. apply bool_decide_eq_false. Qed.

Lemma own_own_set {A} k h (v : A) d :
  own k (own_set h v d) = if jeq k h then Some v else own k d.
Proof.
  induction d as [|[k' v'] d IH]; simpl.
  - reflexivity.
  - destruct (jeq h k') eqn:Hh; simpl.
    + apply jeq_true in Hh as <-. destruct (jeq k h); reflexivity.
    + rewrite IH. destruct (jeq k k') eqn:Hk; [|reflexivity].
      apply jeq_true in Hk as ->. apply jeq_false in Hh.
      destruct (jeq k' h) eqn:Hk'; [|reflexivity].
      apply jeq_true in Hk'. congruence.
Qed.

(** The header index holds a header exactly when it occurs in the header
    row and is not [__proto__]. *)
Lemma own_index_headers k hs : forall i d,
  is_Some (own k (index_headers hs i d))
  <-> (k ∈ hs /\ k <> js "__proto__") \/ is_Some (own k d).
Proof.
  induction hs as [|h hs IH]; intros i d; simpl.
  - split; [auto|]. intros [[Hin _]|H]; [inversion Hin|exact H].
  - rewrite IH. unfold dict_set.
    destruct (jeq h (js "__proto__")) eqn:Hp.
    + apply jeq_true in Hp. split.
      * intros [[Hin Hne]|H]; [left; split; [right; exact Hin|exact Hne]|right; exact H].
      * intros [[Hin Hne]|H]; [|right; exact H].
        apply elem_of_cons in Hin as [->|Hin]; [contradiction|]. left. auto.
    + apply jeq_false in Hp. rewrite own_own_set. split.
      * intros [[Hin Hne]|H]; [left; split; [right; exact Hin|exact Hne]|].
        destruct (jeq k h) eqn:Hk; [|right; exact H].
        apply jeq_true in Hk as ->. left. split; [left|exact Hp].
      * intros [[Hin Hne]|H].
        -- apply elem_of_cons in Hin as [->|Hin]; [|left; auto].
           right. rewrite (proj2 (jeq_true h h) eq_refl). eauto.
        -- right. destruct (jeq k h); eauto.
Qed.

Lemma hasOwnProperty_index mapping hs f :
  js "hasOwnProperty" ∉ hs ->
  (if truthy (mapping f)
   then hasOwnProperty (index_headers hs 0 []) (default [] (mapping f))
   else Some false) = Some (covered mapping hs f).
Proof.
  intros Hno. unfold covered, hasOwnProperty.
  destruct (truthy (mapping f)); [|reflexivity]. simpl.
  destruct (own (js "hasOwnProperty") (index_headers hs 0 [])) eqn:Hown.
  - exfalso. apply Hno.
    assert (Hs : is_Some (own (js "hasOwnProperty") (index_headers hs 0 []))) by eauto.
    apply own_index_headers in Hs as [[Hin _]|[x Hx]]; [exact Hin|discriminate].
  - f_equal. set (h := default [] (mapping f)).
    destruct (bool_decide (is_Some (own h (index_headers hs 0 [])))) eqn:Hb.
    + apply bool_decide_eq_true, own_index_headers in Hb as [[Hin Hne]|[x Hx]];
        [|discriminate].
      rewrite (bool_decide_eq_true_2 _ Hin). apply jeq_false in Hne. rewrite Hne.
      reflexivity.
    + apply bool_decide_eq_false in Hb. symmetry. apply not_true_is_false. intros Hc.
      apply andb_true_iff in Hc as [Hin Hne]. apply bool_decide_eq_true in Hin.
      apply negb_true_iff, jeq_false in Hne. apply Hb, own_index_headers. auto.
Qed.

Lemma missingColumns_filter mapping hs fs :
  js "hasOwnProperty" ∉ hs ->
  missingColumns mapping (index_headers hs 0 []) fs
  = Some (filter (fun f => covered mapping hs f = false) fs).
Proof.
  intros Hno. induction fs as [|f fs IH]; [reflexivity|].
  cbn [missingColumns]. rewrite (hasOwnProperty_index mapping hs f Hno), IH.
  rewrite filter_cons. destruct (covered mapping hs f); simpl.
  - destruct (decide (true = false)); [discriminate|reflexivity].
  - destruct (decide (false = false)); [reflexivity|contradiction].
Qed.

(** X13: on a file with at least one data line and no column called
    [hasOwnProperty], the column check reports exactly the required fields
    that are not covered, in the order of [REQUIRED_FIELDS]: a field is
    covered when the mapping names a header of the file other than
    [__proto__].  If some field is not covered the call throws "Could not
    identify columns for" those fields; if all are, it returns. *)
Theorem missing_columns_are_reported content mapping :
  2 <= length (lines content) ->
  js "hasOwnProperty" ∉ rawHeaders content ->
  let missing := filter (fun f => covered mapping (rawHeaders content) f = false)
                        REQUIRED_FIELDS in
  (missing <> [] -> parseCsvWithMapping content mapping = CouldNotIdentify missing) /\
  (missing = [] ->
   exists contacts invalidRows,
     parseCsvWithMapping content mapping = Parsed contacts invalidRows).
Proof.
  intros Hlen Hno missing. unfold parseCsvWithMapping.
  destruct (Nat.ltb_spec (length (lines content)) 2) as [|_]; [lia|].
  rewrite (missingColumns_filter mapping _ REQUIRED_FIELDS Hno). fold missing.
  split; intros Hm.
  - destruct missing; [contradiction|reflexivity].
  - rewrite Hm. destruct (fold_left _ _ _) as [contacts invalidRows]. eauto.
Qed.

Lemma missing_columns_witness :
  let missing := filter (fun f => covered partial_mapping (rawHeaders sample_csv) f = false)
                        REQUIRED_FIELDS in
  (missing <> [] ->
   parseCsvWithMapping sample_csv partial_mapping = CouldNotIdentify missing) /\
  (missing = [] ->
   exists contacts invalidRows,
     parseCsvWithMapping sample_csv partial_mapping = Parsed contacts invalidRows).
Proof.
  apply (missing_columns_are_reported sample_csv partial_mapping).
  - vm_compute. lia.
  - vm_compute. intros H.
    repeat (apply elem_of_cons in H as [H|H]; [discriminate|]). inversion H.
Defined.

Example missing_columns_sample :
  parseCsvWithMapping sample_csv partial_mapping = CouldNotIdentify [company; title].
Proof. vm_compute. reflexivity. Qed.


(** *** A column called [hasOwnProperty] *)

Lemma missingColumns_shadowed mapping (d : dict nat) v fs :
  own (js "hasOwnProperty") d = Some v ->
  (exists f, f ∈ fs /\ truthy (mapping f) = true) ->
  missingColumns mapping d fs = None.
Proof.
  intros Hown. induction fs as [|f fs IH]; intros (f0 & Hin & Ht).
  - inversion Hin.
  - cbn [missingColumns]. unfold hasOwnProperty. rewrite Hown.
    destruct (truthy (mapping f)) eqn:Hf; [reflexivity|].
    apply elem_of_cons in Hin as [->|Hin]; [congruence|].
    rewrite IH by eauto. reflexivity.
Qed.

(** In a file with a data line and a column called [hasOwnProperty], the
    column check throws a TypeError as soon as one required field is
    mapped. *)
Lemma shadowed_column_check_throws content mapping f :
  2 <= length (lines content) ->
  js "hasOwnProperty" ∈ rawHeaders content ->
  truthy (mapping f) = true ->
  parseCsvWithMapping content mapping = NotAFunction.
Proof.
  intros Hlen Hin Ht. unfold parseCsvWithMapping.
  destruct (Nat.ltb_spec (length (lines content)) 2) as [|_]; [lia|].
  assert (Hs : is_Some (own (js "hasOwnProperty")
                          (index_headers (rawHeaders content) 0 []))).
  { apply own_index_headers. left. split; [exact Hin|]. vm_compute. discriminate. }
  destruct Hs as [v Hv].
  rewrite (missingColumns_shadowed mapping _ v REQUIRED_FIELDS Hv); [reflexivity|].
  exists f. split; [unfold REQUIRED_FIELDS; destruct f; repeat constructor|exact Ht].
Qed.

(** Without such a column, and with every required field mapped to a
    header of the file other than [__proto__], the import does what C4
    says. *)
Lemma covered_mapping_counts_rows content mapping :
  js "hasOwnProperty" ∉ rawHeaders content ->
  (forall f, covered mapping (rawHeaders content) f = true) ->
  let headerIndexMap := index_headers (rawHeaders content) 0 [] in
  exists contacts invalidRows,
    parseCsvWithMapping content mapping = Parsed contacts invalidRows /\
    contacts = map (contact_of mapping (rawHeaders content) headerIndexMap)
                   (filter (fun r => missing_any mapping headerIndexMap r = false)
                           (dataRows content)) /\
    invalidRows = length (filter (fun r => missing_any mapping headerIndexMap r = true)
                                 (dataRows content)) /\
    length contacts + invalidRows = length (dataRows content).
Proof.
  intros Hno Hcov. apply parseCsvWithMapping_counts_invalid_rows.
  rewrite (missingColumns_filter mapping _ REQUIRED_FIELDS Hno). f_equal.
  induction REQUIRED_FIELDS as [|f fs IH]; [reflexivity|].
  rewrite filter_cons, Hcov. destruct (decide (true = false)); [discriminate|exact IH].
Qed.

(** C4 at a failing input.  The file has one data row with all five cells,
    and the mapping sends every required field to a header of the file;
    C4 promises one contact and no invalid row.  But the file's first
    column is called [hasOwnProperty]: the header index then holds a
    number under that name, the column check calls it as a method, and the
    call throws a TypeError: no contact is returned and no row counted.
    The same row without that column is imported.  A name column called
    [__proto__] fails in another way: the column is reported as one that
    could not be identified, although it is there. *)
Theorem hasOwnProperty_column_breaks_import :
  (forall f, exists h, sample_mapping f = Some h /\ h ∈ rawHeaders shadowing_csv) /\
  dataRows shadowing_csv = [[js "1"; js "A B"; js "a@x.io"; js "C"; js "T"]] /\
  parseCsvWithMapping shadowing_csv sample_mapping = NotAFunction /\
  (exists ab,
     parseCsvWithMapping unshadowed_csv sample_mapping = Parsed [ab] 0 /\
     c_firstName ab = js "A" /\ c_lastName ab = js "B" /\ c_email ab = js "a@x.io" /\
     c_company ab = js "C" /\ c_title ab = js "T") /\
  (forall f, exists h, proto_mapping f = Some h /\ h ∈ rawHeaders proto_csv) /\
  parseCsvWithMapping proto_csv proto_mapping = CouldNotIdentify [firstName; lastName].
Proof.
  split; [|split; [|split; [|split; [|split]]]].
  - intros f. destruct f; eexists; (split; [reflexivity|]); vm_compute;
      repeat (first [apply list_elem_of_here | apply list_elem_of_further]).
  - vm_compute. reflexivity.
  - vm_compute. reflexivity.
  - eexists. vm_compute. repeat split.
  - intros f. destruct f; eexists; (split; [reflexivity|]); vm_compute;
      repeat (first [apply list_elem_of_here | apply list_elem_of_further]).
  - vm_compute. reflexivity.
Qed.


Lemma find_elem {A} (p : A -> bool) l x : find p l = Some x -> x ∈ l.
Proof.
  induction l as [|a l IH]; simpl; [discriminate|].
  destruct (p a); [intros [= ->]; left|intros H; right; exact (IH H)].
Qed.

Lemma matchedHeader_elem toLowerCase headers n h :
  matchedHeader toLowerCase headers n = Some h -> h ∈ headers.
Proof.
  unfold matchedHeader. intros H.
  repeat match type of H with
         | match find ?p ?l with _ => _ end = _ =>
             destruct (find p l) eqn:?Hf; [injection H as ->; eapply find_elem; eassumption|]
         end.
  eapply find_elem; eassumption.
Qed.

(** A field the upload screen resolved names a header of the file. *)
Lemma resolved_header toLowerCase ai headers f :
  truthy (normaliseMapping toLowerCase ai headers f) = true ->
  default [] (normaliseMapping toLowerCase ai headers f) ∈ headers.
Proof.
  unfold normaliseMapping. destruct (truthy (ai f)); [|discriminate].
  destruct (matchedHeader _ _ _) as [h|] eqn:Hm; [|discriminate].
  intros _. simpl. eapply matchedHeader_elem, Hm.
Qed.

Lemma filter_nil_all {A} (p : A -> bool) l x :
  List.filter p l = [] -> x ∈ l -> p x = false.
Proof.
  induction l as [|a l IH]; simpl; [intros _ H; inversion H|].
  destruct (p a) eqn:Hp; [discriminate|].
  intros Hf [->|Hin]%elem_of_cons; [exact Hp|exact (IH Hf Hin)].
Qed.

Lemma field_required f : f ∈ REQUIRED_FIELDS.
Proof. unfold REQUIRED_FIELDS. destruct f; repeat constructor. Qed.

(** X16: [analyseCsv] of the upload screen, whatever the AI answers.  It
    never ends with "The CSV appears to be empty"; when no column is called
    [__proto__] or [hasOwnProperty] it never ends with an error thrown by
    [parseCsvWithMapping], because every header [normaliseMapping]
    resolves is a header of the file; and when it reaches the preview
    stage there is at least one contact and every required field is
    mapped to a header of the file. *)
Theorem analyseCsv_never_fails_in_the_parser
    (toLowerCase : jstring -> jstring) (content : jstring)
    (aiMapping : option ColumnMapping) :
  analyseCsv toLowerCase content aiMapping <> EmptyCsv /\
  (js "__proto__" ∉ rawHeaders content ->
   js "hasOwnProperty" ∉ rawHeaders content ->
   forall r, analyseCsv toLowerCase content aiMapping <> ParserThrew r) /\
  (forall contacts invalidRows mapping headers,
      analyseCsv toLowerCase content aiMapping
        = Preview contacts invalidRows mapping headers ->
      contacts <> [] /\ headers = rawHeaders content /\
      forall f, truthy (mapping f) = true /\ default [] (mapping f) ∈ headers).
Proof.
  destruct (preview_shows_first_rows content 5) as (Hh & Hne & _).
  unfold analyseCsv.
  destruct (length (getCsvPreview content 5).1 =? 0) eqn:Hz.
  { apply Nat.eqb_eq, nil_length_inv in Hz. contradiction. }
  rewrite Hh. clear Hz Hh Hne.
  destruct aiMapping as [ai|]; [|repeat split; intros; discriminate].
  set (m := normaliseMapping toLowerCase ai (rawHeaders content)).
  destruct (List.filter _ REQUIRED_FIELDS) as [|f0 fs] eqn:Hf;
    [|repeat split; intros; discriminate].
  assert (Hall : forall f, truthy (m f) = true).
  { intros f. apply negb_false_iff.
    exact (filter_nil_all _ _ f Hf (field_required f)). }
  split; [|split].
  - destruct (parseCsvWithMapping content m) as [[|c cs] n|l|]; discriminate.
  - intros Hp Ho r.
    assert (Hcov : forall f, covered m (rawHeaders content) f = true).
    { intros f. unfold covered. rewrite Hall. simpl.
      pose proof (resolved_header toLowerCase ai (rawHeaders content) f (Hall f)) as Hin.
      fold m in Hin. rewrite (bool_decide_eq_true_2 _ Hin). simpl.
      apply negb_true_iff, jeq_false. intros E. apply Hp. rewrite <- E. exact Hin. }
    unfold parseCsvWithMapping.
    destruct (length (lines content) <? 2); [discriminate|].
    rewrite (missingColumns_filter m _ REQUIRED_FIELDS Ho).
    assert (Hnil : filter (fun f => covered m (rawHeaders content) f = false)
                          REQUIRED_FIELDS = []).
    { clear Hf. induction REQUIRED_FIELDS as [|f fs' IH]; [reflexivity|].
      rewrite filter_cons, Hcov.
      destruct (decide (true = false)); [discriminate|exact IH]. }
    rewrite Hnil. destruct (fold_left _ _ _) as [[|c cs] n]; discriminate.
  - intros contacts invalidRows mapping headers H.
    destruct (parseCsvWithMapping content m) as [[|c cs] n|l|]; try discriminate.
    injection H as <- _ <- <-. split; [discriminate|]. split; [reflexivity|].
    intros f. split; [apply Hall|].
    apply (resolved_header toLowerCase ai (rawHeaders content) f (Hall f)).
Qed.

End CsvMore.

(** ** More on saving *)

Module SaveMore.
Import SaveContent SaveTools SaveFacts.



(** X17: [approveAndSaveAll] never throws, and it writes all rows or none.
    It reports success exactly when the single [insert] was made and the
    database accepted it; and the [insert] is made exactly when every item
    could be prepared, so a failed image upload leaves the table without
    any of the items. *)
Theorem approveAndSaveAll_all_or_nothing
    (w : world) (campaign : jstring) (user : option jstring) (items : list item) :
  exists t saved,
    approveAndSaveAll campaign user items w = (t, Ret saved) /\
    (saved = true <-> exists rows, Insert rows ∈ t /\ insert_error w rows = None) /\
    ((exists rows, Insert rows ∈ t)
     <-> exists t' rows, final_items campaign user 0 items w = (t', Ret rows)).
Proof.
  rewrite approveAndSaveAll_run.
  pose proof (final_items_trace campaign user items 0 w) as Hup.
  destruct (final_items campaign user 0 items w) as [t [rows|e]]; simpl in Hup.
  - eexists _, _. split; [reflexivity|].
    assert (Hin : forall rows', Insert rows' ∈ t ++ [Insert rows] -> rows' = rows).
    { intros rows' [Hin|Hin]%elem_of_app.
      - exfalso. eapply only_uploads_no_insert; eassumption.
      - apply list_elem_of_singleton in Hin. congruence. }
    split; split.
    + intros Hs. exists rows. split; [apply elem_of_app; right; left|].
      destruct (insert_error w rows); [discriminate|reflexivity].
    + intros (rows' & Hi & He). apply Hin in Hi as ->. rewrite He. reflexivity.
    + intros _. eauto.
    + intros _. exists rows. apply elem_of_app. right. left.
  - eexists _, _. split; [reflexivity|]. split; split.
    + discriminate.
    + intros (rows & Hi & _). exfalso. eapply only_uploads_no_insert; eassumption.
    + intros (rows & Hi). exfalso. eapply only_uploads_no_insert; eassumption.
    + intros (t' & rows & [=]).
Qed.


Lemma final_items_uploads campaign user items : forall i w t rows,
  final_items campaign user i items w = (t, Ret rows) ->
  length t = length (filter (fun it => carries_temp_image (metadata it) = true) items).
Proof.
  induction items as [|it items IH]; intros i w t rows; simpl.
  - unfold ret. intros [= <- _]. reflexivity.
  - rewrite run_bind.
    destruct (final_item _ _ _ _ w) as [t1 [r1|e]] eqn:H1; simpl; [|discriminate].
    rewrite run_bind.
    destruct (final_items _ _ _ _ w) as [t2 [rs|e]] eqn:H2; simpl; [|discriminate].
    unfold ret. simpl. intros [= <- _].
    rewrite app_nil_r, length_app, (IH _ _ _ _ H2), filter_cons.
    apply final_item_ret in H1.
    destruct (carries_temp_image (metadata it)).
    + destruct H1 as [(b64 & bytes & _ & _ & _ & -> & _) _].
      destruct (decide (true = true)); [reflexivity|contradiction].
    + destruct H1 as [-> _]. destruct (decide (false = true)); [discriminate|reflexivity].
Qed.

(** X18: a successful [approveAndSaveAll] uploads once per pending image.
    Its run is uploads followed by the [insert]; there are as many uploads
    as items that carried a temporary base64 image, and as many rows as
    items. *)
Theorem one_upload_per_pending_image
    (w : world) (campaign : jstring) (user : option jstring) (items : list item)
    (t : list event) :
  approveAndSaveAll campaign user items w = (t, Ret true) ->
  exists uploads rows,
    t = uploads ++ [Insert rows] /\
    only_uploads uploads /\
    length uploads
      = length (filter (fun it => carries_temp_image (metadata it) = true) items) /\
    length rows = length items.
Proof.
  rewrite approveAndSaveAll_run.
  pose proof (final_items_trace campaign user items 0 w) as Hup.
  destruct (final_items campaign user 0 items w) as [t0 [rows|e]] eqn:Hf; [|discriminate].
  intros [= <- _]. exists t0, rows. split; [reflexivity|]. split; [exact Hup|].
  split; [eapply final_items_uploads, Hf|].
  eapply final_items_ret, Hf.
Qed.

Lemma one_upload_witness :
  exists uploads rows,
    [Upload (js "campaign_c1/item_0_1700000000000.png") (js "iVBORw0KGgo=");
     Insert sample_rows] = uploads ++ [Insert rows] /\
    only_uploads uploads /\
    length uploads
      = length (filter (fun it => carries_temp_image (metadata it) = true) sample_items) /\
    length rows = length sample_items.
Proof.
  apply (one_upload_per_pending_image sample_world (js "c1") (Some (js "u1")) sample_items).
  vm_compute. reflexivity.
Defined.


Lemma accepted_updates_app w t1 t2 :
  accepted_updates w (t1 ++ t2) = accepted_updates w t1 ++ accepted_updates w t2.
Proof. unfold accepted_updates. apply omap_app. Qed.

Lemma only_uploads_accept_nothing w t : only_uploads t -> accepted_updates w t = [].
Proof.
  induction 1 as [|e t (p & b & ->) _ IH]; [reflexivity|]. exact IH.
Qed.

(** One item: its row is changed exactly when [save_item] returns. *)
Lemma save_item_accepted campaignId it w :
  accepted_updates w (save_item campaignId it w).1
  = match (save_item campaignId it w).2 with
    | Ret _ => [id it]
    | Throw _ => []
    end.
Proof.
  unfold save_item. rewrite run_bind.
  destruct (prop (metadata it) "temp_base64_image") as [temp|]; simpl; [|reflexivity].
  rewrite run_bind.
  destruct (truthy_val temp).
  - rewrite run_bind. unfold ask at 1. simpl.
    pose proof (finalize_trace (metadata it) (edit_path w campaignId it) w) as Hup.
    destruct (finalize _ _ w) as [t' [md|err]]; simpl in *;
      [|apply only_uploads_accept_nothing, Hup].
    rewrite run_bind. unfold call at 1. simpl.
    rewrite !accepted_updates_app, (only_uploads_accept_nothing _ _ Hup). simpl.
    destruct (update_error _ _ _ _) eqn:He; simpl; unfold accepted_updates; simpl;
      rewrite ?He; reflexivity.
  - unfold ret at 1. simpl. rewrite run_bind. unfold call at 1. simpl.
    destruct (update_error _ _ _ _) eqn:He; simpl; unfold accepted_updates; simpl;
      rewrite ?He; reflexivity.
Qed.

Lemma save_items_accepted campaignId results : forall w t,
  save_items campaignId results w = (t, Ret tt) ->
  accepted_updates w t = map id results.
Proof.
  induction results as [|it results IH]; intros w t; simpl.
  - unfold ret. intros [= <-]. reflexivity.
  - rewrite run_bind.
    pose proof (save_item_accepted campaignId it w) as H1.
    destruct (save_item campaignId it w) as [t1 [[]|e]]; [|discriminate].
    simpl in *. destruct (save_items campaignId results w) as [t2 [[]|e]] eqn:H2;
      simpl; [|discriminate].
    intros [= <-]. rewrite accepted_updates_app, H1, (IH _ _ H2). reflexivity.
Qed.

(** X19: [handleSaveChanges] is not atomic.  When the items before some
    item were saved and that item fails (its upload, or its update), the
    routine stops there and reports failure; the rows the database has
    changed are exactly those of the items before it, and the items after
    it are not touched. *)
Theorem handleSaveChanges_keeps_earlier_updates
    (w : world) (campaignId : jstring) (pre post : list item) (it : item)
    (t1 t2 : list event) (e : jstring) :
  save_items campaignId pre w = (t1, Ret tt) ->
  save_item campaignId it w = (t2, Throw e) ->
  handleSaveChanges campaignId (pre ++ it :: post) w = (t1 ++ t2, Ret false) /\
  accepted_updates w (t1 ++ t2) = map id pre.
Proof.
  intros Hpre Hit. split.
  - unfold handleSaveChanges. rewrite run_try_catch, run_bind, save_items_app, Hpre.
    simpl. rewrite run_bind, Hit. simpl. rewrite app_nil_r. reflexivity.
  - rewrite accepted_updates_app, (save_items_accepted _ _ _ _ Hpre).
    pose proof (save_item_accepted campaignId it w) as H. rewrite Hit in H. simpl in H.
    rewrite H, app_nil_r. reflexivity.
Qed.

Lemma handleSaveChanges_witness :
  let t1 := (save_items (js "c1") [first_item] refusing_update_world).1 in
  let t2 := (save_item (js "c1") second_item refusing_update_world).1 in
  handleSaveChanges (js "c1") ([first_item] ++ second_item :: [third_item])
    refusing_update_world = (t1 ++ t2, Ret false) /\
  accepted_updates refusing_update_world (t1 ++ t2) = map id [first_item].
Proof.
  apply (handleSaveChanges_keeps_earlier_updates refusing_update_world (js "c1")
           [first_item] [third_item] second_item _ _ (js "row is locked")).
  - vm_compute. reflexivity.
  - vm_compute. reflexivity.
Defined.

End SaveMore.

(** ** Regenerating *)

Module RegenerateFacts.
Import Gemini Regenerate SaveContent SaveFacts GeminiFacts.


Lemma strip_data_url_of_data_url base64 : strip_data_url (data_url base64) = base64.
Proof.
  unfold strip_data_url, data_url.
  change (js "data:image/png;base64," ++ base64)
    with (js "data:image/" ++ js "png" ++ js ";base64," ++ base64).
  assert (Hp : starts_with false (js "data:image/")
                 (js "data:image/" ++ js "png" ++ js ";base64," ++ base64) = true)
    by reflexivity.
  rewrite Hp. rewrite drop_app_length.
  change (skip_word (js "png" ++ js ";base64," ++ base64)) with (js ";base64," ++ base64).
  assert (Hl : (length (js ";base64," ++ base64)
                <? length (js "png" ++ js ";base64," ++ base64)) = true).
  { apply Nat.ltb_lt. rewrite !length_app. simpl. lia. }
  rewrite Hl. simpl. reflexivity.
Qed.


Lemma trim_nil_inv (p : jstring) : trim p <> [] -> p <> [].
Proof. intros H ->. apply H. reflexivity. Qed.

Lemma lift_client w :
  (getGeminiClient (text_world w)).2 = Ret tt ->
  lift getGeminiClient w = ([], Ret tt).
Proof.
  intros H. unfold lift. pose proof (getGeminiClient_silent (text_world w)) as Ht.
  destruct (getGeminiClient (text_world w)) as [t o]. simpl in *. congruence.
Qed.

Lemma generateImageWithGemini_run w p resp part b :
  (getGeminiClient (text_world w)).2 = Ret tt ->
  generateImage w image_model p = Some resp ->
  image_part resp = Some part ->
  image_data part = Some b ->
  generateImageWithGemini p w = ([Generate image_model p], Ret (data_url b)).
Proof.
  intros Hc Hg Hp Hb. unfold generateImageWithGemini.
  rewrite run_bind, (lift_client w Hc). simpl.
  rewrite run_bind. unfold call at 1. simpl. rewrite Hg. simpl.
  rewrite run_bind. unfold of_option, ret. cbn beta iota. rewrite Hp. cbn beta iota.
  rewrite Hb. reflexivity.
Qed.

(** X20: from the image model to the storage bucket.  When the item has a
    non-blank image prompt, a client is at hand and the model answers with
    an image part, [handleRegenerateImage] makes one call to the image
    model and stores the data URL [data:image/png;base64,<data>] as the
    item's [temp_base64_image]; and saving that item then starts with the
    upload of the decoded [data] itself: the prefix that
    [generateImageWithGemini] adds is the one [uploadBase64Image]
    strips. *)
Theorem regenerated_image_is_uploaded_decoded
    (w : Regenerate.world) (sw : SaveContent.world) (campaignId : jstring)
    (it : item) (o : list (jstring * jsval)) (p : jstring)
    (resp : response) (part : Regenerate.part) (b bytes : jstring) :
  metadata it = JObj o ->
  obj_get (js "image_prompt") o = Some (JStr p) ->
  trim p <> [] ->
  (getGeminiClient (text_world w)).2 = Ret tt ->
  generateImage w image_model p = Some resp ->
  image_part resp = Some part ->
  image_data part = Some b ->
  atob sw b = Some bytes ->
  exists it',
    handleRegenerateImage it w = ([Generate image_model p], Ret it') /\
    id it' = id it /\
    prop (metadata it') "temp_base64_image" = Some (JStr (data_url b)) /\
    exists tl,
      (save_item campaignId it' sw).1 = Upload (edit_path sw campaignId it') bytes :: tl.
Proof.
  intros Hmd Hprompt Htrim Hc Hg Hp Hb Hatob.
  pose proof (generateImageWithGemini_run w p resp part b Hc Hg Hp Hb) as Hrun.
  eexists. split; [|split; [|split]].
  - assert (Hpr : prop (metadata it) "image_prompt" = Some (JStr p))
      by (rewrite Hmd; simpl; rewrite Hprompt; reflexivity).
    unfold handleRegenerateImage. rewrite Hpr.
    rewrite run_bind. unfold of_option at 1, ret at 1. cbn beta iota.
    rewrite (truthy_nonempty p (trim_nil_inv p Htrim)), (truthy_nonempty _ Htrim).
    cbn [negb orb]. cbn beta iota.
    rewrite run_try_catch, run_bind, Hrun. rewrite Hmd. simpl. reflexivity.
  - reflexivity.
  - simpl. rewrite obj_get_set. reflexivity.
  - unfold save_item. simpl. rewrite obj_get_set. simpl.
    rewrite run_bind. unfold of_option at 1, ret at 1. simpl.
    rewrite run_bind. rewrite run_bind. unfold ask at 1. simpl.
    unfold finalize. unfold prop_opt. simpl. rewrite obj_get_set. simpl.
    rewrite run_bind. unfold uploadBase64Image.
    rewrite run_bind. unfold ask at 1. simpl.
    rewrite strip_data_url_of_data_url, Hatob. simpl.
    rewrite run_bind. unfold of_option at 1, ret at 1. simpl.
    rewrite run_bind. unfold call at 1. simpl.
    destruct (upload sw _ bytes); simpl; eexists; reflexivity.
Qed.

Lemma regenerated_image_witness :
  exists it',
    handleRegenerateImage prompted_item image_world
      = ([Generate image_model (js "a red kite")], Ret it') /\
    id it' = id prompted_item /\
    prop (metadata it') "temp_base64_image"
      = Some (JStr (data_url (js "iVBORw0KGgo="))) /\
    exists tl,
      (save_item (js "c1") it' sample_world).1
        = Upload (edit_path sample_world (js "c1") it') (js "iVBORw0KGgo=") :: tl.
Proof.
  apply (regenerated_image_is_uploaded_decoded image_world sample_world (js "c1")
           prompted_item [(js "image_prompt", JStr (js "a red kite"))] (js "a red kite")
           image_answer
           {| inlineData := Some {| data := Some (js "iVBORw0KGgo=") |} |}
           (js "iVBORw0KGgo=") (js "iVBORw0KGgo=")).
  - reflexivity.
  - reflexivity.
  - vm_compute. discriminate.
  - reflexivity.
  - reflexivity.
  - reflexivity.
  - reflexivity.
  - reflexivity.
Defined.


Lemma no_key_no_client tw :
  geminiClient tw = false ->
  truthy (meta_env tw "VITE_GEMINI_API_KEY") = false ->
  truthy (meta_env tw "GEMINI_API_KEY") = false ->
  truthy (process_env tw "GEMINI_API_KEY") = false ->
  truthy (process_env tw "API_KEY") = false ->
  getGeminiClient tw = ([], Throw (js "Missing GEMINI API key.")).
Proof.
  intros Hc H1 H2 H3 H4. unfold getGeminiClient.
  rewrite run_bind. unfold ask at 1. simpl. rewrite Hc.
  rewrite run_bind. unfold getGeminiApiKey.
  rewrite run_bind. unfold ask at 1. simpl.
  unfold or_else. rewrite H1, H2, H3, H4. reflexivity.
Qed.

(** X21: with no client created yet and no API key in any of the four
    variables it is looked up in, none of the three entry points of the
    content service contacts the model: each throws "Missing GEMINI API
    key." with an empty trace. *)
Theorem gemini_calls_need_a_key (w : Regenerate.world) (prompt : jstring) :
  geminiClient (text_world w) = false ->
  truthy (meta_env (text_world w) "VITE_GEMINI_API_KEY") = false ->
  truthy (meta_env (text_world w) "GEMINI_API_KEY") = false ->
  truthy (process_env (text_world w) "GEMINI_API_KEY") = false ->
  truthy (process_env (text_world w) "API_KEY") = false ->
  generateAllGeminiContent prompt (text_world w)
    = ([], Throw (js "Missing GEMINI API key.")) /\
  generateImageWithGemini prompt w = ([], Throw (js "Missing GEMINI API key.")) /\
  regenerateContentText prompt w = ([], Throw (js "Missing GEMINI API key.")).
Proof.
  intros Hc H1 H2 H3 H4.
  pose proof (no_key_no_client _ Hc H1 H2 H3 H4) as Hk.
  repeat split.
  - unfold generateAllGeminiContent. rewrite run_bind, Hk. reflexivity.
  - unfold generateImageWithGemini, lift. rewrite run_bind, Hk. reflexivity.
  - unfold regenerateContentText, lift. rewrite run_bind, Hk. reflexivity.
Qed.

Lemma gemini_key_witness :
  generateAllGeminiContent (js "prompt") (text_world no_key_image_world)
    = ([], Throw (js "Missing GEMINI API key.")) /\
  generateImageWithGemini (js "prompt") no_key_image_world
    = ([], Throw (js "Missing GEMINI API key.")) /\
  regenerateContentText (js "prompt") no_key_image_world
    = ([], Throw (js "Missing GEMINI API key.")).
Proof.
  apply (gemini_calls_need_a_key no_key_image_world (js "prompt")); reflexivity.
Defined.

End RegenerateFacts.

(** ** More on the callback relay *)

Module RelayMore.
Import OAuthRelay RelayFacts.


Lemma found_cleared st : found (clear_flags st) = false.
Proof. unfold found. rewrite clear_flags_success. reflexivity. Qed.

(** X22: what one run of the localStorage fallback hands over, and what a
    later run finds.  A run passes at most one session to
    [handleAuthCallback].  A run that starts after an earlier run has ended
    passes none and changes nothing, whatever the callback did to the
    storage in between: the result is not handed over again.  There is no
    such guard while the earlier run is still waiting for the callback: a
    run started then reads the same storage and, if the result is still
    fresh, passes the same session again.  And of the storage it finds
    when the callback returns, a run removes the three [oauth_*] flags and
    nothing else. *)
Theorem oauth_result_not_handed_over_after_a_completed_run
    (now now' : Z)
    (handleAuthCallback handleAuthCallback' : jsval -> gmap jstring jstring
                                              -> gmap jstring jstring)
    (st : gmap jstring jstring) :
  let run := checkLocalStorageAuth now handleAuthCallback st in
  length run.1 <= 1 /\
  checkLocalStorageAuth now' handleAuthCallback' run.2 = ([], run.2) /\
  (fresh now st = fresh now' st ->
   (checkLocalStorageAuth now' handleAuthCallback' st).1 = run.1) /\
  (forall k, k <> js "oauth_success" -> k <> js "oauth_session" ->
             k <> js "oauth_timestamp" ->
             run.2 !! k = match run.1 with
                          | session :: _ => handleAuthCallback session st
                          | [] => st
                          end !! k).
Proof.
  cbv zeta.
  assert (Hended : forall s, checkLocalStorageAuth now' handleAuthCallback' (clear_flags s)
                             = ([], clear_flags s)).
  { intros s. unfold checkLocalStorageAuth. rewrite found_cleared. reflexivity. }
  destruct (checkLocalStorageAuth now handleAuthCallback st) as [calls st'] eqn:Hrun.
  cbn [fst snd]. unfold checkLocalStorageAuth in Hrun.
  destruct (found st) eqn:Hf.
  - destruct (fresh now st) eqn:Hfr;
      [destruct (JSON_parse (default [] (getItem st "oauth_session")))
         as [session|] eqn:Hp|];
      injection Hrun as <- <-; cbn [length];
      (split; [lia|]); (split; [apply Hended|]);
      (split; [intros Heq; unfold checkLocalStorageAuth; rewrite Hf, <- Heq, ?Hp; reflexivity|]);
      intros k H1 H2 H3; apply clear_flags_other; assumption.
  - injection Hrun as <- <-. cbn [length]. split; [lia|]. split.
    { unfold checkLocalStorageAuth. rewrite Hf. reflexivity. }
    split.
    { intros _. unfold checkLocalStorageAuth. rewrite Hf. reflexivity. }
    intros k _ _ _. reflexivity.
Qed.

(** Two runs on the sample result, 10 s and 12 s after it was written: the
    second, started after the first has ended, hands nothing over; started
    while the first is still waiting, it hands the session over again. *)
Example overlapping_runs :
  let st := <[js "connecting_platform" := js "facebook"]>
              (sample_storage "1700000000000") in
  let first := checkLocalStorageAuth 1700000010000 connecting st in
  first = ([JObj [(js "provider_token", JStr (js "t"))]], ∅) /\
  checkLocalStorageAuth 1700000012000 connecting first.2 = ([], ∅) /\
  (checkLocalStorageAuth 1700000012000 connecting st).1 = first.1.
Proof. vm_compute. repeat split. Qed.

End RelayMore.

(** ** The format of a stored hash *)

Module HashFormat.
Import AuthService Hex AuthFacts.


Lemma hex_digit_lower n : (n < 16)%N -> is_lower_hex (hex_digit n) = true.
Proof.
  intros Hn. unfold is_lower_hex, hex_digit, is_digit.
  destruct (N.ltb_spec n 10).
  - apply orb_true_iff. left. apply andb_true_iff. split; apply N.leb_le; lia.
  - apply orb_true_iff. right. apply andb_true_iff. split; apply N.leb_le; lia.
Qed.

Lemma hex_lower bytes :
  Forall (fun b => (b < 256)%N) bytes -> forallb is_lower_hex (hex bytes) = true.
Proof.
  unfold hex. induction 1 as [|b bytes Hb _ IH]; [reflexivity|].
  simpl. rewrite IH, !hex_digit_lower; [reflexivity| |].
  - apply N.mod_lt. discriminate.
  - apply N.Div0.div_lt_upper_bound. exact Hb.
Qed.

Lemma hex_length bytes : length (hex bytes) = 2 * length bytes.
Proof.
  unfold hex. induction bytes as [|b bytes IH]; [reflexivity|].
  simpl. rewrite IH. lia.
Qed.

Lemma be_bytes n x : Forall (fun b => (b < 256)%N) (Sha256.be n x).
Proof.
  unfold Sha256.be. apply Forall_forall. intros b Hb.
  apply list_elem_of_fmap in Hb as (i & -> & _). apply N.mod_lt. discriminate.
Qed.

Lemma sha256_bytes data : Forall (fun b => (b < 256)%N) (sha256 data).
Proof.
  unfold sha256, Sha256.sha256.
  induction (Sha256.blocks _ _ _) as [|x xs IH]; [constructor|].
  cbn [map concat]. apply Forall_app. split; [apply be_bytes|exact IH].
Qed.

(** X23: the stored password hash has the documented format, "salt:hash"
    in hexadecimal: for salt bytes below 256, [hashPassword] returns the
    salt as two lower-case hexadecimal digits per byte, a colon, and 64
    lower-case hexadecimal digits. *)
Theorem hashPassword_has_documented_format (salt : list N) (password : jstring) :
  Forall (fun b => (b < 256)%N) salt ->
  exists hash,
    hashPassword salt password = hex salt ++ js ":" ++ hash /\
    length (hex salt) = 2 * length salt /\
    length hash = 64 /\
    forallb is_lower_hex (hex salt ++ hash) = true.
Proof.
  intros Hsalt. unfold hashPassword, finalHashHex. eexists. split; [reflexivity|].
  split; [apply hex_length|]. split.
  - rewrite hex_length, sha256_length. reflexivity.
  - rewrite forallb_app, !hex_lower; [reflexivity|apply sha256_bytes|exact Hsalt].
Qed.

Lemma hashPassword_format_witness :
  exists hash,
    hashPassword (repeat 171%N 16) (js "hunter2")
      = hex (repeat 171%N 16) ++ js ":" ++ hash /\
    length (hex (repeat 171%N 16)) = 2 * length (repeat 171%N 16) /\
    length hash = 64 /\
    forallb is_lower_hex (hex (repeat 171%N 16) ++ hash) = true.
Proof.
  apply (hashPassword_has_documented_format (repeat 171%N 16) (js "hunter2")).
  simpl. repeat (constructor; [reflexivity|]). constructor.
Defined.

End HashFormat.

(** ** Accounts *)

Module AccountsFacts.
Import AuthService Accounts AuthFacts.


(** A password verifies against the hash made from it with any non-empty
    salt. *)
Lemma verify_own_hash password salt :
  salt <> [] -> verifyPassword password (hashPassword salt password) = true.
Proof.
  intros Hsalt. unfold verifyPassword, hashPassword.
  change (js ":") with [58%N].
  rewrite split_app_sep by apply hex_no_colon.
  rewrite split_no_sep by apply hex_no_colon.
  rewrite !truthy_nonempty.
  - cbn [negb orb]. apply bool_decide_eq_true. reflexivity.
  - apply hex_nonempty, sha256_nonempty.
  - apply hex_nonempty, Hsalt.
Qed.

Lemma with_email_app e t1 t2 : with_email e (t1 ++ t2) = with_email e t1 ++ with_email e t2.
Proof. unfold with_email. apply List.filter_app. Qed.

Lemma with_email_nil e t : with_email e t = [] <-> e ∉ emails t.
Proof.
  unfold with_email, emails. induction t as [|r t IH]; simpl.
  - split; [intros _ H; inversion H|reflexivity].
  - destruct (contact_email r) as [e'|] eqn:He; simpl.
    + destruct (bool_decide (Some e' = Some e)) eqn:Hd.
      * apply bool_decide_eq_true in Hd. injection Hd as ->.
        split; [discriminate|]. intros H. exfalso. apply H. left.
      * apply bool_decide_eq_false in Hd. rewrite IH. split.
        -- intros H [->|Hin]%elem_of_cons; [congruence|contradiction].
        -- intros H Hin. apply H. right. exact Hin.
    + exact IH.
Qed.

Lemma signUp_created w email password name_ t u :
  select_error w = None ->
  reply (signUp w email password name_ t) = inr u ->
  with_email (normalised w email) t = [] /\
  signUp w email password name_ t = create w email password name_ t /\
  insert_error w = None.
Proof.
  unfold signUp. intros -> H.
  destruct (with_email (normalised w email) t) as [|r rs]; [|discriminate].
  split; [reflexivity|]. split; [reflexivity|].
  unfold create in H. destruct (insert_error w); [discriminate|reflexivity].
Qed.

(** X24: sign up, then sign in.  After a sign-up that succeeded (the
    existence check ran without error), signing in with the same password
    and an e-mail address that normalises to the same text succeeds on the
    table the sign-up left: it returns the same user, changes nothing in
    the table, and saves a session for that user that expires seven days
    after the sign-in. *)
Theorem signUp_then_signIn
    (w w' : world) (email email' password name_ : jstring) (t : list row) (u : User) :
  select_error w = None ->
  salt_bytes w <> [] ->
  reply (signUp w email password name_ t) = inr u ->
  select_error w' = None ->
  normalised w' email' = normalised w email ->
  let t' := table (signUp w email password name_ t) in
  exists s,
    signIn w' email' password t' = {| reply := inr u; table := t'; saved := Some s |} /\
    user s = u /\
    u_contact_email u = Some (normalised w email) /\
    expires_at s = (now w' + 604800000)%Z.
Proof.
  intros Hsel Hsalt Hup Hsel' Hnorm t'.
  destruct (signUp_created _ _ _ _ _ _ Hsel Hup) as (Hnone & Hrun & Hins).
  subst t'. rewrite Hrun in *. unfold create in *. rewrite Hins in *. simpl in *.
  injection Hup as <-.
  assert (Hh : exists c h, hashPassword (salt_bytes w) password = c :: h).
  { unfold hashPassword. destruct (hex (salt_bytes w)) eqn:Hx; simpl; eauto. }
  destruct Hh as (c & h & Hh).
  pose proof (verify_own_hash password (salt_bytes w) Hsalt) as Hv.
  rewrite Hh in *.
  eexists. split.
  - unfold signIn. rewrite Hsel', Hnorm, with_email_app, Hnone. simpl.
    rewrite bool_decide_eq_true_2 by reflexivity. simpl.
    rewrite Hv. reflexivity.
  - repeat split.
Qed.

Lemma signUp_then_signIn_witness :
  let t' := table (signUp sample_world (js " Ann@X.io") (js "hunter2") (js "Ann ") []) in
  exists s,
    signIn later_world (js "ann@x.IO ") (js "hunter2") t'
      = {| reply := inr (user_of {| id := new_id sample_world;
                                    name := Some (js "Ann"); sector := None;
                                    contact_email := Some (js "ann@x.io");
                                    password_hash :=
                                      Some (hashPassword (repeat 171%N 16) (js "hunter2"));
                                    created_at := 1700000000001 |});
           table := t'; saved := Some s |} /\
    user s = user_of {| id := new_id sample_world;
                        name := Some (js "Ann"); sector := None;
                        contact_email := Some (js "ann@x.io");
                        password_hash :=
                          Some (hashPassword (repeat 171%N 16) (js "hunter2"));
                        created_at := 1700000000001 |} /\
    u_contact_email (user_of {| id := new_id sample_world;
                                name := Some (js "Ann"); sector := None;
                                contact_email := Some (js "ann@x.io");
                                password_hash :=
                                  Some (hashPassword (repeat 171%N 16) (js "hunter2"));
                                created_at := 1700000000001 |})
      = Some (normalised sample_world (js " Ann@X.io")) /\
    expires_at s = (now later_world + 604800000)%Z.
Proof.
  apply (signUp_then_signIn sample_world later_world (js " Ann@X.io") (js "ann@x.IO ")
           (js "hunter2") (js "Ann ") []).
  - reflexivity.
  - discriminate.
  - reflexivity.
  - reflexivity.
  - reflexivity.
Defined.

(** X25: as long as the existence check runs without error, [signUp] keeps
    the e-mail addresses on file distinct (the table has no unique
    constraint of its own).  A sign-up that is refused leaves the table as
    it was and saves no session; and an address already on file is
    refused with "User with this email already exists". *)
Theorem signUp_keeps_emails_unique
    (w : world) (email password name_ : jstring) (t : list row) :
  select_error w = None ->
  NoDup (emails t) ->
  let o := signUp w email password name_ t in
  NoDup (emails (table o)) /\
  (forall msg, reply o = inl msg -> table o = t /\ saved o = None) /\
  (normalised w email ∈ emails t ->
   o = refuse "User with this email already exists" t).
Proof.
  intros Hsel Hnd o. subst o. unfold signUp. rewrite Hsel.
  destruct (with_email (normalised w email) t) as [|r rs] eqn:Hw.
  - apply with_email_nil in Hw. unfold create.
    destruct (insert_error w); simpl.
    + split; [exact Hnd|]. split; [auto|]. intros Hin. contradiction.
    + split; [|split; [discriminate|intros Hin; contradiction]].
      unfold emails. rewrite omap_app. simpl.
      apply NoDup_app. split; [exact Hnd|]. split; [|apply NoDup_singleton].
      intros x Hx Hx'. apply list_elem_of_singleton in Hx'. subst x. exact (Hw Hx).
  - simpl. split; [exact Hnd|]. split; auto.
Qed.

Lemma signUp_unique_witness :
  let t := table (signUp sample_world (js " Ann@X.io") (js "hunter2") (js "Ann ") []) in
  let o := signUp later_world (js "ann@x.IO ") (js "other") (js "Ann B") t in
  emails t = [js "ann@x.io"] /\
  normalised later_world (js "ann@x.IO ") ∈ emails t /\
  NoDup (emails (table o)) /\
  (forall msg, reply o = inl msg -> table o = t /\ saved o = None) /\
  (normalised later_world (js "ann@x.IO ") ∈ emails t ->
   o = refuse "User with this email already exists" t).
Proof.
  split; [reflexivity|]. split; [vm_compute; left|].
  apply (signUp_keeps_emails_unique later_world (js "ann@x.IO ") (js "other") (js "Ann B")
           (table (signUp sample_world (js " Ann@X.io") (js "hunter2") (js "Ann ") []))).
  - reflexivity.
  - vm_compute. apply NoDup_singleton.
Defined.

(** The table after two sign-ups with the same address, differently
    written: the second is refused and one row is on file. *)
Example second_signUp_refused :
  let t := table (signUp sample_world (js " Ann@X.io") (js "hunter2") (js "Ann ") []) in
  let o := signUp later_world (js "ann@x.IO ") (js "other") (js "Ann B") t in
  reply o = inl (js "User with this email already exists") /\
  table o = t /\ saved o = None /\ length (table o) = 1.
Proof. vm_compute. repeat split. Qed.

End AccountsFacts.

(** ** The subtype column *)

Module CompositeFacts.
Import AuthService CsvTools Composite.

Lemma lex_from_app s r m toks :
  lex_from (s ++ r) m toks = '(m', toks') ← lex_run s m toks; lex_from r m' toks'.
Proof.
  revert m toks. induction s as [|c s IH]; intros m toks; [reflexivity|].
  simpl. destruct (lex_step c m toks) as [[m' toks']|]; [apply IH|reflexivity].
Qed.

Lemma lex_run_app s r m toks :
  lex_run (s ++ r) m toks = '(m', toks') ← lex_run s m toks; lex_run r m' toks'.
Proof.
  revert m toks. induction s as [|c s IH]; intros m toks; [reflexivity|].
  simpl. destruct (lex_step c m toks) as [[m' toks']|]; [apply IH|reflexivity].
Qed.

Lemma hex_val_hex_digit n : (n < 16)%N -> hex_val (hex_digit n) = Some n.
Proof.
  intros Hn. unfold hex_val, hex_digit, is_digit.
  destruct (N.ltb_spec n 10).
  - replace ((48 <=? 48 + n)%N && (48 + n <=? 57)%N) with true
      by (symmetry; apply andb_true_iff; split; apply N.leb_le; lia).
    f_equal. lia.
  - replace ((48 <=? 87 + n)%N && (87 + n <=? 57)%N) with false
      by (symmetry; apply andb_false_iff; right; apply N.leb_gt; lia).
    replace ((97 <=? 87 + n)%N && (87 + n <=? 102)%N) with true
      by (symmetry; apply andb_true_iff; split; apply N.leb_le; lia).
    f_equal. lia.
Qed.

Lemma lex_step_hex c acc k v toks h :
  hex_val c = Some h ->
  lex_step c (LHex acc (S k) v) toks
  = Some (match k with
          | 0 => LStr ((16 * v + h)%N :: acc)
          | S _ => LHex acc k (16 * v + h)%N
          end, toks).
Proof. intros Hh. simpl. rewrite Hh. destruct k; reflexivity. Qed.

Lemma lex_run_unicode_escape c acc toks :
  (c < 65536)%N ->
  lex_run (unicode_escape c) (LStr acc) toks = Some (LStr (c :: acc), toks).
Proof.
  intros Hc. unfold unicode_escape.
  change (lex_run (92%N :: 117%N :: ?r) (LStr acc) toks)
    with (lex_run r (LHex acc 4 0%N) toks).
  assert (H3 : (c / 4096 < 16)%N) by (apply N.Div0.div_lt_upper_bound; lia).
  assert (H2 : ((c / 256) mod 16 < 16)%N) by (apply N.mod_lt; lia).
  assert (H1 : ((c / 16) mod 16 < 16)%N) by (apply N.mod_lt; lia).
  assert (H0 : (c mod 16 < 16)%N) by (apply N.mod_lt; lia).
  cbn [lex_run].
  rewrite (lex_step_hex _ _ _ _ _ _ (hex_val_hex_digit _ H3)). cbn [mbind option_bind].
  rewrite (lex_step_hex _ _ _ _ _ _ (hex_val_hex_digit _ H2)). cbn [mbind option_bind].
  rewrite (lex_step_hex _ _ _ _ _ _ (hex_val_hex_digit _ H1)). cbn [mbind option_bind].
  rewrite (lex_step_hex _ _ _ _ _ _ (hex_val_hex_digit _ H0)). cbn [mbind option_bind].
  do 4 f_equal.
  pose proof (N.div_mod c 16 ltac:(lia)) as E0.
  pose proof (N.div_mod (c / 16) 16 ltac:(lia)) as E1.
  pose proof (N.div_mod (c / 256) 16 ltac:(lia)) as E2.
  rewrite N.Div0.div_div in E1. rewrite N.Div0.div_div in E2.
  change (16 * 16)%N with 256%N in E1. change (256 * 16)%N with 4096%N in E2.
  lia.
Qed.

Lemma lex_step_literal c acc toks :
  c <> 34%N -> c <> 92%N -> (32 <= c)%N ->
  lex_step c (LStr acc) toks = Some (LStr (c :: acc), toks).
Proof.
  intros H1 H2 H3. simpl.
  destruct (N.eqb_spec c 34); [done|]. destruct (N.eqb_spec c 92); [done|].
  destruct (N.ltb_spec c 32); [lia|reflexivity].
Qed.

Lemma lex_run_quote_unit c acc toks :
  is_high c = false ->
  lex_run (quote_unit c) (LStr acc) toks = Some (LStr (c :: acc), toks).
Proof.
  intros Hh. unfold quote_unit.
  destruct (N.eqb_spec c 8) as [->|]; [reflexivity|].
  destruct (N.eqb_spec c 9) as [->|]; [reflexivity|].
  destruct (N.eqb_spec c 10) as [->|]; [reflexivity|].
  destruct (N.eqb_spec c 12) as [->|]; [reflexivity|].
  destruct (N.eqb_spec c 13) as [->|]; [reflexivity|].
  destruct (N.eqb_spec c 34) as [->|]; [reflexivity|].
  destruct (N.eqb_spec c 92) as [->|]; [reflexivity|].
  rewrite Hh, orb_false_r.
  destruct (N.ltb_spec c 32); simpl.
  - apply lex_run_unicode_escape. lia.
  - destruct (is_low c) eqn:Hl.
    + apply lex_run_unicode_escape. unfold is_low in Hl.
      apply andb_true_iff in Hl as [_ Hl]. apply N.leb_le in Hl. lia.
    + cbn [lex_run]. rewrite lex_step_literal by assumption. reflexivity.
Qed.

Lemma lex_run_quote_from_len n : forall s acc toks,
  length s <= n ->
  lex_run (quote_from s) (LStr acc) toks = Some (LStr (rev s ++ acc), toks).
Proof.
  induction n as [|n IH]; intros s acc toks Hn.
  - destruct s; [reflexivity|simpl in Hn; lia].
  - destruct s as [|c s]; [reflexivity|]. simpl in Hn.
    cbn [quote_from]. destruct (is_high c) eqn:Hh.
    + assert (Hc : (55296 <= c <= 56319)%N).
      { unfold is_high in Hh. apply andb_true_iff in Hh as [H1 H2].
        apply N.leb_le in H1, H2. lia. }
      destruct s as [|d s].
      * rewrite lex_run_unicode_escape by lia. reflexivity.
      * destruct (is_low d) eqn:Hl.
        -- assert (Hd : (56320 <= d <= 57343)%N).
           { unfold is_low in Hl. apply andb_true_iff in Hl as [H1 H2].
             apply N.leb_le in H1, H2. lia. }
           cbn [lex_run]. rewrite lex_step_literal by lia. cbn [mbind option_bind].
           rewrite lex_step_literal by lia. cbn [mbind option_bind].
           rewrite IH by (simpl in Hn; lia).
           simpl. rewrite <- !app_assoc. reflexivity.
        -- rewrite lex_run_app, lex_run_unicode_escape by lia. cbn [mbind option_bind].
           rewrite IH by lia. simpl. rewrite <- !app_assoc. reflexivity.
    + rewrite lex_run_app, lex_run_quote_unit by assumption. cbn [mbind option_bind].
      rewrite IH by lia. simpl. rewrite <- !app_assoc. reflexivity.
Qed.

(** Reading back a string that [JSON.stringify] wrote. *)
Lemma lex_run_quote s toks :
  lex_run (quote s) LStart toks = Some (LStart, TStr s :: toks).
Proof.
  unfold quote.
  change (lex_run (34%N :: ?r) LStart toks) with (lex_run r (LStr []) toks).
  rewrite lex_run_app, (lex_run_quote_from_len (length s)) by lia.
  cbn [mbind option_bind]. simpl. rewrite app_nil_r, rev_involutive. reflexivity.
Qed.

Lemma plain_stringify nts v :
  plain v ->
  exists t, JSON_stringify nts v = Some t /\
            (forall toks, lex_run t LStart toks = Some (LStart, token_of v :: toks)) /\
            (forall st, open_value (token_of v) st = complete v st).
Proof.
  destruct v; try contradiction; intros _.
  - exists (js "null"). repeat split; reflexivity.
  - exists (quote s). split; [reflexivity|]. split; [|reflexivity].
    intros toks. apply lex_run_quote.
Qed.

Lemma composite_text nts fs fp ts tp :
  JSON_stringify nts fs = Some ts ->
  JSON_stringify nts fp = Some tp ->
  JSON_stringify nts (JObj (members fs fp))
  = Some (js "{" ++ quote (js "original_subtype") ++ js ":" ++ ts ++ js ","
               ++ quote (js "platform") ++ js ":" ++ tp ++ js "}").
Proof.
  intros Hs Hp. unfold members. cbn [JSON_stringify map fst snd].
  rewrite Hs, Hp.
  change (own_entries [(js "original_subtype", Some ts); (js "platform", Some tp)])
    with [(js "original_subtype", Some ts); (js "platform", Some tp)].
  cbn [omap list_omap mbind option_bind fst snd join].
  rewrite <- !app_assoc. reflexivity.
Qed.

Lemma lex_from_run s m toks :
  lex_from s m toks = '(m', toks') ← lex_run s m toks; lex_from [] m' toks'.
Proof. rewrite <- (app_nil_r s) at 1. apply lex_from_app. Qed.

Lemma ends_with_app s suffix : ends_with suffix (s ++ suffix) = true.
Proof.
  unfold ends_with. rewrite rev_app_distr.
  induction (rev suffix) as [|c r IH]; [reflexivity|].
  simpl. rewrite N.eqb_refl. exact IH.
Qed.

(** What [saveContentToDatabase] writes into the subtype column reads back,
    with [JSON.parse], as the object it was made from. *)
Lemma composite_parse nts fs fp :
  plain fs -> plain fp ->
  exists c,
    JSON_stringify nts (JObj (members fs fp)) = Some (123%N :: c) /\
    JSON_parse (123%N :: c) = Some (JObj (members fs fp)) /\
    ends_with (js "}") (123%N :: c) = true.
Proof.
  intros Hs Hp.
  destruct (plain_stringify nts fs Hs) as (ts & Ets & Lts & Ots).
  destruct (plain_stringify nts fp Hp) as (tp & Etp & Ltp & Otp).
  eexists. split; [apply (composite_text nts fs fp ts tp Ets Etp)|]. split.
  - unfold JSON_parse, lex.
    change (123%N :: ?r) with (js "{" ++ r).
    rewrite lex_from_run, lex_run_app.
    change (lex_run (js "{") LStart []) with (Some (LStart, [TLBrace])).
    cbn [mbind option_bind]. rewrite lex_run_app, lex_run_quote.
    cbn [mbind option_bind]. rewrite lex_run_app.
    change (lex_run (js ":") LStart ?t) with (Some (LStart, TColon :: t)).
    cbn [mbind option_bind]. rewrite lex_run_app, Lts.
    cbn [mbind option_bind]. rewrite lex_run_app.
    change (lex_run (js ",") LStart ?t) with (Some (LStart, TComma :: t)).
    cbn [mbind option_bind]. rewrite lex_run_app, lex_run_quote.
    cbn [mbind option_bind]. rewrite lex_run_app.
    change (lex_run (js ":") LStart ?t) with (Some (LStart, TColon :: t)).
    cbn [mbind option_bind]. rewrite lex_run_app, Ltp.
    cbn [mbind option_bind].
    change (lex_run (js "}") LStart ?t) with (Some (LStart, TRBrace :: t)).
    cbn [mbind option_bind lex_from rev app].
    cbn [parse_from parse_step open_value mbind option_bind].
    rewrite Ots. cbn [complete mbind option_bind parse_from parse_step obj_set].
    rewrite Otp. cbn [complete mbind option_bind parse_from parse_step obj_set].
    reflexivity.
  - change (123%N :: ?r) with (js "{" ++ r).
    rewrite !app_assoc. apply ends_with_app.
Qed.

Lemma decode_composite c fs fp :
  JSON_parse (123%N :: c) = Some (JObj (members fs fp)) ->
  decode (Some (123%N :: c))
  = (or_val fs (or_val JUndefined (or_val fs (JStr (123%N :: c)))),
     if truthy_val fp then fp else JNull).
Proof.
  intros Hp. unfold decode. rewrite Hp.
  change (truthy (Some (123%N :: c))) with true.
  change (includes (123%N :: c) (js "{")) with (true || includes c (js "{")).
  reflexivity.
Qed.

Lemma decode_display_composite c fs fp :
  JSON_parse (123%N :: c) = Some (JObj (members fs fp)) ->
  ends_with (js "}") (123%N :: c) = true ->
  decode_display (Some (123%N :: c)) = (fs, fp).
Proof.
  intros Hp He. unfold decode_display. rewrite Hp, He. reflexivity.
Qed.

Section RoundTrip.
Variable toLowerCase : jstring -> jstring.
Variable Number_toString : Z -> Z -> jstring.

Lemma final_platform_plain platform other :
  (truthy_val platform = true -> exists p, platform = JStr p) ->
  plain other -> (truthy_val other = false -> other = JNull) ->
  plain (or_val platform other) /\
  (if truthy_val (or_val platform other) then or_val platform other else JNull)
  = or_val platform other.
Proof.
  intros Hpl Ho Hn. unfold or_val. destruct (truthy_val platform) eqn:Ht.
  - destruct (Hpl eq_refl) as [p ->]. rewrite Ht. split; [exact I|reflexivity].
  - split; [exact Ho|]. destruct (truthy_val other) eqn:Hto; [reflexivity|].
    symmetry. apply Hn. reflexivity.
Qed.

Lemma cleaned_decoded subtype metadata st pf :
  decode subtype = (st, pf) ->
  (cleaned subtype metadata).1 = st /\
  (truthy_val pf = true -> prop (cleaned subtype metadata).2 "platform" = Some pf).
Proof.
  intros Hd. unfold cleaned. rewrite Hd. split; [reflexivity|].
  intros Ht. rewrite Ht. cbn [snd prop]. rewrite SaveFacts.obj_get_set. reflexivity.
Qed.

(** X26: the subtype column round trip.  [saveContentToDatabase] packs the
    subtype and the platform of an item into the text of the subtype column;
    for an item whose subtype is a non-empty string (and whose platform is
    a string or a falsy value) both screens read that text back to the
    subtype and the platform that were packed: the subtype itself, or
    ["post"] with the subtype as platform when the subtype names one of the
    known platforms.  The item [loadResults] hands to the edit screen has
    that subtype, and the platform in its metadata. *)
Theorem composite_subtype_round_trip (s : jstring) (platform : jsval) :
  s <> [] ->
  (truthy_val platform = true -> exists p, platform = JStr p) ->
  let named := bool_decide (toLowerCase s ∈ knownPlatforms) in
  exists e,
    encode_item toLowerCase Number_toString (JStr s) platform = Some e /\
    finalSubtype e = JStr (if named then js "post" else s) /\
    finalPlatform e = or_val platform (if named then JStr s else JNull) /\
    decode (Some (compositeSubtype e)) = (finalSubtype e, finalPlatform e) /\
    decode_display (Some (compositeSubtype e)) = (finalSubtype e, finalPlatform e) /\
    forall metadata,
      (cleaned (Some (compositeSubtype e)) metadata).1 = finalSubtype e /\
      (truthy_val (finalPlatform e) = true ->
       prop (cleaned (Some (compositeSubtype e)) metadata).2 "platform"
         = Some (finalPlatform e)).
Proof.
  intros Hs Hpl named.
  set (fs := JStr (if named then js "post" else s)).
  set (fp := or_val platform (if named then JStr s else JNull)).
  assert (Hfs : plain fs) by exact I.
  assert (Hts : truthy_val fs = true).
  { unfold fs. destruct named; [reflexivity|]. simpl. destruct s; [done|reflexivity]. }
  destruct (final_platform_plain platform (if named then JStr s else JNull) Hpl)
    as [Hfp Hfp'].
  { destruct named; exact I. }
  { destruct named; [|reflexivity]. simpl. destruct s; [done|discriminate]. }
  fold fp in Hfp, Hfp'.
  destruct (composite_parse Number_toString fs fp Hfs Hfp) as (c & Hc & Hparse & Hend).
  assert (Hd : decode (Some (123%N :: c)) = (fs, fp)).
  { etrans; [exact (decode_composite c fs fp Hparse)|].
    rewrite Hfp'. unfold or_val at 1. rewrite Hts. reflexivity. }
  exists {| finalSubtype := fs; finalPlatform := fp; compositeSubtype := 123%N :: c |}.
  split.
  - unfold encode_item, isSubtypePlatform.
    assert (Ht : truthy_val (JStr s) = true) by (simpl; destruct s; [done|reflexivity]).
    rewrite Ht. cbn [andb mbind option_bind]. fold named.
    replace (if named then JStr (js "post") else JStr s) with fs
      by (unfold fs; destruct named; reflexivity).
    fold fp. rewrite Hc. reflexivity.
  - cbn [finalSubtype finalPlatform compositeSubtype].
    split; [reflexivity|]. split; [reflexivity|]. split; [exact Hd|].
    split; [apply decode_display_composite; assumption|].
    intros metadata. apply cleaned_decoded, Hd.
Qed.

(** X27: an item without a subtype.  When the subtype is [null] or the empty
    string, [saveContentToDatabase] still writes the composite text; the
    results screen reads the stored subtype back, but [loadResults] of the
    edit screen finds no usable member in it and keeps the column as it is:
    the item's subtype is then the JSON text itself. *)
Theorem missing_subtype_is_loaded_as_json_text (subtype platform : jsval) :
  subtype = JNull \/ subtype = JStr [] ->
  (truthy_val platform = true -> exists p, platform = JStr p) ->
  exists e,
    encode_item toLowerCase Number_toString subtype platform = Some e /\
    finalSubtype e = subtype /\
    finalPlatform e = or_val platform JNull /\
    JSON_parse (compositeSubtype e) = Some (JObj (members subtype (finalPlatform e))) /\
    decode (Some (compositeSubtype e))
      = (JStr (compositeSubtype e), finalPlatform e) /\
    decode_display (Some (compositeSubtype e)) = (subtype, finalPlatform e).
Proof.
  intros Hs Hpl.
  set (fp := or_val platform JNull).
  assert (Hfs : plain subtype) by (destruct Hs as [-> | ->]; exact I).
  assert (Hts : truthy_val subtype = false) by (destruct Hs as [-> | ->]; reflexivity).
  destruct (final_platform_plain platform JNull Hpl I ltac:(reflexivity)) as [Hfp Hfp'].
  fold fp in Hfp, Hfp'.
  destruct (composite_parse Number_toString subtype fp Hfs Hfp) as (c & Hc & Hparse & Hend).
  exists {| finalSubtype := subtype; finalPlatform := fp; compositeSubtype := 123%N :: c |}.
  split.
  - unfold encode_item.
    assert (Hp : isSubtypePlatform toLowerCase subtype = Some false)
      by (destruct Hs as [-> | ->]; reflexivity).
    rewrite Hp. cbn [mbind option_bind]. fold fp. rewrite Hc. reflexivity.
  - cbn [finalSubtype finalPlatform compositeSubtype].
    split; [reflexivity|]. split; [reflexivity|]. split; [exact Hparse|]. split.
    + etrans; [exact (decode_composite c subtype fp Hparse)|].
      rewrite Hfp'. unfold or_val. rewrite Hts. reflexivity.
    + apply decode_display_composite; assumption.
Qed.
End RoundTrip.

Lemma composite_round_trip_witness :
  exists e,
    encode_item (map lower) (fun _ _ => js "0") (JStr (js "LinkedIn")) JNull = Some e /\
    finalSubtype e = JStr (js "post") /\
    finalPlatform e = JStr (js "LinkedIn") /\
    decode (Some (compositeSubtype e)) = (finalSubtype e, finalPlatform e) /\
    decode_display (Some (compositeSubtype e)) = (finalSubtype e, finalPlatform e) /\
    forall metadata,
      (cleaned (Some (compositeSubtype e)) metadata).1 = finalSubtype e /\
      (truthy_val (finalPlatform e) = true ->
       prop (cleaned (Some (compositeSubtype e)) metadata).2 "platform"
         = Some (finalPlatform e)).
Proof.
  apply (composite_subtype_round_trip (map lower) (fun _ _ => js "0")
           (js "LinkedIn") JNull); [discriminate|discriminate].
Defined.

Lemma missing_subtype_witness :
  exists e,
    encode_item (map lower) (fun _ _ => js "0") JNull (JStr (js "LinkedIn")) = Some e /\
    finalSubtype e = JNull /\
    finalPlatform e = or_val (JStr (js "LinkedIn")) JNull /\
    JSON_parse (compositeSubtype e)
      = Some (JObj (members JNull (finalPlatform e))) /\
    decode (Some (compositeSubtype e))
      = (JStr (compositeSubtype e), finalPlatform e) /\
    decode_display (Some (compositeSubtype e)) = (JNull, finalPlatform e).
Proof.
  apply (missing_subtype_is_loaded_as_json_text (map lower) (fun _ _ => js "0")
           JNull (JStr (js "LinkedIn"))); [left; reflexivity|].
  intros _. exists (js "LinkedIn"). reflexivity.
Defined.

(** The text written for a LinkedIn item without subtype, and what the edit
    screen makes of it. *)
Example composite_sample :
  compositeSubtype <$> encode_item (map lower) (fun _ _ => js "0") JNull (JStr (js "LinkedIn"))
  = Some (jsq "{'original_subtype':null,'platform':'LinkedIn'}") /\
  compositeSubtype <$> encode_item (map lower) (fun _ _ => js "0")
                         (JStr (jsq "say 'hi'" ++ [10; 55357; 56832; 56832]%N)) JNull
  = Some (js "{" ++ jsq "'original_subtype':'say \'hi\'\n" ++ [55357; 56832]%N
            ++ jsq "\ude00','platform':null}").
Proof. split; vm_compute; reflexivity. Qed.

End CompositeFacts.

(** ** PKCE *)

Module PkceFacts.
Import AuthService Hex AuthFacts Pkce.

Lemma verifier_byte b :
  (b < 256)%N -> substr_last2 (js "0" ++ toString16 b) = hex_byte b.
Proof.
  intros Hb. unfold toString16, hex_byte, substr_last2.
  destruct (N.ltb_spec b 16) as [H|H].
  - rewrite (N.div_small b 16), (N.mod_small b 16) by exact H. reflexivity.
  - reflexivity.
Qed.

Lemma verifier_is_hex array :
  Forall (fun b => (b < 256)%N) array -> generateCodeVerifier array = hex array.
Proof.
  unfold generateCodeVerifier, hex. induction 1 as [|b bs Hb _ IH]; [reflexivity|].
  cbn [map concat]. rewrite IH, verifier_byte by exact Hb. reflexivity.
Qed.

Lemma replace_one (p r : N) s :
  replaceAll false [p] [r] s = map (fun c => if N.eqb p c then r else c) s.
Proof.
  unfold replaceAll. induction s as [|c s IH]; [reflexivity|].
  cbn [replace_from starts_with map length Nat.sub]. rewrite andb_true_r.
  destruct (N.eqb p c); cbn [app]; rewrite IH; reflexivity.
Qed.

Lemma replaced_chars b :
  replaceAll false (js "/") (js "_") (replaceAll false (js "+") (js "-") b)
  = map url_char b.
Proof.
  change (js "/") with [47%N]. change (js "_") with [95%N].
  change (js "+") with [43%N]. change (js "-") with [45%N].
  rewrite !replace_one, map_map. apply map_ext. intros c. unfold url_char.
  destruct (N.eqb_spec 43 c) as [<-|H1]; [reflexivity|].
  destruct (N.eqb_spec 47 c) as [<-|H2]; [reflexivity|].
  destruct (N.eqb_spec c 47); [congruence|]. destruct (N.eqb_spec c 43); [congruence|].
  reflexivity.
Qed.

Lemma base64_char_url n : (n < 64)%N -> is_base64url (url_char (base64_char n)) = true.
Proof.
  intros Hn. unfold base64_char.
  destruct (N.ltb_spec n 26).
  { unfold url_char, is_base64url, is_digit.
    destruct (N.eqb_spec (65 + n) 47); [lia|]. destruct (N.eqb_spec (65 + n) 43); [lia|].
    replace ((65 <=? 65 + n)%N && (65 + n <=? 90)%N) with true
      by (symmetry; apply andb_true_iff; split; apply N.leb_le; lia).
    rewrite orb_true_r. reflexivity. }
  destruct (N.ltb_spec n 52).
  { unfold url_char, is_base64url, is_digit.
    destruct (N.eqb_spec (71 + n) 47); [lia|]. destruct (N.eqb_spec (71 + n) 43); [lia|].
    replace ((97 <=? 71 + n)%N && (71 + n <=? 122)%N) with true
      by (symmetry; apply andb_true_iff; split; apply N.leb_le; lia).
    rewrite !orb_true_r. reflexivity. }
  destruct (N.ltb_spec n 62).
  { unfold url_char, is_base64url, is_digit.
    destruct (N.eqb_spec (n - 4) 47); [lia|]. destruct (N.eqb_spec (n - 4) 43); [lia|].
    replace ((48 <=? n - 4)%N && (n - 4 <=? 57)%N) with true
      by (symmetry; apply andb_true_iff; split; apply N.leb_le; lia).
    reflexivity. }
  destruct (N.eqb_spec n 62); reflexivity.
Qed.

Lemma url_char_not_padding n : (n < 64)%N -> url_char (base64_char n) <> 61%N.
Proof.
  intros Hn Heq. pose proof (base64_char_url n Hn) as H. rewrite Heq in H. discriminate.
Qed.

(** Whole groups of three bytes: four characters each, no padding. *)
Lemma base64_groups k : forall bytes rest,
  length bytes = 3 * k -> Forall (fun b => (b < 256)%N) bytes ->
  base64 (bytes ++ rest) = base64 bytes ++ base64 rest /\
  length (base64 bytes) = 4 * k /\
  forallb is_base64url (map url_char (base64 bytes)) = true.
Proof.
  induction k as [|k IH]; intros bytes rest Hl Hb.
  - destruct bytes; [repeat split|discriminate].
  - destruct bytes as [|a [|b [|c bytes]]]; try (simpl in Hl; lia).
    apply Forall_cons in Hb as [Ha Hb]. apply Forall_cons in Hb as [Hb Hc].
    apply Forall_cons in Hc as [Hc Hbytes].
    destruct (IH bytes rest) as (E & L & F); [simpl in Hl; lia|exact Hbytes|].
    split; [|split].
    + change ((a :: b :: c :: bytes) ++ rest) with (a :: b :: c :: bytes ++ rest).
      cbn [base64]. rewrite E. rewrite <- app_assoc. reflexivity.
    + cbn [base64 app length]. rewrite L. lia.
    + cbn [base64 app map forallb]. rewrite F.
      assert (a / 4 < 64)%N by (apply N.Div0.div_lt_upper_bound; lia).
      assert (a mod 4 < 4)%N by (apply N.mod_lt; lia).
      assert (b / 16 < 16)%N by (apply N.Div0.div_lt_upper_bound; lia).
      assert (b mod 16 < 16)%N by (apply N.mod_lt; lia).
      assert (c / 64 < 4)%N by (apply N.Div0.div_lt_upper_bound; lia).
      assert (c mod 64 < 64)%N by (apply N.mod_lt; lia).
      rewrite !base64_char_url by lia. reflexivity.
Qed.

Lemma challenge_of_digest digest :
  length digest = 32 -> Forall (fun b => (b < 256)%N) digest ->
  let challenge := strip_padding (map url_char (base64 digest)) in
  length challenge = 43 /\ forallb is_base64url challenge = true.
Proof.
  intros Hl Hb.
  rewrite <- (take_drop 30 digest) in Hb |- *.
  apply Forall_app in Hb as [Hb1 Hb2].
  assert (Hl1 : length (take 30 digest) = 3 * 10) by (rewrite length_take; lia).
  assert (Hl2 : length (drop 30 digest) = 2) by (rewrite length_drop; lia).
  destruct (drop 30 digest) as [|a [|b [|]]]; try discriminate.
  apply Forall_cons in Hb2 as [Ha Hb2]. apply Forall_cons in Hb2 as [Hb _].
  destruct (base64_groups 10 (take 30 digest) [a; b] Hl1 Hb1) as (E & L & F).
  rewrite E. cbn [base64]. rewrite map_app. cbn [map].
  assert (a / 4 < 64)%N by (apply N.Div0.div_lt_upper_bound; lia).
  assert (a mod 4 < 4)%N by (apply N.mod_lt; lia).
  assert (b / 16 < 16)%N by (apply N.Div0.div_lt_upper_bound; lia).
  assert (b mod 16 < 16)%N by (apply N.mod_lt; lia).
  assert (Hz : url_char (base64_char (b mod 16 * 4)) <> 61%N)
    by (apply url_char_not_padding; lia).
  unfold strip_padding. rewrite rev_app_distr. cbn [rev app skip_equals].
  change (N.eqb (url_char 61) 61) with true. cbv iota.
  destruct (N.eqb_spec (url_char (base64_char (b mod 16 * 4))) 61); [contradiction|].
  cbn [rev]. rewrite rev_involutive. split.
  - rewrite !length_app, length_map, L. reflexivity.
  - rewrite !forallb_app, F. cbn [forallb].
    rewrite !base64_char_url by lia. reflexivity.
Qed.

(** X28: the PKCE parameters of the X connect flow are well formed.  The
    code verifier [generateCodeVerifier] builds from 32 random bytes is 64
    lower-case hexadecimal digits; the challenge [generateCodeChallenge]
    derives from it is always produced ([btoa] is never handed a character
    it refuses) and is 43 characters long, each a letter, a digit, [-] or
    [_]: no padding is left and nothing in it needs escaping in the
    authorisation URL. *)
Theorem pkce_parameters_are_well_formed (array : list N) :
  length array = 32 ->
  Forall (fun b => (b < 256)%N) array ->
  let verifier := generateCodeVerifier array in
  length verifier = 64 /\
  forallb is_lower_hex verifier = true /\
  exists challenge,
    generateCodeChallenge verifier = Some challenge /\
    length challenge = 43 /\
    forallb is_base64url challenge = true.
Proof.
  intros Hl Hb verifier. unfold verifier.
  rewrite (verifier_is_hex array Hb).
  split; [rewrite HashFormat.hex_length, Hl; reflexivity|].
  split; [apply HashFormat.hex_lower, Hb|].
  unfold generateCodeChallenge, btoa.
  assert (Hd : forallb (fun c => (c <? 256)%N) (sha256 (encode (hex array))) = true).
  { apply forallb_forall. intros c Hc.
    pose proof (HashFormat.sha256_bytes (encode (hex array))) as Hs.
    rewrite Forall_forall in Hs. apply N.ltb_lt, Hs, list_elem_of_In, Hc. }
  rewrite Hd. cbn [mbind option_bind]. eexists. split; [reflexivity|].
  rewrite replaced_chars.
  apply challenge_of_digest; [apply sha256_length|apply HashFormat.sha256_bytes].
Qed.

Lemma pkce_witness :
  length (generateCodeVerifier (repeat 7%N 32)) = 64 /\
  forallb is_lower_hex (generateCodeVerifier (repeat 7%N 32)) = true /\
  exists challenge,
    generateCodeChallenge (generateCodeVerifier (repeat 7%N 32)) = Some challenge /\
    length challenge = 43 /\
    forallb is_base64url challenge = true.
Proof.
  apply (pkce_parameters_are_well_formed (repeat 7%N 32)); [reflexivity|].
  simpl. repeat (constructor; [reflexivity|]). constructor.
Defined.

(** The example of RFC 7636, appendix B (there the verifier is not made of
    hexadecimal digits; the challenge does not depend on that). *)
Example challenge_sample :
  generateCodeChallenge (js "dBjftJeZ4CVP-mB92K27uhbUJU1p1r_wW1gFWFOEjXk")
  = Some (js "E9Melhoa2OwvFrEMTJguCHaoeK1t8URWbuGJSstw-cM").
Proof. vm_compute. reflexivity. Qed.
End PkceFacts.
